(** * HR record keeping: search, bulk salary adjustment and pay reports

    A shallow embedding of the three screens that carry logic
    ([EmployeeSearch], [SalaryAdjustments], [Reports]) over a model of the
    record store they talk to, and the properties of the design notes
    checked against it.

    - JavaScript numbers are IEEE-754 binary64 values: [spec_float] with
      precision 53 and maximal exponent 1024, with the reference operations
      of the standard library ([SFadd], [SFmul], [SFdiv], ...).
    - JavaScript strings are [string]s whose characters are read as code
      units below 256.
    - A handler is a computation over the screen state and the world (the
      store, the store failures still to come, the console and the time
      zone of the browser) that may throw. *)

From Stdlib Require Import ZArith List String Ascii Bool Lia Permutation Sorted DecimalString.
From Stdlib Require Import Floats.SpecFloat.
From Stdlib Require DecimalNat DecimalFacts.
Import ListNotations.
Local Open Scope string_scope.
Local Open Scope Z_scope.

(* ===================================================================== *)
(** * JavaScript numbers *)
(* ===================================================================== *)

Module JsNumber.

Definition prec : Z := 53.
Definition emax : Z := 1024.

Definition number : Type := spec_float.

Definition NaN : number := S754_nan.
Definition Infinity : number := S754_infinity false.

Definition add : number -> number -> number := SFadd prec emax.
Definition mul : number -> number -> number := SFmul prec emax.
Definition div : number -> number -> number := SFdiv prec emax.
Definition neg : number -> number := SFopp.

(** [x === y], [x < y], [x <= y] on numbers *)
Definition eqb : number -> number -> bool := SFeqb.
Definition ltb : number -> number -> bool := SFltb.
Definition leb : number -> number -> bool := SFleb.

(** The number nearest to the integer [n] (exact below 2^53). *)
Definition of_Z (n : Z) : number := binary_normalize prec emax n 0 false.

(** The number nearest to [m * 10^k] when [0 <= k], to [m / 10^(-k)]
    otherwise: the value of a decimal literal with digits [m] and
    exponent [k]. *)
Definition of_decimal (m : Z) (k : Z) : number :=
  match m with
  | Z0 => S754_zero false
  | Zpos p =>
      if 0 <=? k then of_Z (m * 10 ^ k)
      else div (S754_finite false p 0) (S754_finite false (Z.to_pos (10 ^ (- k))) 0)
  | Zneg p =>
      if 0 <=? k then of_Z (m * 10 ^ k)
      else div (S754_finite true p 0) (S754_finite false (Z.to_pos (10 ^ (- k))) 0)
  end.

(** [Math.round] on a finite number [(-1)^s * m * 2^e] with [e < 0]:
    the integer [floor (x + 1/2)], computed exactly. *)
Definition Math_round_int (s : bool) (m : positive) (e : Z) : Z :=
  Z.shiftr (cond_Zopp s (Zpos m) + 2 ^ (- e - 1)) (- e).

(** [Math.round(x)]: NaN, the infinities and integral values are returned
    as they are; a value strictly between 0 and 1/2 gives +0, a value in
    [-1/2, 0) gives -0; otherwise the nearest integer, ties towards
    +Infinity. *)
Definition Math_round (x : number) : number :=
  match x with
  | S754_finite s m e =>
      if 0 <=? e then x
      else
        let n := Math_round_int s m e in
        if n =? 0 then S754_zero s else of_Z n
  | _ => x
  end.

End JsNumber.

Import JsNumber.

Arguments of_Z : simpl never.
Arguments of_decimal : simpl never.
Arguments add : simpl never.
Arguments mul : simpl never.
Arguments div : simpl never.
Arguments eqb : simpl never.
Arguments ltb : simpl never.
Arguments leb : simpl never.
Arguments Math_round : simpl never.

(* ===================================================================== *)
(** * JavaScript strings *)
(* ===================================================================== *)

Module JsString.

Definition code (c : ascii) : Z := Z.of_N (N_of_ascii c).

(** White space and line terminators among the code units below 256:
    TAB, LF, VT, FF, CR, SPACE and NO-BREAK SPACE. *)
Definition is_whitespace (c : ascii) : bool :=
  let n := code c in
  ((9 <=? n) && (n <=? 13)) || (n =? 32) || (n =? 160).

Fixpoint trimStart (s : string) : string :=
  match s with
  | String c s' => if is_whitespace c then trimStart s' else s
  | EmptyString => EmptyString
  end.

Fixpoint trimEnd (s : string) : string :=
  match s with
  | String c s' =>
      match trimEnd s' with
      | EmptyString => if is_whitespace c then EmptyString else String c EmptyString
      | t => String c t
      end
  | EmptyString => EmptyString
  end.

(** [s.trim()] *)
Definition trim (s : string) : string := trimEnd (trimStart s).

(** Truthiness of a string: every string but the empty one. *)
Definition truthy (s : string) : bool :=
  match s with EmptyString => false | _ => true end.

(** Lower case of the letters A .. Z; other characters are kept. *)
Definition lower_char (c : ascii) : ascii :=
  let n := code c in
  if (65 <=? n) && (n <=? 90) then ascii_of_N (Z.to_N (n + 32)) else c.

Fixpoint toLowerCase (s : string) : string :=
  match s with
  | String c s' => String (lower_char c) (toLowerCase s')
  | EmptyString => EmptyString
  end.

(** Value of [c] as a digit in the given radix, if it is one. *)
Definition digit_value (radix : Z) (c : ascii) : option Z :=
  let n := code c in
  let v :=
    if (48 <=? n) && (n <=? 57) then Some (n - 48)
    else if (97 <=? n) && (n <=? 122) then Some (n - 87)
    else if (65 <=? n) && (n <=? 90) then Some (n - 55)
    else None in
  match v with
  | Some d => if d <? radix then Some d else None
  | None => None
  end.

(** The longest prefix of [s] made of digits: its value with what was read
    before ([acc]), how many digits it has, and what follows it. *)
Fixpoint take_digits (radix : Z) (s : string) (acc : Z) (n : nat)
  : Z * nat * string :=
  match s with
  | String c s' =>
      match digit_value radix c with
      | Some d => take_digits radix s' (radix * acc + d) (S n)
      | None => (acc, n, s)
      end
  | EmptyString => (acc, n, s)
  end.

Definition strip_sign (s : string) : bool * string :=
  match s with
  | String "-" r => (true, r)
  | String "+" r => (false, r)
  | _ => (false, s)
  end.

(** [parseInt(str)] with no radix: leading white space is skipped, a sign
    and a [0x] prefix are read, then the longest run of digits; [NaN] when
    there is no digit. *)
Definition parseInt (str : string) : number :=
  let '(sign, s) := strip_sign (trimStart str) in
  let '(radix, s) :=
    match s with
    | String "0" (String "x" r) => (16, r)
    | String "0" (String "X" r) => (16, r)
    | _ => (10, s)
    end in
  match take_digits radix s 0 0 with
  | (_, O, _) => NaN
  | (0, _, _) => S754_zero sign
  | (n, _, _) => of_Z (if sign then - n else n)
  end.

(** The exponent part [e<sign><digits>] of a decimal literal, when [s]
    starts with one. *)
Definition exponent_part (s : string) : Z :=
  match s with
  | String c r =>
      if (c =? "e")%char || (c =? "E")%char then
        let '(neg_exp, r') := strip_sign r in
        match take_digits 10 r' 0 0 with
        | (_, O, _) => 0
        | (v, _, _) => if neg_exp then - v else v
        end
      else 0
  | EmptyString => 0
  end.

(** [parseFloat(str)]: the value of the longest prefix of the trimmed
    string that is a decimal literal ([Infinity], digits with an optional
    fraction and exponent), correctly rounded; [NaN] when there is none. *)
Definition parseFloat (str : string) : number :=
  let '(sign, s) := strip_sign (trimStart str) in
  if prefix "Infinity" s then S754_infinity sign
  else
    let '(int_val, int_len, rest) := take_digits 10 s 0 0 in
    let '(all_val, frac_len, rest') :=
      match rest with
      | String "." r => take_digits 10 r int_val 0
      | _ => (int_val, O, rest)
      end in
    match int_len, frac_len with
    | O, O => NaN
    | _, _ =>
        match all_val with
        | 0 => S754_zero sign
        | _ =>
            of_decimal (if sign then - all_val else all_val)
                       (exponent_part rest' - Z.of_nat frac_len)
        end
    end.

(** Decimal digits of a natural number, as [String(n)] prints it. *)
Definition string_of_nat (n : nat) : string :=
  NilZero.string_of_uint (Nat.to_uint n).

(** [s] padded with zeros on the left up to [width] characters. *)
Fixpoint zeros (n : nat) : string :=
  match n with
  | O => EmptyString
  | S n' => String "0" (zeros n')
  end.

Definition pad_left (width : nat) (s : string) : string :=
  zeros (width - String.length s) ++ s.

Definition digits_of_Z (width : nat) (n : Z) : string :=
  pad_left width (string_of_nat (Z.to_nat n)).

End JsString.

Import JsString.

Arguments parseInt : simpl never.
Arguments parseFloat : simpl never.
Arguments trim : simpl never.

(* ===================================================================== *)
(** * JavaScript dates *)
(* ===================================================================== *)

Module JsDate.

Definition msPerDay : Z := 86400000.
Definition msPerMinute : Z := 60000.

(** Number of days from 1970-01-01 to the day [d] of month [m] (1 .. 12)
    of year [y] in the proleptic Gregorian calendar. *)
Definition days_from_civil (y m d : Z) : Z :=
  let y' := if m <=? 2 then y - 1 else y in
  let era := y' / 400 in
  let yoe := y' - era * 400 in
  let doy := (153 * (if 2 <? m then m - 3 else m + 9) + 2) / 5 + d - 1 in
  let doe := yoe * 365 + yoe / 4 - yoe / 100 + doy in
  era * 146097 + doe - 719468.

(** Year, month (1 .. 12) and day of the month of a day number. *)
Definition civil_from_days (z : Z) : Z * Z * Z :=
  let z' := z + 719468 in
  let era := z' / 146097 in
  let doe := z' - era * 146097 in
  let yoe := (doe - doe / 1460 + doe / 36524 - doe / 146096) / 365 in
  let doy := doe - (365 * yoe + yoe / 4 - yoe / 100) in
  let mp := (5 * doy + 2) / 153 in
  let d := doy - (153 * mp + 2) / 5 + 1 in
  let m := if mp <? 10 then mp + 3 else mp - 9 in
  ((if m <=? 2 then yoe + era * 400 + 1 else yoe + era * 400), m, d).

(** A [Date] object: its time value in milliseconds since the epoch, UTC,
    or [None] for an Invalid Date. *)
Definition Date : Type := option Z.

(** [TimeClip]: time values beyond 8.64e15 ms are invalid. *)
Definition TimeClip (t : Z) : Date :=
  if Z.abs t <=? 8640000000000000 then Some t else None.

Definition all_digits (s : string) : bool :=
  match take_digits 10 s 0 0 with
  | (_, _, EmptyString) => true
  | _ => false
  end.

Definition days_in_month (y m : Z) : Z :=
  days_from_civil (if m =? 12 then y + 1 else y) (if m =? 12 then 1 else m + 1) 1
  - days_from_civil y m 1.

(** [new Date(str)] for the date-only form [YYYY-MM-DD], which is read as
    midnight UTC. The month screen only builds strings of this form; any
    other string is taken to be an Invalid Date. *)
Definition Date_parse (str : string) : Date :=
  if (String.length str =? 10)%nat
     && (substring 4 1 str =? "-")%string && (substring 7 1 str =? "-")%string
     && all_digits (substring 0 4 str) && all_digits (substring 5 2 str)
     && all_digits (substring 8 2 str)
  then
    let y := fst (fst (take_digits 10 (substring 0 4 str) 0 0)) in
    let m := fst (fst (take_digits 10 (substring 5 2 str) 0 0)) in
    let d := fst (fst (take_digits 10 (substring 8 2 str) 0 0)) in
    if (1 <=? m) && (m <=? 12) && (1 <=? d) && (d <=? days_in_month y m)
    then TimeClip (days_from_civil y m d * msPerDay)
    else None
  else None.

Section LocalTime.

(** Offset of local time from UTC in minutes, positive east of Greenwich
    (the browser's time zone, taken as constant). *)
Variable tz : Z.

Definition LocalTime (t : Z) : Z := t + tz * msPerMinute.
Definition UTC (t : Z) : Z := t - tz * msPerMinute.

(** [date.getFullYear()] and [date.getMonth()] (0 .. 11), in local time;
    [None] stands for [NaN]. *)
Definition getFullYear (d : Date) : option Z :=
  match d with
  | Some t => Some (fst (fst (civil_from_days (LocalTime t / msPerDay))))
  | None => None
  end.

Definition getMonth (d : Date) : option Z :=
  match d with
  | Some t => Some (snd (fst (civil_from_days (LocalTime t / msPerDay))) - 1)
  | None => None
  end.

(** [new Date(year, month, day)]: local midnight of the given day, where
    the month (counted from 0) and the day may lie outside their range and
    are carried over, and a year 0 .. 99 stands for 1900 + year. *)
Definition Date_of_fields (year month day : option Z) : Date :=
  match year, month, day with
  | Some y, Some m, Some dt =>
      let yr := if (0 <=? y) && (y <=? 99) then 1900 + y else y in
      let ym := yr + m / 12 in
      let mn := m mod 12 in
      let day_number := days_from_civil ym (mn + 1) 1 + dt - 1 in
      TimeClip (UTC (day_number * msPerDay))
  | _, _, _ => None
  end.

End LocalTime.

(** [date.toISOString()]: [YYYY-MM-DDTHH:mm:ss.sssZ] in UTC, with a signed
    six-digit year outside 0 .. 9999; [None] stands for the [RangeError]
    thrown on an Invalid Date. *)
Definition toISOString (d : Date) : option string :=
  match d with
  | None => None
  | Some t =>
      let '(y, m, dd) := civil_from_days (t / msPerDay) in
      let ms := t mod msPerDay in
      let year :=
        if (0 <=? y) && (y <=? 9999) then digits_of_Z 4 y
        else String (if y <? 0 then "-"%char else "+"%char) (digits_of_Z 6 (Z.abs y)) in
      Some (year ++ "-" ++ digits_of_Z 2 m ++ "-" ++ digits_of_Z 2 dd ++ "T"
            ++ digits_of_Z 2 (ms / 3600000) ++ ":"
            ++ digits_of_Z 2 (ms / 60000 mod 60) ++ ":"
            ++ digits_of_Z 2 (ms / 1000 mod 60) ++ "."
            ++ digits_of_Z 3 (ms mod 1000) ++ "Z")%string
  end.

End JsDate.

Import JsDate.

(* ===================================================================== *)
(** * Records of the two tables and of the reports *)
(* ===================================================================== *)

Inductive Status : Type := active | inactive.

(** A row of [employees]. The store-assigned [created_at] and [updated_at]
    are left out. *)
Module Employee.
Record t : Type := mk {
  emp_id : Z;
  first_name : string;
  last_name : string;
  ssn : string;
  email : string;
  phone : string;
  hire_date : string;
  job_title : string;
  division : string;
  salary : number;
  status : Status
}.

Definition with_salary (v : number) (e : t) : t :=
  mk (emp_id e) (first_name e) (last_name e) (ssn e) (email e) (phone e)
     (hire_date e) (job_title e) (division e) v (status e).
End Employee.

(** A calendar day, the value of a DATE column. *)
Module PgDate.
Record t : Type := mk { year : Z; month : Z; day : Z }.

Definition leb (a b : t) : bool :=
  (year a <? year b)
  || ((year a =? year b)
      && ((month a <? month b)
          || ((month a =? month b) && (day a <=? day b)))).
End PgDate.

(** A row of [pay_statements] ([created_at] left out). *)
Module PayStatement.
Record t : Type := mk {
  id : Z;
  emp_id : Z;
  pay_period_start : PgDate.t;
  pay_period_end : PgDate.t;
  gross_pay : number;
  net_pay : number;
  deductions : number
}.
End PayStatement.

Module PayByJobTitle.
Record t : Type := mk {
  job_title : string;
  total_pay : number;
  employee_count : Z
}.
End PayByJobTitle.

Module PayByDivision.
Record t : Type := mk {
  division : string;
  total_pay : number;
  employee_count : Z
}.
End PayByDivision.

(* ===================================================================== *)
(** * The record store *)
(* ===================================================================== *)

(** The store is an external service reached through a query client; it is
    not part of the sources. Its model has the two tables as lists of rows
    in table order and reads the requests of the screens as the interface
    of the design notes gives them: filters by equality, by comparison, by
    case-insensitive pattern and by a list of alternatives, a selection
    that embeds the employee of a pay statement, and the update of one
    column of the rows with a given key. *)
Module Store.

Record Database : Type := mkDatabase {
  employees : list Employee.t;
  pay_statements : list PayStatement.t
}.

(** ** Pattern matching of [ilike] *)

Inductive token : Type :=
| Any                  (* [%]: any run of characters *)
| One                  (* [_]: any one character *)
| Lit (c : ascii).     (* the character itself *)

(** The request interface reads [*] in a pattern as [%]. *)
Fixpoint star_to_percent (p : string) : string :=
  match p with
  | String c r => String (if (c =? "*")%char then "%"%char else c) (star_to_percent r)
  | EmptyString => EmptyString
  end.

(** A backslash makes the next character literal; a pattern may not end
    with a lone backslash. *)
Fixpoint tokens (p : string) : option (list token) :=
  match p with
  | EmptyString => Some []
  | String "\" EmptyString => None
  | String "\" (String c r) => option_map (cons (Lit c)) (tokens r)
  | String "%" r => option_map (cons Any) (tokens r)
  | String "_" r => option_map (cons One) (tokens r)
  | String c r => option_map (cons (Lit c)) (tokens r)
  end.

Fixpoint like (ts : list token) (s : string) : bool :=
  match ts with
  | [] => match s with EmptyString => true | _ => false end
  | Any :: ts' =>
      (fix skip (s : string) : bool :=
         like ts' s
         || match s with
            | String _ s' => skip s'
            | EmptyString => false
            end) s
  | One :: ts' =>
      match s with
      | String _ s' => like ts' s'
      | EmptyString => false
      end
  | Lit c :: ts' =>
      match s with
      | String d s' => (c =? d)%char && like ts' s'
      | EmptyString => false
      end
  end.

Definition lower_token (t : token) : token :=
  match t with
  | Lit c => Lit (lower_char c)
  | _ => t
  end.

(** [value ILIKE pattern]; [None] when the pattern is not well formed. *)
Definition ilike (pattern value : string) : option bool :=
  match tokens (star_to_percent pattern) with
  | Some ts => Some (like (map lower_token ts) (toLowerCase value))
  | None => None
  end.

(** ** Filters on [employees] *)

Inductive EmployeeFilter : Type :=
| gte_salary (v : number)      (* .gte('salary', v) *)
| lt_salary (v : number)       (* .lt('salary', v) *)
| eq_ssn (v : string)          (* .eq('ssn', v) *)
| eq_emp_id (v : number)       (* .eq('emp_id', v) *)
| or_ (conditions : string).   (* .or(conditions) *)

(** The text columns a condition of [or_] may name. *)
Definition text_column (name : string) : option (Employee.t -> string) :=
  if (name =? "first_name")%string then Some Employee.first_name
  else if (name =? "last_name")%string then Some Employee.last_name
  else if (name =? "ssn")%string then Some Employee.ssn
  else if (name =? "email")%string then Some Employee.email
  else if (name =? "phone")%string then Some Employee.phone
  else if (name =? "job_title")%string then Some Employee.job_title
  else if (name =? "division")%string then Some Employee.division
  else None.

(** [s] cut at the first [sep]: what is before it and what is after it. *)
Fixpoint break_at (sep : ascii) (s : string) : option (string * string) :=
  match s with
  | EmptyString => None
  | String c r =>
      if (c =? sep)%char then Some (EmptyString, r)
      else match break_at sep r with
           | Some (a, b) => Some (String c a, b)
           | None => None
           end
  end.

(** The pieces of [s] between the occurrences of [sep]. *)
Fixpoint split_on (sep : ascii) (s : string) : list string :=
  match s with
  | EmptyString => [EmptyString]
  | String c r =>
      if (c =? sep)%char then EmptyString :: split_on sep r
      else match split_on sep r with
           | piece :: pieces => String c piece :: pieces
           | [] => [String c EmptyString]
           end
  end.

Fixpoint mentions (c : ascii) (s : string) : bool :=
  match s with
  | String d r => (c =? d)%char || mentions c r
  | EmptyString => false
  end.

(** One condition [column.operator.value] of an [or_] list. Of the
    operators only [ilike], the one the search screen uses, is modelled; a
    closing parenthesis ends the list and may not occur in a value. *)
Definition condition (s : string) : option (Employee.t -> option bool) :=
  match break_at "." s with
  | Some (column, rest) =>
      match break_at "." rest with
      | Some (operator, value) =>
          match text_column column with
          | Some get =>
              if (operator =? "ilike")%string && negb (mentions ")" value)
              then Some (fun e => ilike value (get e))
              else None
          | None => None
          end
      | None => None
      end
  | None => None
  end.

(** All the conditions of a comma-separated list, if each is well formed. *)
Fixpoint conditions (pieces : list string)
  : option (list (Employee.t -> option bool)) :=
  match pieces with
  | [] => Some []
  | p :: ps =>
      match condition p, conditions ps with
      | Some c, Some cs => Some (c :: cs)
      | _, _ => None
      end
  end.

(** Disjunction of the conditions on a row; [None] when one of them cannot
    be evaluated. *)
Fixpoint any_condition (cs : list (Employee.t -> option bool)) (e : Employee.t)
  : option bool :=
  match cs with
  | [] => Some false
  | c :: cs' =>
      match c e, any_condition cs' e with
      | Some b, Some b' => Some (b || b')
      | _, _ => None
      end
  end.

(** Modelled from the spec: how the store, which is not part of the
    sources, compares the numeric identifier of a row with the value of an
    equality filter. The design notes say that a value that is not a
    number is passed through and that the store then fails to match: the
    identifier is compared with the value as a number, and equals no value
    that is not one. *)
Definition id_equals (key : Z) (v : number) : bool := eqb (of_Z key) v.

(** What a filter asks of a row; [None] when the request is rejected as
    ill formed. *)
Definition compile (f : EmployeeFilter) : option (Employee.t -> option bool) :=
  match f with
  | gte_salary v => Some (fun e => Some (leb v (Employee.salary e)))
  | lt_salary v => Some (fun e => Some (ltb (Employee.salary e) v))
  | eq_ssn v => Some (fun e => Some (Employee.ssn e =? v)%string)
  | eq_emp_id v => Some (fun e => Some (id_equals (Employee.emp_id e) v))
  | or_ s => option_map any_condition (conditions (split_on "," s))
  end.

Fixpoint compile_all (fs : list EmployeeFilter)
  : option (list (Employee.t -> option bool)) :=
  match fs with
  | [] => Some []
  | f :: fs' =>
      match compile f, compile_all fs' with
      | Some c, Some cs => Some (c :: cs)
      | _, _ => None
      end
  end.

(** Conjunction of the filters on a row. *)
Fixpoint every_condition (cs : list (Employee.t -> option bool)) (e : Employee.t)
  : option bool :=
  match cs with
  | [] => Some true
  | c :: cs' =>
      match c e, every_condition cs' e with
      | Some b, Some b' => Some (b && b')
      | _, _ => None
      end
  end.

(** The rows that pass, in table order; [None] when the test fails on some
    row. *)
Fixpoint filter_rows {A : Type} (test : A -> option bool) (rows : list A)
  : option (list A) :=
  match rows with
  | [] => Some []
  | r :: rows' =>
      match test r, filter_rows test rows' with
      | Some b, Some rest => Some (if b then r :: rest else rest)
      | _, _ => None
      end
  end.

(** [from('employees').select(...)] with the given filters. *)
Definition select_employees (fs : list EmployeeFilter) (d : Database)
  : option (list Employee.t) :=
  match compile_all fs with
  | Some cs => filter_rows (every_condition cs) (employees d)
  | None => None
  end.

(** [from('employees').update({ salary: v }).eq('emp_id', key)] *)
Definition update_salary (v : number) (key : Z) (d : Database) : Database :=
  mkDatabase
    (map (fun e => if Employee.emp_id e =? key then Employee.with_salary v e else e)
         (employees d))
    (pay_statements d).

(** ** Filters on [pay_statements] *)

Inductive PayStatementFilter : Type :=
| gte_pay_period_start (v : string)   (* .gte('pay_period_start', v) *)
| lte_pay_period_end (v : string).    (* .lte('pay_period_end', v) *)

(** A text read as a DATE: its first ten characters [YYYY-MM-DD]; a time
    of day that follows is dropped. *)
Definition date_of_text (s : string) : option PgDate.t :=
  let ymd := substring 0 10 s in
  match Date_parse ymd with
  | Some _ =>
      Some (PgDate.mk (fst (fst (take_digits 10 (substring 0 4 ymd) 0 0)))
                      (fst (fst (take_digits 10 (substring 5 2 ymd) 0 0)))
                      (fst (fst (take_digits 10 (substring 8 2 ymd) 0 0))))
  | None => None
  end.

Definition compile_pay (f : PayStatementFilter) : option (PayStatement.t -> bool) :=
  match f with
  | gte_pay_period_start v =>
      option_map (fun d p => PgDate.leb d (PayStatement.pay_period_start p))
                 (date_of_text v)
  | lte_pay_period_end v =>
      option_map (fun d p => PgDate.leb (PayStatement.pay_period_end p) d)
                 (date_of_text v)
  end.

Fixpoint compile_pay_all (fs : list PayStatementFilter)
  : option (PayStatement.t -> bool) :=
  match fs with
  | [] => Some (fun _ => true)
  | f :: fs' =>
      match compile_pay f, compile_pay_all fs' with
      | Some c, Some cs => Some (fun p => c p && cs p)
      | _, _ => None
      end
  end.

(** A pay statement with the row of its employee embedded, as
    [select('gross_pay, employees!inner(...)')] returns it. *)
Module PayRow.
Record t : Type := mk { gross_pay : number; employees : Employee.t }.
End PayRow.

Definition employee_by_id (d : Database) (key : Z) : option Employee.t :=
  find (fun e => Employee.emp_id e =? key) (employees d).

Definition owner (d : Database) (p : PayStatement.t) : option Employee.t :=
  employee_by_id d (PayStatement.emp_id p).

(** Inner join: a statement whose employee is missing yields no row. *)
Fixpoint join (d : Database) (ps : list PayStatement.t) : list PayRow.t :=
  match ps with
  | [] => []
  | p :: ps' =>
      match owner d p with
      | Some e => PayRow.mk (PayStatement.gross_pay p) e :: join d ps'
      | None => join d ps'
      end
  end.

Definition select_pay (fs : list PayStatementFilter) (d : Database)
  : option (list PayRow.t) :=
  match compile_pay_all fs with
  | Some test => Some (join d (filter test (pay_statements d)))
  | None => None
  end.

(** ** Selections in order *)

(** [order(column)]: the rows sorted by [before]; rows that [before] does
    not tell apart stay in table order. *)
Fixpoint insert_by {A : Type} (before : A -> A -> bool) (x : A) (l : list A) : list A :=
  match l with
  | [] => [x]
  | y :: l' => if before x y then x :: l else y :: insert_by before x l'
  end.

Fixpoint order_by {A : Type} (before : A -> A -> bool) (rows : list A) : list A :=
  match rows with
  | [] => []
  | x :: rows' => insert_by before x (order_by before rows')
  end.

(** [from('employees').select('*').order('emp_id')] *)
Definition employees_by_id (d : Database) : list Employee.t :=
  order_by (fun a b => Employee.emp_id a <=? Employee.emp_id b) (employees d).

(** [from('pay_statements').select('*')
      .order('pay_period_start', { ascending: false })] *)
Definition pay_statements_latest_first (d : Database) : list PayStatement.t :=
  order_by (fun a b => PgDate.leb (PayStatement.pay_period_start b)
                                  (PayStatement.pay_period_start a))
           (pay_statements d).

End Store.

(* ===================================================================== *)
(** * Handlers: screen state, world, exceptions *)
(* ===================================================================== *)

Module Handler.

Inductive exn : Type :=
| StoreError (message : string)   (* the [error] of a store response *)
| RangeError (message : string).

(** What surrounds a screen: the store, whether each of the store calls
    still to come fails (none does once the list is used up), the lines
    written by [console.error], and the offset of local time from UTC in
    minutes. *)
Record World : Type := mkWorld {
  db : Store.Database;
  faults : list bool;
  console : list (string * exn);
  tz : Z
}.

Record Sys (U : Type) : Type := mkSys { ui : U; world : World }.
Arguments mkSys {U} _ _.
Arguments ui {U} _.
Arguments world {U} _.

Inductive completion (A : Type) : Type :=
| Normal (a : A)
| Throw (e : exn).
Arguments Normal {A} _.
Arguments Throw {A} _.

Definition M (U A : Type) : Type := Sys U -> Sys U * completion A.

Definition ret {U A} (a : A) : M U A := fun s => (s, Normal a).

Definition bind {U A B} (c : M U A) (k : A -> M U B) : M U B :=
  fun s =>
    match c s with
    | (s', Normal a) => k a s'
    | (s', Throw e) => (s', Throw e)
    end.

Definition throw {U A} (e : exn) : M U A := fun s => (s, Throw e).

(** [try { body } catch (error) { handler } finally { final }] *)
Definition try_catch_finally {U A}
  (body : M U A) (handler : exn -> M U A) (final : M U unit) : M U A :=
  fun s =>
    let '(s2, r2) :=
      match body s with
      | (s1, Normal a) => (s1, Normal a)
      | (s1, Throw e) => handler e s1
      end in
    match final s2 with
    | (s3, Normal _) => (s3, r2)
    | (s3, Throw e) => (s3, Throw e)
    end.

Definition getState {U} : M U U := fun s => (s, Normal (ui s)).

Definition setState {U} (f : U -> U) : M U unit :=
  fun s => (mkSys (f (ui s)) (world s), Normal tt).

(** [console.error(label, error)] *)
Definition console_error {U} (label : string) (e : exn) : M U unit :=
  fun s =>
    let w := world s in
    (mkSys (ui s) (mkWorld (db w) (faults w) (console w ++ [(label, e)])%list (tz w)),
     Normal tt).

Definition timezone {U} : M U Z := fun s => (s, Normal (tz (world s))).

(** The [{ data, error }] of a store response. *)
Record Response (A : Type) : Type := mkResponse {
  data : option A;
  error : option exn
}.
Arguments mkResponse {A} _ _.
Arguments data {A} _.
Arguments error {A} _.

(** One awaited call of the store client. The call fails when the world
    says so or when the store rejects the request; otherwise it answers
    and the store is left as the request leaves it. *)
Definition request {U A} (run : Store.Database -> option (Store.Database * A))
  : M U (Response A) :=
  fun s =>
    let w := world s in
    let failing := match faults w with b :: _ => b | [] => false end in
    let later := tl (faults w) in
    if failing then
      (mkSys (ui s) (mkWorld (db w) later (console w) (tz w)),
       Normal (mkResponse None (Some (StoreError "request failed"))))
    else
      match run (db w) with
      | Some (d, a) =>
          (mkSys (ui s) (mkWorld d later (console w) (tz w)),
           Normal (mkResponse (Some a) None))
      | None =>
          (mkSys (ui s) (mkWorld (db w) later (console w) (tz w)),
           Normal (mkResponse None (Some (StoreError "request rejected"))))
      end.

Definition select_employees {U} (fs : list Store.EmployeeFilter)
  : M U (Response (list Employee.t)) :=
  request (fun d => option_map (pair d) (Store.select_employees fs d)).

Definition update_salary {U} (v : number) (key : Z) : M U (Response unit) :=
  request (fun d => Some (Store.update_salary v key d, tt)).

Definition select_pay {U} (fs : list Store.PayStatementFilter)
  : M U (Response (list Store.PayRow.t)) :=
  request (fun d => option_map (pair d) (Store.select_pay fs d)).

Definition employees_by_id {U} : M U (Response (list Employee.t)) :=
  request (fun d => Some (d, Store.employees_by_id d)).

Definition pay_statements_latest_first {U} : M U (Response (list PayStatement.t)) :=
  request (fun d => Some (d, Store.pay_statements_latest_first d)).

(** [if (error) throw error] *)
Definition throw_if {U} (e : option exn) : M U unit :=
  match e with
  | Some err => throw err
  | None => ret tt
  end.

(** [for (const x of xs) { body }] *)
Fixpoint for_of {U A} (xs : list A) (body : A -> M U unit) : M U unit :=
  match xs with
  | [] => ret tt
  | x :: xs' => bind (body x) (fun _ => for_of xs' body)
  end.

End Handler.

Import Handler.

Declare Scope handler_scope.
Delimit Scope handler_scope with handler.
Notation "x <- c ;; k" := (bind c (fun x => k))
  (at level 61, c at next level, right associativity) : handler_scope.
Notation "c ;; k" := (bind c (fun _ => k))
  (at level 61, right associativity) : handler_scope.

(* ===================================================================== *)
(** * Salary adjustments screen *)
(* ===================================================================== *)

Module SalaryAdjustments.

Record Result : Type := mkResult { affected : nat; message : string }.

Record State : Type := mkState {
  percentage : string;
  minSalary : string;
  maxSalary : string;
  loading : bool;
  result : option Result
}.

Definition initial : State := mkState "" "" "" false None.

Definition setPercentage (v : string) : M State unit :=
  setState (fun s => mkState v (minSalary s) (maxSalary s) (loading s) (result s)).
Definition setMinSalary (v : string) : M State unit :=
  setState (fun s => mkState (percentage s) v (maxSalary s) (loading s) (result s)).
Definition setMaxSalary (v : string) : M State unit :=
  setState (fun s => mkState (percentage s) (minSalary s) v (loading s) (result s)).
Definition setLoading (v : bool) : M State unit :=
  setState (fun s => mkState (percentage s) (minSalary s) (maxSalary s) v (result s)).
Definition setResult (v : option Result) : M State unit :=
  setState (fun s => mkState (percentage s) (minSalary s) (maxSalary s) (loading s) v).

Record Update : Type := mkUpdate { emp_id : Z; salary : number }.

(** The new salary of a row: [Math.round(emp.salary * (1 + percentageIncrease))] *)
Definition new_salary (percentageIncrease : number) (emp : Employee.t) : number :=
  Math_round (mul (Employee.salary emp) (add (of_Z 1) percentageIncrease)).

Definition no_employees_message : string :=
  "No employees found in the specified salary range.".

Definition error_message : string :=
  "Error updating salaries. Please try again.".

Definition success_message (count : nat) (percentage : string) : string :=
  "Successfully updated " ++ string_of_nat count ++ " employee(s) with a "
  ++ percentage ++ "% salary increase.".

Local Open Scope handler_scope.

(** [handleSubmit]; the form fields are those of the render in which the
    form was submitted. *)
Definition handleSubmit : M State unit :=
  form <- getState ;;
  setLoading true ;;
  setResult None ;;
  try_catch_finally
    (let percentageIncrease := div (parseFloat (percentage form)) (of_Z 100) in
     let minSal := parseFloat (minSalary form) in
     let maxSal := parseFloat (maxSalary form) in
     (* First, get employees in the salary range *)
     fetched <- select_employees [Store.gte_salary minSal; Store.lt_salary maxSal] ;;
     throw_if (error fetched) ;;
     match data fetched with
     | None | Some [] =>
         setResult (Some (mkResult 0 no_employees_message))
     | Some employees =>
         (* Update each employee's salary *)
         let updates :=
           map (fun emp => mkUpdate (Employee.emp_id emp)
                                    (new_salary percentageIncrease emp))
               employees in
         for_of updates (fun update =>
           answer <- update_salary (salary update) (emp_id update) ;;
           throw_if (error answer)) ;;
         setResult (Some (mkResult (List.length employees)
                            (success_message (List.length employees)
                                             (percentage form)))) ;;
         (* Reset form *)
         setPercentage "" ;;
         setMinSalary "" ;;
         setMaxSalary ""
     end)
    (fun error =>
       console_error "Error updating salaries:" error ;;
       setResult (Some (mkResult 0 error_message)))
    (setLoading false).

End SalaryAdjustments.

(* ===================================================================== *)
(** * Employee search screen *)
(* ===================================================================== *)

Module EmployeeSearch.

Record State : Type := mkState {
  searchTerm : string;
  searchType : string;
  results : list Employee.t;
  loading : bool
}.

Definition initial : State := mkState "" "name" [] false.

Definition setResults (v : list Employee.t) : M State unit :=
  setState (fun s => mkState (searchTerm s) (searchType s) v (loading s)).
Definition setLoading (v : bool) : M State unit :=
  setState (fun s => mkState (searchTerm s) (searchType s) (results s) v).

(** The filters the [switch] on the search type adds to the query. *)
Definition query (searchType searchTerm : string) : list Store.EmployeeFilter :=
  if (searchType =? "name")%string then
    [Store.or_ ("first_name.ilike.%" ++ searchTerm ++ "%,last_name.ilike.%"
                ++ searchTerm ++ "%")]
  else if (searchType =? "ssn")%string then
    [Store.eq_ssn searchTerm]
  else if (searchType =? "empid")%string then
    [Store.eq_emp_id (parseInt searchTerm)]
  else [].

Local Open Scope handler_scope.

Definition handleSearch : M State unit :=
  form <- getState ;;
  if negb (truthy (trim (searchTerm form))) then ret tt
  else
    setLoading true ;;
    try_catch_finally
      (answer <- select_employees (query (searchType form) (searchTerm form)) ;;
       throw_if (error answer) ;;
       setResults (match data answer with Some rows => rows | None => [] end))
      (fun error => console_error "Error searching employees:" error)
      (setLoading false).

End EmployeeSearch.

Arguments EmployeeSearch.query : simpl never.

(* ===================================================================== *)
(** * Reports screen *)
(* ===================================================================== *)

Module Reports.

(** ** The accumulator of the reduction: a plain JavaScript object *)

(** A group [{ total, count }]; the count is a whole number, which a
    double holds exactly far beyond the size of any row set. *)
Record Group : Type := mkGroup { total : number; count : Z }.

(** The own properties of the object, in the order of their creation. *)
Definition JsObject : Type := list (string * Group).

(** The property names every object inherits from [Object.prototype]; each
    of them reads as a function or an object, hence as a truthy value. *)
Definition Object_prototype_keys : list string :=
  [ "constructor"; "__defineGetter__"; "__defineSetter__"; "hasOwnProperty";
    "__lookupGetter__"; "__lookupSetter__"; "isPrototypeOf";
    "propertyIsEnumerable"; "toString"; "valueOf"; "__proto__";
    "toLocaleString" ].

Definition inherited (key : string) : bool :=
  existsb (String.eqb key) Object_prototype_keys.

Fixpoint own (acc : JsObject) (key : string) : option Group :=
  match acc with
  | [] => None
  | (k, g) :: acc' => if (k =? key)%string then Some g else own acc' key
  end.

(** [!acc[key]]: no own property and nothing inherited under that name. *)
Definition absent (acc : JsObject) (key : string) : bool :=
  match own acc key with
  | Some _ => false
  | None => negb (inherited key)
  end.

(** [acc[key].total += gross; acc[key].count += 1]. When [acc[key]] is
    inherited, the additions land on the inherited value and [acc] gets no
    property. *)
Fixpoint accumulate (acc : JsObject) (key : string) (gross : number) : JsObject :=
  match acc with
  | [] => []
  | (k, g) :: acc' =>
      if (k =? key)%string
      then (k, mkGroup (add (total g) gross) (count g + 1)) :: acc'
      else (k, g) :: accumulate acc' key gross
  end.

(** The callback of [reduce] for a row with grouping key [key]. *)
Definition reducer (acc : JsObject) (key : string) (gross : number) : JsObject :=
  let acc' :=
    if absent acc key then (acc ++ [(key, mkGroup (of_Z 0) 0)])%list else acc in
  accumulate acc' key gross.

(** [(data || []).reduce(..., {})] with the grouping key read by [key]. *)
Definition grouped (key : Employee.t -> string) (rows : list Store.PayRow.t)
  : JsObject :=
  fold_left
    (fun acc item =>
       reducer acc (key (Store.PayRow.employees item)) (Store.PayRow.gross_pay item))
    rows [].

(** A property name that is an array index: the canonical decimal form of
    an integer from 0 to 2^32 - 2. *)
Definition array_index (k : string) : option Z :=
  match k with
  | EmptyString => None
  | String "0" EmptyString => Some 0
  | String "0" _ => None
  | _ =>
      if all_digits k then
        let v := fst (fst (take_digits 10 k 0 0)) in
        if v <=? 4294967294 then Some v else None
      else None
  end.

Fixpoint insert_index (i : Z) (p : string * Group) (l : list (Z * (string * Group)))
  : list (Z * (string * Group)) :=
  match l with
  | [] => [(i, p)]
  | (j, q) :: l' => if i <=? j then (i, p) :: l else (j, q) :: insert_index i p l'
  end.

(** [acc] split into its array-index properties, sorted by index, and the
    others, in creation order. *)
Fixpoint ordered (acc : JsObject)
  : list (Z * (string * Group)) * list (string * Group) :=
  match acc with
  | [] => ([], [])
  | p :: acc' =>
      let '(indexed, named) := ordered acc' in
      match array_index (fst p) with
      | Some i => (insert_index i p indexed, named)
      | None => (indexed, p :: named)
      end
  end.

(** [Object.entries(acc)]: array-index names first, in ascending order,
    then the other names in creation order. *)
Definition Object_entries (acc : JsObject) : list (string * Group) :=
  let '(indexed, named) := ordered acc in
  (map snd indexed ++ named)%list.

Definition job_title_report (rows : list Store.PayRow.t) : list PayByJobTitle.t :=
  map (fun '(title, g) => PayByJobTitle.mk title (total g) (count g))
      (Object_entries (grouped Employee.job_title rows)).

Definition division_report (rows : list Store.PayRow.t) : list PayByDivision.t :=
  map (fun '(division, g) => PayByDivision.mk division (total g) (count g))
      (Object_entries (grouped Employee.division rows)).

(** The average shown in a row of the table:
    [Math.round(item.total_pay / item.employee_count)] *)
Definition average_pay (total_pay : number) (employee_count : Z) : number :=
  Math_round (div total_pay (of_Z employee_count)).

(** ** The screen *)

Record State : Type := mkState {
  activeReport : string;
  employees : list Employee.t;
  payStatements : list PayStatement.t;
  payByJobTitle : list PayByJobTitle.t;
  payByDivision : list PayByDivision.t;
  selectedMonth : string;
  loading : bool
}.

Definition setPayByJobTitle (v : list PayByJobTitle.t) : M State unit :=
  setState (fun s => mkState (activeReport s) (employees s) (payStatements s) v
                             (payByDivision s) (selectedMonth s) (loading s)).
Definition setPayByDivision (v : list PayByDivision.t) : M State unit :=
  setState (fun s => mkState (activeReport s) (employees s) (payStatements s)
                             (payByJobTitle s) v (selectedMonth s) (loading s)).
Definition setLoading (v : bool) : M State unit :=
  setState (fun s => mkState (activeReport s) (employees s) (payStatements s)
                             (payByJobTitle s) (payByDivision s) (selectedMonth s) v).

(** [date.toISOString()] in a handler: throws on an Invalid Date. *)
Definition ISOString (d : Date) : M State string :=
  match toISOString d with
  | Some s => ret s
  | None => throw (RangeError "Invalid time value")
  end.

(** [startDate] and [endDate] of a fetch, in a browser [zone] minutes east
    of UTC. *)
Definition startDate (selectedMonth : string) : Date :=
  Date_parse (selectedMonth ++ "-01").

Definition endDate (zone : Z) (selectedMonth : string) : Date :=
  let start := startDate selectedMonth in
  Date_of_fields zone (getFullYear zone start)
                 (option_map (fun m => m + 1) (getMonth zone start)) (Some 0).

Local Open Scope handler_scope.

Definition fetchPayByJobTitle : M State unit :=
  view <- getState ;;
  setLoading true ;;
  try_catch_finally
    (zone <- timezone ;;
     from <- ISOString (startDate (selectedMonth view)) ;;
     to <- ISOString (endDate zone (selectedMonth view)) ;;
     answer <- select_pay [Store.gte_pay_period_start from;
                           Store.lte_pay_period_end to] ;;
     throw_if (error answer) ;;
     setPayByJobTitle
       (job_title_report (match data answer with Some rows => rows | None => [] end)))
    (fun error => console_error "Error fetching pay by job title:" error)
    (setLoading false).

Definition fetchPayByDivision : M State unit :=
  view <- getState ;;
  setLoading true ;;
  try_catch_finally
    (zone <- timezone ;;
     from <- ISOString (startDate (selectedMonth view)) ;;
     to <- ISOString (endDate zone (selectedMonth view)) ;;
     answer <- select_pay [Store.gte_pay_period_start from;
                           Store.lte_pay_period_end to] ;;
     throw_if (error answer) ;;
     setPayByDivision
       (division_report (match data answer with Some rows => rows | None => [] end)))
    (fun error => console_error "Error fetching pay by division:" error)
    (setLoading false).

Definition setEmployees (v : list Employee.t) : M State unit :=
  setState (fun s => mkState (activeReport s) v (payStatements s) (payByJobTitle s)
                             (payByDivision s) (selectedMonth s) (loading s)).
Definition setPayStatements (v : list PayStatement.t) : M State unit :=
  setState (fun s => mkState (activeReport s) (employees s) v (payByJobTitle s)
                             (payByDivision s) (selectedMonth s) (loading s)).

Definition fetchEmployeesWithPay : M State unit :=
  setLoading true ;;
  try_catch_finally
    (emp <- employees_by_id ;;
     pay <- pay_statements_latest_first ;;
     throw_if (error emp) ;;
     throw_if (error pay) ;;
     setEmployees (match data emp with Some rows => rows | None => [] end) ;;
     setPayStatements (match data pay with Some rows => rows | None => [] end))
    (fun error => console_error "Error fetching employee pay data:" error)
    (setLoading false).

(** The effect that runs when the active report or the month changes. *)
Definition effect : M State unit :=
  view <- getState ;;
  if (activeReport view =? "employee-pay")%string then fetchEmployeesWithPay
  else if (activeReport view =? "pay-by-title")%string then fetchPayByJobTitle
  else if (activeReport view =? "pay-by-division")%string then fetchPayByDivision
  else ret tt.

(** The pay statements of the card of an employee, and the rows of the
    table of the card: [employeePay.slice(0, 5)]. *)
Definition employeePay (view : State) (employee : Employee.t) : list PayStatement.t :=
  filter (fun pay => PayStatement.emp_id pay =? Employee.emp_id employee)
         (payStatements view).

Definition pay_rows (view : State) (employee : Employee.t) : list PayStatement.t :=
  firstn 5 (employeePay view employee).

End Reports.

(* ===================================================================== *)
(** * The sample data of the schema migration *)
(* ===================================================================== *)

Module Sample.

Definition employee (id : Z) (first last ssn email phone hired title division : string)
  (salary : Z) : Employee.t :=
  Employee.mk id first last ssn email phone hired title division (of_Z salary) active.

Definition employees : list Employee.t :=
  [ employee 1 "John" "Smith" "123456789" "john.smith@company2.com" "555-0101"
      "2022-01-15" "Software Engineer" "Engineering" 75000;
    employee 2 "Sarah" "Johnson" "234567890" "sarah.johnson@company2.com" "555-0102"
      "2021-06-20" "Marketing Manager" "Marketing" 68000;
    employee 3 "Michael" "Brown" "345678901" "michael.brown@company2.com" "555-0103"
      "2023-03-10" "Sales Representative" "Sales" 52000;
    employee 4 "Emily" "Davis" "456789012" "emily.davis@company2.com" "555-0104"
      "2020-08-05" "HR Director" "Human Resources" 85000;
    employee 5 "David" "Wilson" "567890123" "david.wilson@company2.com" "555-0105"
      "2022-11-30" "Accountant" "Finance" 62000;
    employee 6 "Lisa" "Miller" "678901234" "lisa.miller@company2.com" "555-0106"
      "2021-04-12" "Project Manager" "Engineering" 78000;
    employee 7 "James" "Garcia" "789012345" "james.garcia@company2.com" "555-0107"
      "2023-01-08" "Customer Support" "Operations" 45000;
    employee 8 "Jennifer" "Martinez" "890123456" "jennifer.martinez@company2.com"
      "555-0108" "2020-12-01" "Senior Developer" "Engineering" 95000 ].

(** The two half-month statements of January 2024 of an employee; the
    amounts are given in cents. *)
Definition january (first_id emp : Z) (gross deductions net : Z) : list PayStatement.t :=
  [ PayStatement.mk first_id emp (PgDate.mk 2024 1 1) (PgDate.mk 2024 1 15)
      (of_decimal gross (-2)) (of_decimal net (-2)) (of_decimal deductions (-2));
    PayStatement.mk (first_id + 1) emp (PgDate.mk 2024 1 16) (PgDate.mk 2024 1 31)
      (of_decimal gross (-2)) (of_decimal net (-2)) (of_decimal deductions (-2)) ].

Definition pay_statements : list PayStatement.t :=
  (january 1 1 288462 57692 230770 ++ january 3 2 261538 52308 209230
   ++ january 5 3 200000 40000 160000 ++ january 7 4 326923 65385 261538
   ++ january 9 5 238462 47692 190770 ++ january 11 6 300000 60000 240000
   ++ january 13 7 173077 34615 138462 ++ january 15 8 365385 73077 292308)%list.

Definition database : Store.Database :=
  Store.mkDatabase employees pay_statements.

Definition world (zone : Z) : World := mkWorld database [] [] zone.

(** All the pay statements, each with its employee. *)
Definition rows : list Store.PayRow.t := Store.join database pay_statements.

(** A fetched row with the gross pay [cents / 100] for an employee with
    the given job title. *)
Definition row (title : string) (cents : Z) : Store.PayRow.t :=
  Store.PayRow.mk (of_decimal cents (-2))
    (employee 9 "Bob" "Stone" "901234567" "bob.stone@company2.com" "555-0109"
       "2024-02-01" title "Operations" 40000).

End Sample.

(* ===================================================================== *)
(** * Vocabulary of the properties *)
(* ===================================================================== *)

Module Spec.

(** [lo <= salary < hi] *)
Definition in_range (lo hi : number) (e : Employee.t) : bool :=
  leb lo (Employee.salary e) && ltb (Employee.salary e) hi.

(** No store call still to come fails. *)
Definition reliable (w : World) : Prop :=
  Forall (fun b => b = false) (faults w).

(** The next store call is not made to fail by the world. *)
Definition next_call_served (w : World) : Prop :=
  hd false (faults w) = false.

(** The integer [n] is a nearest integer of the finite number
    [(-1)^s * m * 2^e] with [e < 0]: [n - 1/2 <= x < n + 1/2]. *)
Definition nearest_integer (s : bool) (m : positive) (e : Z) (n : Z) : Prop :=
  (2 * n - 1) * 2 ^ (- e) <= 2 * cond_Zopp s (Zpos m) < (2 * n + 1) * 2 ^ (- e).

(** The term is empty or made of white space only. *)
Fixpoint blank (s : string) : bool :=
  match s with
  | String c s' => is_whitespace c && blank s'
  | EmptyString => true
  end.

(** [needle] occurs in [hay] as a substring. *)
Fixpoint contains (needle hay : string) : bool :=
  prefix needle hay
  || match hay with
     | String _ hay' => contains needle hay'
     | EmptyString => false
     end.

(** The first or the last name contains the term, letter case aside. *)
Definition name_matches (term : string) (e : Employee.t) : bool :=
  contains (toLowerCase term) (toLowerCase (Employee.first_name e))
  || contains (toLowerCase term) (toLowerCase (Employee.last_name e)).

(** The characters to which the filter syntax gives a meaning: the
    wildcards and the escape of patterns, and the delimiters of a list of
    conditions. *)
Definition special (c : ascii) : bool :=
  (c =? "%")%char || (c =? "_")%char || (c =? "*")%char || (c =? "\")%char
  || (c =? ",")%char || (c =? ")")%char.

Fixpoint plain (s : string) : bool :=
  match s with
  | String c s' => negb (special c) && plain s'
  | EmptyString => true
  end.

(** Sum of numbers from 0, left to right, as a loop adds them up. *)
Definition sum (l : list number) : number := fold_left add l (of_Z 0).

(** The value of a finite number as a multiple of 2^-1074 (0 for the
    others), for sums without rounding. *)
Definition scaled (x : number) : Z :=
  match x with
  | S754_finite s m e => cond_Zopp s (Zpos m) * 2 ^ (e + 1074)
  | _ => 0
  end.

Definition exact_sum (l : list number) : Z :=
  fold_left Z.add (map scaled l) 0.

(** The rewriting of a row by the update made for the selected row [s],
    and the sequence of such updates. *)
Definition adjust_one (f : Employee.t -> number) (s e : Employee.t) : Employee.t :=
  if Employee.emp_id e =? Employee.emp_id s then Employee.with_salary (f s) e else e.

Definition apply_updates (f : Employee.t -> number) (sel rows : list Employee.t)
  : list Employee.t :=
  fold_left (fun rs s => map (adjust_one f s) rs) sel rows.

(** Sum of the counts of the groups of a report. *)
Definition count_sum (l : list Z) : Z := fold_right Z.add 0 l.

(** The rows of a fetch with a given grouping key. *)
Definition rows_of (key : Employee.t -> string) (k : string)
  (rows : list Store.PayRow.t) : list Store.PayRow.t :=
  filter (fun r => (key (Store.PayRow.employees r) =? k)%string) rows.

(** The rows that the reduction records: those whose grouping key is not
    a property name that objects inherit. *)
Definition recorded (key : Employee.t -> string) (rows : list Store.PayRow.t)
  : list Store.PayRow.t :=
  filter (fun r => negb (Reports.inherited (key (Store.PayRow.employees r)))) rows.

(** What the accumulator holds after the rows [rows]: distinct names, none
    of them inherited, and under each name the sum and the number of the
    rows with that name; a name is absent when no row has it or when it
    is inherited. *)
Definition represents (key : Employee.t -> string) (acc : Reports.JsObject)
  (rows : list Store.PayRow.t) : Prop :=
  NoDup (map fst acc)
  /\ forall k,
       match Reports.own acc k with
       | Some g =>
           Reports.inherited k = false
           /\ Reports.total g = sum (map Store.PayRow.gross_pay (rows_of key k rows))
           /\ Reports.count g = Z.of_nat (List.length (rows_of key k rows))
       | None => rows_of key k rows = [] \/ Reports.inherited k = true
       end.

(** Sum of the counts held by an accumulator. *)
Definition count_total (acc : Reports.JsObject) : Z :=
  count_sum (map (fun p => Reports.count (snd p)) acc).

(** No row has a grouping key that objects inherit. *)
Definition no_inherited_key (key : Employee.t -> string)
  (rows : list Store.PayRow.t) : Prop :=
  Forall (fun r => Reports.inherited (key (Store.PayRow.employees r)) = false) rows.

(** A group that has counted a row. *)
Definition counted (p : string * Reports.Group) : Prop := 1 <= Reports.count (snd p).

(** The reports screen once a fetch is over. *)
Definition loaded (st : Reports.State) : Reports.State :=
  Reports.mkState (Reports.activeReport st) (Reports.employees st)
    (Reports.payStatements st) (Reports.payByJobTitle st) (Reports.payByDivision st)
    (Reports.selectedMonth st) false.

(** The filters of a report fetch for the bounds [from] and [to]. *)
Definition month_filters (from to : string) : list Store.PayStatementFilter :=
  [Store.gte_pay_period_start from; Store.lte_pay_period_end to].

(** The literal tokens of a term. *)
Fixpoint literals (t : string) : list Store.token :=
  match t with
  | String c r => Store.Lit c :: literals r
  | EmptyString => []
  end.

End Spec.

Import Spec.

(* ===================================================================== *)
(** * The scenario of the bulk adjustment *)
(* ===================================================================== *)

Module Scenario.

(** Three employees with the salaries 58000, 104999 and 105000, and the
    form filled with 3.2 percent over the range from 58000 to 105000. *)
Definition form : SalaryAdjustments.State :=
  SalaryAdjustments.mkState "3.2" "58000" "105000" false None.

Definition employee (key salary : Z) : Employee.t :=
  Sample.employee key "Ada" "Low" "000000001" "ada@company2.com" "555-0100"
    "2020-01-01" "Analyst" "Finance" salary.

Definition world : World :=
  mkWorld
    (Store.mkDatabase [employee 1 58000; employee 2 104999; employee 3 105000] [])
    [] [] 0.

End Scenario.

(* ===================================================================== *)
(** * The parts of a day number *)
(* ===================================================================== *)

(** The day numbers count in eras of 400 years that start on the first of
    March, so that the leap day comes last. *)
Module Calendar.

(** The year that the month [m] of the year [y] belongs to when years
    start in March, and its rank in its era. *)
Definition shifted_year (y m : Z) : Z := if m <=? 2 then y - 1 else y.
Definition year_of_era (y m : Z) : Z := shifted_year y m - shifted_year y m / 400 * 400.

(** The rank of the month from March, and of a day from the first of
    March. *)
Definition month_index (m : Z) : Z := if 2 <? m then m - 3 else m + 9.
Definition day_of_year (m d : Z) : Z := (153 * month_index m + 2) / 5 + d - 1.

(** The day of the era on which its year [yoe] starts, the number of
    days of that year, and the year that a day of the era lies in. *)
Definition year_start (yoe : Z) : Z := yoe * 365 + yoe / 4 - yoe / 100.
Definition year_days (yoe : Z) : Z :=
  if yoe =? 399 then 366 else year_start (yoe + 1) - year_start yoe.
Definition year_of (doe : Z) : Z :=
  (doe - doe / 1460 + doe / 36524 - doe / 146096) / 365.

End Calendar.

Import Calendar.

(* ===================================================================== *)
(** * Vocabulary of the further properties *)
(* ===================================================================== *)

Module Behaviour.

(** How many of the next [n] store calls are served before one fails. *)
Fixpoint served (l : list bool) (n : nat) {struct n} : nat :=
  match n, l with
  | O, _ => O
  | S _, [] => n
  | S _, true :: _ => O
  | S n', false :: l' => S (served l' n')
  end.

(** How many of [n] store calls in a row are made when the first that
    fails ends the row. *)
Definition calls_made (l : list bool) (n : nat) : nat :=
  if (served l n <? n)%nat then S (served l n) else n.

(** The employees that a submission of the form selects. *)
Definition selected (form : SalaryAdjustments.State) (w : World) : list Employee.t :=
  filter (in_range (parseFloat (SalaryAdjustments.minSalary form))
                   (parseFloat (SalaryAdjustments.maxSalary form)))
         (Store.employees (db w)).

(** The salary that a submission of the form gives to a selected
    employee. *)
Definition raised (form : SalaryAdjustments.State) (e : Employee.t) : number :=
  SalaryAdjustments.new_salary
    (div (parseFloat (SalaryAdjustments.percentage form)) (of_Z 100)) e.

(** The form once a submission is over without success: fields kept. *)
Definition settled (form : SalaryAdjustments.State) (r : SalaryAdjustments.Result)
  : SalaryAdjustments.State :=
  SalaryAdjustments.mkState
    (SalaryAdjustments.percentage form) (SalaryAdjustments.minSalary form)
    (SalaryAdjustments.maxSalary form) false (Some r).


(** What a test of the store keeps of a row. *)
Definition keeps {A : Type} (test : A -> option bool) (r : A) : bool :=
  match test r with
  | Some true => true
  | _ => false
  end.

(** A search type that the [switch] of the search handler names. *)
Definition known_type (searchType : string) : bool :=
  (searchType =? "name")%string || (searchType =? "ssn")%string
  || (searchType =? "empid")%string.

(** The names of a list, each once, in the order of their first
    occurrence. *)
Fixpoint first_seen (names : list string) : list string :=
  match names with
  | [] => []
  | k :: rest => k :: filter (fun k' => negb (k' =? k)%string) (first_seen rest)
  end.

(** The grouping keys of a row set that are not property names that
    objects inherit, row by row. *)
Definition keys_recorded (key : Employee.t -> string) (rows : list Store.PayRow.t)
  : list string :=
  filter (fun k => negb (Reports.inherited k))
         (map (fun r => key (Store.PayRow.employees r)) rows).

(** No grouping key of the rows is an array index. *)
Definition no_index_key (key : Employee.t -> string) (rows : list Store.PayRow.t)
  : Prop :=
  Forall (fun r => Reports.array_index (key (Store.PayRow.employees r)) = None) rows.

(** The reports screen once a fetch has stored a report. *)
Definition with_titles (st : Reports.State) (v : list PayByJobTitle.t) : Reports.State :=
  Reports.mkState (Reports.activeReport st) (Reports.employees st)
    (Reports.payStatements st) v (Reports.payByDivision st)
    (Reports.selectedMonth st) false.

Definition with_divisions (st : Reports.State) (v : list PayByDivision.t)
  : Reports.State :=
  Reports.mkState (Reports.activeReport st) (Reports.employees st)
    (Reports.payStatements st) (Reports.payByJobTitle st) v
    (Reports.selectedMonth st) false.

(** The reports screen once a fetch has stored the employees and their
    pay statements. *)
Definition with_pay_history (st : Reports.State) (emps : list Employee.t)
  (pays : list PayStatement.t) : Reports.State :=
  Reports.mkState (Reports.activeReport st) emps pays (Reports.payByJobTitle st)
    (Reports.payByDivision st) (Reports.selectedMonth st) false.

(** The pay statements of an employee in a list. *)
Definition statements_of (e : Employee.t) (l : list PayStatement.t)
  : list PayStatement.t :=
  filter (fun p => PayStatement.emp_id p =? Employee.emp_id e) l.

(** [p] starts no later than [q]. *)
Definition starts_by (p q : PayStatement.t) : Prop :=
  PgDate.leb (PayStatement.pay_period_start p) (PayStatement.pay_period_start q) = true.

(** Seven monthly pay statements of the employee 1, in the order in
    which they were entered. *)
Definition half_year : list PayStatement.t :=
  map (fun m => PayStatement.mk m 1 (PgDate.mk 2024 m 1) (PgDate.mk 2024 m 28)
                                (of_Z 2500) (of_Z 2000) (of_Z 500))
      [3; 1; 7; 5; 2; 6; 4].

(** The text of a month as the month field of the reports gives it:
    [YYYY-MM]. *)
Definition month_text (y m : Z) : string := digits_of_Z 4 y ++ "-" ++ digits_of_Z 2 m.

(** The last day of the month before the month [m] of the year [y]. *)
Definition previous_month_end (y m : Z) : PgDate.t :=
  if m =? 1 then PgDate.mk (y - 1) 12 31
  else PgDate.mk y (m - 1) (days_in_month y (m - 1)).

(** The day that the upper bound of a report fetch falls on, in a zone
    [zone] minutes east of Greenwich: the last day of the month on UTC,
    the day before it east of Greenwich, the last day of the month before
    west of it. *)
Definition upper_day (zone y m : Z) : PgDate.t :=
  if zone <? 0 then previous_month_end y m
  else if zone =? 0 then PgDate.mk y m (days_in_month y m)
  else PgDate.mk y m (days_in_month y m - 1).

(** The month that the local-time getters read off the lower bound: the
    month itself, or the one before it west of Greenwich. *)
Definition local_month (zone y m : Z) : Z * Z :=
  if zone <? 0
  then (PgDate.year (previous_month_end y m), PgDate.month (previous_month_end y m))
  else (y, m).

(** The pay period of [p] lies between the days [a] and [b]. *)
Definition within (a b : PgDate.t) (p : PayStatement.t) : bool :=
  PgDate.leb a (PayStatement.pay_period_start p)
  && PgDate.leb (PayStatement.pay_period_end p) b.

(** The pay period of [p] does not end before it starts. *)
Definition well_formed (p : PayStatement.t) : Prop :=
  PgDate.leb (PayStatement.pay_period_start p) (PayStatement.pay_period_end p) = true.

(** The two bounds that a report fetch prints for the selected month;
    [None] when printing one of them throws. *)
Definition bounds (zone : Z) (month : string) : option (string * string) :=
  match toISOString (Reports.startDate month),
        toISOString (Reports.endDate zone month) with
  | Some from, Some to => Some (from, to)
  | _, _ => None
  end.

(** The world after a handler has logged [e] under [label] without
    calling the store. *)
Definition logged (w : World) (label : string) (e : exn) : World :=
  mkWorld (db w) (faults w) (console w ++ [(label, e)])%list (tz w).

(** The world after one store call that answered a read. *)
Definition answered (w : World) : World :=
  mkWorld (db w) (tl (faults w)) (console w) (tz w).

End Behaviour.

Import Behaviour.

(* ===================================================================== *)
(** * Store calls *)
(* ===================================================================== *)

Section StoreCalls.

Context {U A : Type}.
Variable run : Store.Database -> option (Store.Database * A).

Lemma request_served (s : Sys U) d a :
  next_call_served (world s) ->
  run (db (world s)) = Some (d, a) ->
  request run s
  = (mkSys (ui s) (mkWorld d (tl (faults (world s))) (console (world s)) (tz (world s))),
     Normal (mkResponse (Some a) None)).
Proof.
  unfold next_call_served, request. intros Hserved Hrun.
  destruct (faults (world s)) as [|b later]; simpl in *.
  - now rewrite Hrun.
  - subst b. now rewrite Hrun.
Qed.

Lemma request_failed (s : Sys U) :
  hd false (faults (world s)) = true ->
  request run s
  = (mkSys (ui s) (mkWorld (db (world s)) (tl (faults (world s))) (console (world s))
                           (tz (world s))),
     Normal (mkResponse None (Some (StoreError "request failed")))).
Proof.
  unfold request. intros Hfail.
  destruct (faults (world s)) as [|b later]; simpl in *; [discriminate|].
  now subst b.
Qed.

Lemma request_rejected (s : Sys U) :
  next_call_served (world s) ->
  run (db (world s)) = None ->
  request run s
  = (mkSys (ui s) (mkWorld (db (world s)) (tl (faults (world s))) (console (world s))
                           (tz (world s))),
     Normal (mkResponse None (Some (StoreError "request rejected")))).
Proof.
  unfold next_call_served, request. intros Hserved Hrun.
  destruct (faults (world s)) as [|b later]; simpl in *.
  - now rewrite Hrun.
  - subst b. now rewrite Hrun.
Qed.

End StoreCalls.

Lemma reliable_served w : reliable w -> next_call_served w.
Proof.
  unfold reliable, next_call_served. intros H.
  destruct (faults w) as [|b l]; [reflexivity|]. now inversion H.
Qed.

Lemma reliable_tl d l c z c' d' :
  reliable (mkWorld d l c z) -> reliable (mkWorld d' (tl l) c' z).
Proof.
  unfold reliable; simpl. intros H. destruct l; [constructor|]. now inversion H.
Qed.

(* ===================================================================== *)
(** * Selection by salary range *)
(* ===================================================================== *)

Lemma filter_rows_total {A : Type} (test : A -> bool) (rows : list A) :
  Store.filter_rows (fun r => Some (test r)) rows = Some (filter test rows).
Proof.
  induction rows as [|r rows IH]; simpl; [reflexivity|].
  rewrite IH. reflexivity.
Qed.

Lemma filter_rows_ext {A : Type} (f g : A -> option bool) (rows : list A) :
  (forall r, f r = g r) -> Store.filter_rows f rows = Store.filter_rows g rows.
Proof.
  intros H. induction rows as [|r rows IH]; simpl; [reflexivity|].
  now rewrite H, IH.
Qed.

Lemma select_salary_range lo hi d :
  Store.select_employees [Store.gte_salary lo; Store.lt_salary hi] d
  = Some (filter (in_range lo hi) (Store.employees d)).
Proof.
  unfold Store.select_employees. simpl.
  rewrite <- filter_rows_total. apply filter_rows_ext.
  intros r. unfold in_range. simpl. now rewrite andb_true_r.
Qed.

(* ===================================================================== *)
(** * The update loop of the salary adjustment *)
(* ===================================================================== *)

Lemma with_salary_id v e : Employee.emp_id (Employee.with_salary v e) = Employee.emp_id e.
Proof. reflexivity. Qed.

Lemma adjust_one_id f s e : Employee.emp_id (adjust_one f s e) = Employee.emp_id e.
Proof. unfold adjust_one. now destruct (_ =? _). Qed.

Lemma bind_run {U A B} (c : M U A) (k : A -> M U B) (s : Sys U) :
  bind c k s
  = match c s with
    | (s', Normal a) => k a s'
    | (s', Throw e) => (s', Throw e)
    end.
Proof. reflexivity. Qed.

Lemma update_loop pinc (sel : list Employee.t) :
  forall (u : SalaryAdjustments.State) (w : World),
    reliable w ->
    for_of
      (map (fun emp => SalaryAdjustments.mkUpdate (Employee.emp_id emp)
                         (SalaryAdjustments.new_salary pinc emp)) sel)
      (fun update =>
         bind (update_salary (SalaryAdjustments.salary update)
                             (SalaryAdjustments.emp_id update))
              (fun answer => throw_if (error answer)))
      (mkSys u w)
    = (mkSys u
         (mkWorld
            (Store.mkDatabase
               (apply_updates (SalaryAdjustments.new_salary pinc) sel
                              (Store.employees (db w)))
               (Store.pay_statements (db w)))
            (skipn (List.length sel) (faults w)) (console w) (tz w)),
       Normal tt).
Proof.
  induction sel as [|emp sel IH]; intros u w Hrel.
  - simpl. unfold ret. destruct w as [[emps pays] l c z]. reflexivity.
  - simpl. rewrite !bind_run.
    unfold update_salary.
    rewrite (request_served _ (mkSys u w)
               (Store.update_salary (SalaryAdjustments.new_salary pinc emp)
                                    (Employee.emp_id emp) (db w)) tt
               (reliable_served _ Hrel) eq_refl).
    simpl.
    rewrite IH.
    + simpl. destruct (faults w) as [|b later]; simpl; [rewrite skipn_nil|];
        reflexivity.
    + destruct w as [d l c z]. simpl. eapply reliable_tl; eassumption.
Qed.

Lemma find_none_not_in key (sel : list Employee.t) :
  ~ In key (map Employee.emp_id sel) ->
  find (fun s => Employee.emp_id s =? key) sel = None.
Proof.
  induction sel as [|s sel IH]; simpl; intros Hnot; [reflexivity|].
  destruct (Z.eqb_spec (Employee.emp_id s) key); [tauto|]. apply IH. tauto.
Qed.

(** Each row is rewritten by the update made for its key, if there is one. *)
Lemma apply_updates_spec f (sel : list Employee.t) :
  NoDup (map Employee.emp_id sel) ->
  forall rows,
    apply_updates f sel rows
    = map (fun e =>
             match find (fun s => Employee.emp_id s =? Employee.emp_id e) sel with
             | Some s => Employee.with_salary (f s) e
             | None => e
             end) rows.
Proof.
  induction sel as [|s sel IH]; intros Hnd rows.
  - simpl. now rewrite map_id.
  - inversion Hnd as [|? ? Hnot Hnd']; subst.
    unfold apply_updates in *. simpl. rewrite (IH Hnd'), map_map.
    apply map_ext. intros e. rewrite adjust_one_id. unfold adjust_one.
    destruct (Z.eqb_spec (Employee.emp_id e) (Employee.emp_id s)) as [Heq|Hne].
    + rewrite Heq, Z.eqb_refl. now rewrite (find_none_not_in _ _ Hnot).
    + destruct (Z.eqb_spec (Employee.emp_id s) (Employee.emp_id e)); [congruence|].
      reflexivity.
Qed.

(** The selected rows have distinct keys when the rows have. *)
Lemma selected_keys_distinct (p : Employee.t -> bool) (rows : list Employee.t) :
  NoDup (map Employee.emp_id rows) ->
  NoDup (map Employee.emp_id (filter p rows)).
Proof.
  intros Hnd. induction rows as [|r rows IH]; simpl; [constructor|].
  inversion Hnd as [|? ? Hnot Hnd']; subst.
  destruct (p r); simpl; [constructor|]; auto.
  intros Hin. apply Hnot. apply in_map_iff in Hin as (x & Hx & Hin).
  apply filter_In in Hin as [Hin _]. apply in_map_iff. eauto.
Qed.

(** Under a key, the row found among the selected ones is the row itself. *)
Lemma find_selected (p : Employee.t -> bool) (rows : list Employee.t) e :
  NoDup (map Employee.emp_id rows) ->
  In e rows ->
  find (fun s => Employee.emp_id s =? Employee.emp_id e) (filter p rows)
  = if p e then Some e else None.
Proof.
  induction rows as [|r rows IH]; simpl; intros Hnd Hin; [tauto|].
  inversion Hnd as [|? ? Hnot Hnd']; subst.
  destruct Hin as [->|Hin].
  - destruct (p e) eqn:Hp; simpl.
    + now rewrite Z.eqb_refl.
    + apply find_none_not_in. intros Hin. apply Hnot.
      apply in_map_iff in Hin as (x & Hx & Hin).
      apply filter_In in Hin as [Hin _]. apply in_map_iff. eauto.
  - assert (Hne : Employee.emp_id r <> Employee.emp_id e).
    { intros Heq. apply Hnot. rewrite Heq. now apply in_map. }
    destruct (p r); simpl; [|now apply IH].
    destruct (Z.eqb_spec (Employee.emp_id r) (Employee.emp_id e)); [tauto|].
    now apply IH.
Qed.

Lemma find_by_id_map (g : Employee.t -> Employee.t) (rows : list Employee.t) e :
  (forall x, Employee.emp_id (g x) = Employee.emp_id x) ->
  NoDup (map Employee.emp_id rows) ->
  In e rows ->
  find (fun x => Employee.emp_id x =? Employee.emp_id e) (map g rows) = Some (g e).
Proof.
  intros Hid. induction rows as [|r rows IH]; simpl; intros Hnd Hin; [tauto|].
  inversion Hnd as [|? ? Hnot Hnd']; subst. rewrite Hid.
  destruct Hin as [->|Hin].
  - now rewrite Z.eqb_refl.
  - destruct (Z.eqb_spec (Employee.emp_id r) (Employee.emp_id e)) as [Heq|Hne].
    + exfalso. apply Hnot. rewrite Heq. now apply in_map.
    + now apply IH.
Qed.

(** What the submission leaves behind when no store call fails. *)
Lemma handleSubmit_reliable (form : SalaryAdjustments.State) (w : World) :
  reliable w ->
  let pinc := div (parseFloat (SalaryAdjustments.percentage form)) (of_Z 100) in
  let sel :=
    filter (in_range (parseFloat (SalaryAdjustments.minSalary form))
                     (parseFloat (SalaryAdjustments.maxSalary form)))
           (Store.employees (db w)) in
  Store.employees (db (world (fst (SalaryAdjustments.handleSubmit (mkSys form w)))))
  = apply_updates (SalaryAdjustments.new_salary pinc) sel (Store.employees (db w)).
Proof.
  intros Hrel pinc sel.
  unfold SalaryAdjustments.handleSubmit, try_catch_finally,
    SalaryAdjustments.setLoading, SalaryAdjustments.setResult, getState, setState.
  rewrite !bind_run. cbn.
  unfold select_employees.
  erewrite request_served;
    [| apply reliable_served; exact Hrel
     | cbv beta; rewrite select_salary_range; reflexivity ].
  cbn. fold sel.
  destruct sel as [|e sel'] eqn:Hsel.
  - reflexivity.
  - set (l := e :: sel'). rewrite !bind_run.
    rewrite update_loop.
    + reflexivity.
    + destruct w as [d fl c z]. cbn. eapply reliable_tl; eassumption.
Qed.

(* ===================================================================== *)
(** * Rounding *)
(* ===================================================================== *)

Lemma Math_round_int_nearest s m e :
  e < 0 -> nearest_integer s m e (Math_round_int s m e).
Proof.
  intros He. unfold nearest_integer, Math_round_int.
  set (z := cond_Zopp s (Z.pos m)). set (k := - e).
  assert (Hk : 0 < k) by (unfold k; lia).
  replace (- e - 1) with (k - 1) by (unfold k; lia).
  rewrite Z.shiftr_div_pow2 by lia.
  assert (Hpow : 2 ^ k = 2 * 2 ^ (k - 1)).
  { replace k with (Z.succ (k - 1)) at 1 by lia. apply Z.pow_succ_r. lia. }
  assert (Hpos : 0 < 2 ^ (k - 1)) by (apply Z.pow_pos_nonneg; lia).
  set (h := 2 ^ (k - 1)) in *.
  rewrite Hpow.
  pose proof (Z.div_mod (z + h) (2 * h) ltac:(lia)) as Hdm.
  pose proof (Z.mod_pos_bound (z + h) (2 * h) ltac:(lia)) as Hmod.
  set (q := (z + h) / (2 * h)) in *. set (r := (z + h) mod (2 * h)) in *.
  nia.
Qed.

(** [Math.round] leaves NaN, the infinities, the zeros and the numbers
    with a non-negative exponent as they are, and takes any other number
    to a nearest integer. *)
Lemma Math_round_spec (x : number) :
  match x with
  | S754_finite s m e =>
      if 0 <=? e then Math_round x = x
      else exists n, nearest_integer s m e n
                     /\ Math_round x = if n =? 0 then S754_zero s else of_Z n
  | _ => Math_round x = x
  end.
Proof.
  destruct x as [s|s| |s m e]; try reflexivity.
  unfold Math_round. destruct (Z.leb_spec 0 e); [reflexivity|].
  exists (Math_round_int s m e). split; [|reflexivity].
  now apply Math_round_int_nearest.
Qed.

(* ===================================================================== *)
(** * Bulk salary adjustment *)
(* ===================================================================== *)

(** C1. After a bulk adjustment at percentage p over [min, max) during
    which no store call fails, every employee E of the store (whose keys
    [emp_id] are distinct) with [min <= E.salary < max] has the salary
    [Math.round(E.salary * (1 + p / 100))] computed from its salary before,
    and every other employee is unchanged; the rounding takes a finite
    value that is not already integral to a nearest integer. *)
Theorem bulk_adjustment_rounds_salaries_in_range
  (form : SalaryAdjustments.State) (w : World) :
  NoDup (map Employee.emp_id (Store.employees (db w))) ->
  reliable w ->
  let p := parseFloat (SalaryAdjustments.percentage form) in
  let lo := parseFloat (SalaryAdjustments.minSalary form) in
  let hi := parseFloat (SalaryAdjustments.maxSalary form) in
  let after := db (world (fst (SalaryAdjustments.handleSubmit (mkSys form w)))) in
  (forall E, In E (Store.employees (db w)) ->
     Store.employee_by_id after (Employee.emp_id E)
     = Some (if in_range lo hi E
             then Employee.with_salary
                    (Math_round (mul (Employee.salary E)
                                     (add (of_Z 1) (div p (of_Z 100))))) E
             else E))
  /\ (forall x : number,
        match x with
        | S754_finite s m e =>
            if 0 <=? e then Math_round x = x
            else exists n, nearest_integer s m e n
                           /\ Math_round x = if n =? 0 then S754_zero s else of_Z n
        | _ => Math_round x = x
        end).
Proof.
  intros Hnd Hrel p lo hi after. split; [|apply Math_round_spec].
  intros E HE. unfold after, Store.employee_by_id.
  rewrite (handleSubmit_reliable form w Hrel).
  rewrite apply_updates_spec by (now apply selected_keys_distinct).
  rewrite find_by_id_map with (e := E); auto.
  - rewrite find_selected by assumption. fold lo hi.
    now destruct (in_range lo hi E).
  - intros x. now destruct (find _ _).
Qed.

Lemma bulk_adjustment_rounds_salaries_in_range_witness :
  Store.employee_by_id
    (db (world (fst (SalaryAdjustments.handleSubmit
                       (mkSys Scenario.form Scenario.world))))) 2
  = Some (Scenario.employee 2 108359).
Proof.
  assert (Hnd : NoDup (map Employee.emp_id (Store.employees (db Scenario.world)))).
  { simpl. repeat constructor; simpl; intuition discriminate. }
  assert (Hrel : reliable Scenario.world) by constructor.
  pose proof (proj1 (bulk_adjustment_rounds_salaries_in_range
                       Scenario.form Scenario.world Hnd Hrel)
                    (Scenario.employee 2 104999)
                    (or_intror (or_introl eq_refl))) as H.
  vm_compute in H |- *. exact H.
Defined.

(** The product is the one of double-precision arithmetic: at 0.5 percent
    a salary of 100 gives a product just below 100.5, which is rounded to
    100. *)
Remark rounding_follows_the_double_product :
  forall e,
    SalaryAdjustments.new_salary (div (parseFloat "0.5") (of_Z 100))
                                 (Employee.with_salary (of_Z 100) e)
    = of_Z 100.
Proof. intros e. vm_compute. reflexivity. Qed.

(** C2. On the range [58000, 105000) at 3.2 percent, an employee with the
    salary 58000 gets 59856, one with 104999 gets 108359, and one with
    exactly 105000 is outside the range and keeps its salary. *)
Theorem scenario_58000_105000_at_3_2_percent :
  let pinc := div (parseFloat "3.2") (of_Z 100) in
  let lo := parseFloat "58000" in
  let hi := parseFloat "105000" in
  (forall e,
      in_range lo hi (Employee.with_salary (of_Z 58000) e) = true
      /\ SalaryAdjustments.new_salary pinc (Employee.with_salary (of_Z 58000) e)
         = of_Z 59856)
  /\ (forall e,
         in_range lo hi (Employee.with_salary (of_Z 104999) e) = true
         /\ SalaryAdjustments.new_salary pinc (Employee.with_salary (of_Z 104999) e)
            = of_Z 108359)
  /\ (forall e, in_range lo hi (Employee.with_salary (of_Z 105000) e) = false)
  /\ (let '(s, outcome) :=
        SalaryAdjustments.handleSubmit (mkSys Scenario.form Scenario.world) in
      outcome = Normal tt
      /\ Store.employees (db (world s))
         = [Scenario.employee 1 59856; Scenario.employee 2 108359;
            Scenario.employee 3 105000]
      /\ SalaryAdjustments.result (ui s)
         = Some (SalaryAdjustments.mkResult 2
                   "Successfully updated 2 employee(s) with a 3.2% salary increase.")).
Proof.
  intros pinc lo hi. split; [|split; [|split]].
  - intros e. vm_compute. split; reflexivity.
  - intros e. vm_compute. split; reflexivity.
  - intros e. vm_compute. reflexivity.
  - vm_compute. repeat split.
Qed.

(** C6. When no employee has a salary in [min, max) and the store answers
    the fetch, the submission ends with the result of 0 affected employees
    and the message that none was found; it does not go through the error
    handler (nothing is logged), makes no store call after the fetch and
    leaves the store as it was. *)
Theorem empty_range_reports_zero_affected
  (form : SalaryAdjustments.State) (w : World) :
  next_call_served w ->
  (forall E, In E (Store.employees (db w)) ->
     in_range (parseFloat (SalaryAdjustments.minSalary form))
              (parseFloat (SalaryAdjustments.maxSalary form)) E = false) ->
  SalaryAdjustments.handleSubmit (mkSys form w)
  = (mkSys
       (SalaryAdjustments.mkState
          (SalaryAdjustments.percentage form) (SalaryAdjustments.minSalary form)
          (SalaryAdjustments.maxSalary form) false
          (Some (SalaryAdjustments.mkResult 0
                   "No employees found in the specified salary range.")))
       (mkWorld (db w) (tl (faults w)) (console w) (tz w)),
     Normal tt).
Proof.
  intros Hserved Hnone.
  assert (Hsel : filter (in_range (parseFloat (SalaryAdjustments.minSalary form))
                                  (parseFloat (SalaryAdjustments.maxSalary form)))
                        (Store.employees (db w)) = []).
  { induction (Store.employees (db w)) as [|e l IH]; [reflexivity|].
    simpl. rewrite Hnone by (now left). apply IH. intros E HE. apply Hnone. now right. }
  unfold SalaryAdjustments.handleSubmit, try_catch_finally,
    SalaryAdjustments.setLoading, SalaryAdjustments.setResult, getState, setState.
  rewrite !bind_run. cbn.
  unfold select_employees.
  erewrite request_served;
    [| exact Hserved
     | cbv beta; cbn [world]; rewrite select_salary_range, Hsel; reflexivity ].
  reflexivity.
Qed.

Lemma empty_range_reports_zero_affected_witness :
  SalaryAdjustments.result
    (ui (fst (SalaryAdjustments.handleSubmit
                (mkSys (SalaryAdjustments.mkState "3.2" "10" "20" false None)
                       Scenario.world))))
  = Some (SalaryAdjustments.mkResult 0
            "No employees found in the specified salary range.").
Proof.
  rewrite (empty_range_reports_zero_affected
             (SalaryAdjustments.mkState "3.2" "10" "20" false None) Scenario.world).
  - reflexivity.
  - reflexivity.
  - intros E HE. simpl in HE.
    destruct HE as [<-|[<-|[<-|[]]]]; vm_compute; reflexivity.
Defined.

(* ===================================================================== *)
(** * Blank search terms *)
(* ===================================================================== *)

Lemma trimStart_blank s : blank s = true -> trimStart s = EmptyString.
Proof.
  induction s as [|c s IH]; simpl; [reflexivity|].
  intros H. apply andb_prop in H as [Hc Hs]. rewrite Hc. now apply IH.
Qed.

Lemma trim_blank s : blank s = true -> trim s = EmptyString.
Proof. intros H. unfold trim. now rewrite trimStart_blank. Qed.

Lemma trimStart_not_blank s :
  blank s = false ->
  exists c r, trimStart s = String c r /\ is_whitespace c = false.
Proof.
  induction s as [|c s IH]; simpl; [discriminate|].
  destruct (is_whitespace c) eqn:Hc; simpl.
  - exact IH.
  - intros _. now exists c, s.
Qed.

Lemma trimEnd_not_empty c r :
  is_whitespace c = false -> truthy (trimEnd (String c r)) = true.
Proof.
  intros Hc. simpl. destruct (trimEnd r); [now rewrite Hc|reflexivity].
Qed.

Lemma trim_not_blank s : blank s = false -> truthy (trim s) = true.
Proof.
  intros H. destruct (trimStart_not_blank s H) as (c & r & Heq & Hc).
  unfold trim. rewrite Heq. now apply trimEnd_not_empty.
Qed.

(* ===================================================================== *)
(** * Runs of the search handler *)
(* ===================================================================== *)

(** A search whose request the store answers shows the rows answered. *)
Lemma handleSearch_served (st : EmployeeSearch.State) (w : World) rows :
  blank (EmployeeSearch.searchTerm st) = false ->
  next_call_served w ->
  Store.select_employees
    (EmployeeSearch.query (EmployeeSearch.searchType st) (EmployeeSearch.searchTerm st))
    (db w) = Some rows ->
  EmployeeSearch.handleSearch (mkSys st w)
  = (mkSys (EmployeeSearch.mkState (EmployeeSearch.searchTerm st)
                                   (EmployeeSearch.searchType st) rows false)
           (mkWorld (db w) (tl (faults w)) (console w) (tz w)),
     Normal tt).
Proof.
  intros Hterm Hserved Hrows.
  unfold EmployeeSearch.handleSearch, getState. rewrite bind_run. cbn.
  rewrite (trim_not_blank _ Hterm). cbn.
  unfold try_catch_finally, EmployeeSearch.setLoading, EmployeeSearch.setResults,
    setState.
  rewrite !bind_run. cbn. unfold select_employees.
  erewrite request_served;
    [| exact Hserved | cbv beta; cbn [world ui]; rewrite Hrows; reflexivity ].
  reflexivity.
Qed.

(** A search whose request fails logs the error and keeps the rows shown. *)
Lemma handleSearch_failed (st : EmployeeSearch.State) (w : World) :
  blank (EmployeeSearch.searchTerm st) = false ->
  hd false (faults w) = true
  \/ Store.select_employees
       (EmployeeSearch.query (EmployeeSearch.searchType st)
                             (EmployeeSearch.searchTerm st)) (db w) = None ->
  exists e,
    EmployeeSearch.handleSearch (mkSys st w)
    = (mkSys (EmployeeSearch.mkState (EmployeeSearch.searchTerm st)
                                     (EmployeeSearch.searchType st)
                                     (EmployeeSearch.results st) false)
             (mkWorld (db w) (tl (faults w))
                      (console w ++ [("Error searching employees:", e)])%list (tz w)),
       Normal tt).
Proof.
  intros Hterm Hfail.
  unfold EmployeeSearch.handleSearch, getState. rewrite bind_run. cbn.
  rewrite (trim_not_blank _ Hterm). cbn.
  unfold try_catch_finally, EmployeeSearch.setLoading, EmployeeSearch.setResults,
    setState.
  rewrite !bind_run. cbn. unfold select_employees.
  destruct (hd false (faults w)) eqn:Hhd.
  - rewrite request_failed by exact Hhd. eexists. reflexivity.
  - destruct Hfail as [Hfail|Hnone]; [discriminate|].
    rewrite request_rejected;
      [| exact Hhd | cbv beta; cbn [world ui]; rewrite Hnone; reflexivity ].
    eexists. reflexivity.
Qed.

(** C10. When the search term is empty or made of white space only,
    submitting the search form makes no store call and leaves the screen
    state (results, loading flag, term and type) and the world as they
    were. *)
Theorem blank_search_changes_nothing (st : EmployeeSearch.State) (w : World) :
  blank (EmployeeSearch.searchTerm st) = true ->
  EmployeeSearch.handleSearch (mkSys st w) = (mkSys st w, Normal tt).
Proof.
  intros Hblank.
  unfold EmployeeSearch.handleSearch, getState. rewrite bind_run. cbn.
  now rewrite (trim_blank _ Hblank).
Qed.

Lemma blank_search_changes_nothing_witness :
  EmployeeSearch.handleSearch
    (mkSys (EmployeeSearch.mkState "   " "name" Sample.employees false)
           (Sample.world 0))
  = (mkSys (EmployeeSearch.mkState "   " "name" Sample.employees false)
           (Sample.world 0),
     Normal tt).
Proof.
  apply (blank_search_changes_nothing
           (EmployeeSearch.mkState "   " "name" Sample.employees false)
           (Sample.world 0)).
  reflexivity.
Defined.

(* ===================================================================== *)
(** * Patterns without wildcards *)
(* ===================================================================== *)

Lemma plain_app_inv c s : plain (String c s) = true -> special c = false /\ plain s = true.
Proof.
  simpl. intros H. apply andb_prop in H as [Hc Hs].
  split; [now apply negb_true_iff|assumption].
Qed.

Lemma special_false c :
  special c = false ->
  (c =? "%")%char = false /\ (c =? "_")%char = false /\ (c =? "*")%char = false
  /\ (c =? "\")%char = false /\ (c =? ",")%char = false /\ (c =? ")")%char = false.
Proof.
  unfold special. intros H.
  repeat (apply orb_false_elim in H as [H ?]). tauto.
Qed.

Lemma star_to_percent_plain t r :
  plain t = true ->
  Store.star_to_percent (t ++ r) = t ++ Store.star_to_percent r.
Proof.
  induction t as [|c t IH]; intros Hp; [reflexivity|].
  apply plain_app_inv in Hp as [Hc Ht].
  apply special_false in Hc as (_ & _ & Hstar & _).
  simpl. now rewrite Hstar, IH.
Qed.

Lemma tokens_literal c r :
  special c = false ->
  Store.tokens (String c r) = option_map (cons (Store.Lit c)) (Store.tokens r).
Proof.
  intros Hc. apply special_false in Hc as (Hpct & Hund & _ & Hbs & _).
  apply Ascii.eqb_neq in Hpct, Hund, Hbs.
  destruct c as [[] [] [] [] [] [] [] []]; try reflexivity; congruence.
Qed.

Lemma tokens_plain t r :
  plain t = true ->
  Store.tokens (t ++ r) = option_map (app (literals t)) (Store.tokens r).
Proof.
  induction t as [|c t IH]; intros Hp.
  - simpl. now destruct (Store.tokens r).
  - apply plain_app_inv in Hp as [Hc Ht].
    change (String c t ++ r) with (String c (t ++ r)).
    rewrite (tokens_literal _ _ Hc), (IH Ht).
    now destruct (Store.tokens r).
Qed.

Lemma lower_literals t :
  map Store.lower_token (literals t) = literals (toLowerCase t).
Proof. induction t as [|c t IH]; simpl; [reflexivity|]. now rewrite IH. Qed.

Lemma like_any_step ts s :
  Store.like (Store.Any :: ts) s
  = Store.like ts s
    || match s with
       | String _ s' => Store.like (Store.Any :: ts) s'
       | EmptyString => false
       end.
Proof. destruct s; reflexivity. Qed.

Lemma like_any_only s : Store.like [Store.Any] s = true.
Proof.
  induction s as [|c s IH]; [reflexivity|].
  rewrite like_any_step. rewrite IH. apply orb_true_r.
Qed.

Lemma like_literals_then_any t s :
  Store.like (literals t ++ [Store.Any]) s = prefix t s.
Proof.
  revert s. induction t as [|c t IH]; intros s.
  - simpl literals. simpl app. rewrite like_any_only. now destruct s.
  - destruct s as [|d s]; [reflexivity|].
    simpl. rewrite IH.
    destruct (Ascii.eqb_spec c d) as [->|Hne].
    + destruct (ascii_dec d d); [reflexivity|congruence].
    + destruct (ascii_dec c d); [congruence|reflexivity].
Qed.

Lemma like_substring t s :
  Store.like (Store.Any :: literals t ++ [Store.Any]) s = contains t s.
Proof.
  induction s as [|c s IH].
  - rewrite like_any_step, like_literals_then_any. reflexivity.
  - rewrite like_any_step, like_literals_then_any, IH. reflexivity.
Qed.

(** For a term without wildcards, [value ILIKE %term%] holds when the
    value contains the term, letter case aside. *)
Lemma ilike_substring term value :
  plain term = true ->
  Store.ilike ("%" ++ term ++ "%") value
  = Some (contains (toLowerCase term) (toLowerCase value)).
Proof.
  intros Hp. unfold Store.ilike.
  change ("%" ++ term ++ "%") with (String "%" (term ++ "%")).
  change (Store.star_to_percent (String "%" (term ++ "%")))
    with (String "%" (Store.star_to_percent (term ++ "%"))).
  rewrite (star_to_percent_plain _ _ Hp).
  change (Store.tokens (String "%" (term ++ Store.star_to_percent "%")))
    with (option_map (cons Store.Any) (Store.tokens (term ++ "%"))).
  rewrite (tokens_plain _ _ Hp). cbn [Store.tokens option_map].
  cbn [map Store.lower_token]. rewrite map_app, lower_literals.
  cbn [map Store.lower_token]. now rewrite like_substring.
Qed.

(* ===================================================================== *)
(** * The list of conditions of the name search *)
(* ===================================================================== *)

Lemma split_on_not_nil sep s : Store.split_on sep s <> [].
Proof.
  destruct s as [|c s]; simpl; [discriminate|].
  destruct (c =? sep)%char; [discriminate|].
  destruct (Store.split_on sep s); discriminate.
Qed.

Lemma split_on_free sep t rest :
  Store.mentions sep t = false ->
  Store.split_on sep (t ++ rest)
  = match Store.split_on sep rest with
    | piece :: pieces => (t ++ piece) :: pieces
    | [] => [t]
    end.
Proof.
  induction t as [|c t IH]; intros Hfree.
  - simpl. destruct (Store.split_on sep rest) eqn:E; [|reflexivity].
    now apply split_on_not_nil in E.
  - simpl in Hfree. apply orb_false_elim in Hfree as [Hc Ht].
    change (String c t ++ rest) with (String c (t ++ rest)).
    simpl. rewrite Ascii.eqb_sym, Hc, (IH Ht).
    destruct (Store.split_on sep rest) eqn:E; [|reflexivity].
    now apply split_on_not_nil in E.
Qed.

Lemma split_on_free_end sep t :
  Store.mentions sep t = false -> Store.split_on sep t = [t].
Proof.
  induction t as [|c t IH]; intros Hfree; [reflexivity|].
  simpl in Hfree. apply orb_false_elim in Hfree as [Hc Ht].
  simpl. now rewrite Ascii.eqb_sym, Hc, (IH Ht).
Qed.

Lemma mentions_app c a b :
  Store.mentions c (a ++ b) = Store.mentions c a || Store.mentions c b.
Proof.
  induction a as [|d a IH]; [reflexivity|].
  simpl. now rewrite IH, orb_assoc.
Qed.

Lemma plain_mentions term :
  plain term = true ->
  Store.mentions "," term = false /\ Store.mentions ")" term = false.
Proof.
  induction term as [|c t IH]; intros Hp; [now split|].
  apply plain_app_inv in Hp as [Hc Ht].
  apply special_false in Hc as (_ & _ & _ & _ & Hcomma & Hparen).
  destruct (IH Ht) as [H1 H2]. cbn [Store.mentions].
  rewrite (Ascii.eqb_sym "," c), (Ascii.eqb_sym ")" c), Hcomma, Hparen, H1, H2.
  now split.
Qed.

Lemma name_conditions term :
  plain term = true ->
  Store.split_on ","
    ("first_name.ilike.%" ++ term ++ "%,last_name.ilike.%" ++ term ++ "%")
  = [ "first_name.ilike.%" ++ term ++ "%"; "last_name.ilike.%" ++ term ++ "%" ].
Proof.
  intros Hp. destruct (plain_mentions _ Hp) as [Hcomma _].
  rewrite split_on_free by reflexivity.
  rewrite split_on_free by exact Hcomma.
  change ("%,last_name.ilike.%" ++ term ++ "%")
    with (String "%" (String "," ("last_name.ilike.%" ++ term ++ "%"))).
  cbn [Store.split_on Ascii.eqb Bool.eqb].
  rewrite split_on_free by reflexivity.
  rewrite split_on_free by exact Hcomma.
  reflexivity.
Qed.

(** The name search selects the rows whose first or last name contains
    the term, for a term without characters of the filter syntax. *)
Lemma select_by_name term d :
  plain term = true ->
  Store.select_employees (EmployeeSearch.query "name" term) d
  = Some (filter (name_matches term) (Store.employees d)).
Proof.
  intros Hp. destruct (plain_mentions _ Hp) as [_ Hparen].
  unfold Store.select_employees, EmployeeSearch.query.
  cbn [String.eqb Ascii.eqb Bool.eqb Store.compile_all Store.compile].
  rewrite (name_conditions _ Hp).
  assert (Hvalue : Store.mentions ")" ("%" ++ term ++ "%") = false).
  { rewrite !mentions_app, Hparen. reflexivity. }
  assert (Hfirst : Store.condition ("first_name.ilike.%" ++ term ++ "%")
                   = Some (fun e => Store.ilike ("%" ++ term ++ "%") (Employee.first_name e))).
  { unfold Store.condition. cbn -[Store.ilike Store.mentions].
    change (String "%" (term ++ "%")) with ("%" ++ term ++ "%").
    now rewrite Hvalue. }
  assert (Hlast : Store.condition ("last_name.ilike.%" ++ term ++ "%")
                  = Some (fun e => Store.ilike ("%" ++ term ++ "%") (Employee.last_name e))).
  { unfold Store.condition. cbn -[Store.ilike Store.mentions].
    change (String "%" (term ++ "%")) with ("%" ++ term ++ "%").
    now rewrite Hvalue. }
  cbn [Store.conditions]. rewrite Hfirst, Hlast. cbn [option_map].
  rewrite <- filter_rows_total. apply filter_rows_ext. intros e.
  cbn [Store.every_condition Store.any_condition].
  rewrite !(ilike_substring _ _ Hp). unfold name_matches.
  now rewrite orb_false_r, andb_true_r.
Qed.

Lemma select_by_ssn term d :
  Store.select_employees (EmployeeSearch.query "ssn" term) d
  = Some (filter (fun e => (Employee.ssn e =? term)%string) (Store.employees d)).
Proof.
  unfold Store.select_employees, EmployeeSearch.query.
  cbn [String.eqb Ascii.eqb Bool.eqb Store.compile_all Store.compile].
  rewrite <- filter_rows_total. apply filter_rows_ext. intros e.
  cbn [Store.every_condition]. now rewrite andb_true_r.
Qed.

(** Among rows with distinct identity numbers, at most one has a given
    one. *)
Lemma unique_ssn term (rows : list Employee.t) :
  NoDup (map Employee.ssn rows) ->
  (List.length (filter (fun e => (Employee.ssn e =? term)%string) rows) <= 1)%nat.
Proof.
  induction rows as [|r rows IH]; simpl; intros Hnd; [lia|].
  inversion Hnd as [|? ? Hnot Hnd']; subst.
  destruct (String.eqb_spec (Employee.ssn r) term) as [Heq|Hne]; [|now apply IH].
  assert (Hnone : filter (fun e => (Employee.ssn e =? term)%string) rows = []).
  { clear IH Hnd Hnd'. induction rows as [|x rows IH]; [reflexivity|].
    simpl. destruct (String.eqb_spec (Employee.ssn x) term) as [Hx|Hx].
    - exfalso. apply Hnot. left. congruence.
    - apply IH. intros Hin. apply Hnot. now right. }
  rewrite Hnone. simpl. lia.
Qed.

(* ===================================================================== *)
(** * Search *)
(* ===================================================================== *)

(** C3 (amended). For every search term that is not blank, when the store
    answers: the search by identity number shows the employees whose [ssn]
    equals the term, character for character, hence at most one when the
    [ssn] of the employees are distinct; and for a term without the
    characters the filter syntax reads specially ([%], [_], [*], the
    backslash, the comma and the closing parenthesis), the search by name
    shows the employees whose first or last name contains the term as a
    substring, letter case aside. *)
Theorem search_by_ssn_and_by_name (st : EmployeeSearch.State) (w : World) :
  blank (EmployeeSearch.searchTerm st) = false ->
  next_call_served w ->
  let term := EmployeeSearch.searchTerm st in
  let found := EmployeeSearch.results (ui (fst (EmployeeSearch.handleSearch (mkSys st w)))) in
  (EmployeeSearch.searchType st = "ssn" ->
     found = filter (fun e => (Employee.ssn e =? term)%string) (Store.employees (db w))
     /\ (forall e, In e found -> Employee.ssn e = term)
     /\ (NoDup (map Employee.ssn (Store.employees (db w))) ->
         (List.length found <= 1)%nat))
  /\ (EmployeeSearch.searchType st = "name" ->
      plain term = true ->
      found = filter (name_matches term) (Store.employees (db w))).
Proof.
  intros Hterm Hserved term found. split.
  - intros Htype.
    assert (Hfound : found
                     = filter (fun e => (Employee.ssn e =? term)%string)
                              (Store.employees (db w))).
    { assert (Hsel : Store.select_employees
                       (EmployeeSearch.query (EmployeeSearch.searchType st) term) (db w)
                     = Some (filter (fun e => (Employee.ssn e =? term)%string)
                                    (Store.employees (db w))))
        by (rewrite Htype; apply select_by_ssn).
      unfold found. now rewrite (handleSearch_served _ _ _ Hterm Hserved Hsel). }
    split; [exact Hfound|]. split.
    + intros e He. rewrite Hfound in He. apply filter_In in He as [_ He].
      now apply String.eqb_eq.
    + intros Hnd. rewrite Hfound. now apply unique_ssn.
  - intros Htype Hplain.
    assert (Hsel : Store.select_employees
                     (EmployeeSearch.query (EmployeeSearch.searchType st) term) (db w)
                   = Some (filter (name_matches term) (Store.employees (db w))))
      by (rewrite Htype; now apply select_by_name).
    unfold found. now rewrite (handleSearch_served _ _ _ Hterm Hserved Hsel).
Qed.

Lemma search_by_ssn_and_by_name_witness :
  EmployeeSearch.results
    (ui (fst (EmployeeSearch.handleSearch
                (mkSys (EmployeeSearch.mkState "son" "name" [] false)
                       (Sample.world 0)))))
  = filter (name_matches "son") Sample.employees.
Proof.
  apply (proj2 (search_by_ssn_and_by_name
                  (EmployeeSearch.mkState "son" "name" [] false) (Sample.world 0)
                  eq_refl eq_refl)); reflexivity.
Defined.

(** C3 as stated fails. With nothing shown before, the term [J_hn] finds
    John Smith and Sarah Johnson, whose names do not contain it, and the
    empty term, which every name contains, finds nobody. The other
    characters of the filter syntax break the claim as well: [J%n] and
    [J*n] find three employees and a backslash before [J] finds four,
    where no name contains these terms; and with one employee shown
    before, the terms [a,b] and [a)], which no name contains, make the
    store reject the request, so that the employee stays on the screen. *)
Lemma search_term_is_a_pattern_and_blank_is_skipped :
  let found term shown :=
    map Employee.emp_id
        (EmployeeSearch.results
           (ui (fst (EmployeeSearch.handleSearch
                       (mkSys (EmployeeSearch.mkState term "name" shown false)
                              (Sample.world 0)))))) in
  let expected term :=
    map Employee.emp_id (filter (name_matches term) Sample.employees) in
  (found "J_hn" [] = [1; 2] /\ expected "J_hn" = [])
  /\ (found "" [] = [] /\ expected "" = [1; 2; 3; 4; 5; 6; 7; 8])
  /\ (found "J%n" [] = [1; 2; 8] /\ expected "J%n" = [])
  /\ (found "J*n" [] = [1; 2; 8] /\ expected "J*n" = [])
  /\ (found "\J" [] = [1; 2; 7; 8] /\ expected "\J" = [])
  /\ (found "a,b" (firstn 1 Sample.employees) = [1] /\ expected "a,b" = [])
  /\ (found "a)" (firstn 1 Sample.employees) = [1] /\ expected "a)" = []).
Proof.
  vm_compute. repeat split.
Qed.

Lemma eqb_NaN x : eqb x NaN = false.
Proof. destruct x as [s|s| |s m e]; reflexivity. Qed.

Lemma select_by_NaN d : Store.select_employees [Store.eq_emp_id NaN] d = Some [].
Proof.
  unfold Store.select_employees. cbn [Store.compile_all Store.compile].
  rewrite filter_rows_ext with (g := fun _ => Some false).
  - rewrite filter_rows_total. induction (Store.employees d); simpl; auto.
  - intros e. cbn [Store.every_condition]. unfold Store.id_equals.
    now rewrite eqb_NaN.
Qed.

(** C8 (amended). For every search term that is not blank and that
    [parseInt] does not read as an integer, the search by numeric
    identifier validates nothing: its query carries the filter
    [emp_id = NaN], which no row of any store passes, so that when the
    store answers the screen shows no result. *)
Theorem non_numeric_id_search_finds_nothing (st : EmployeeSearch.State) (w : World) :
  EmployeeSearch.searchType st = "empid" ->
  blank (EmployeeSearch.searchTerm st) = false ->
  parseInt (EmployeeSearch.searchTerm st) = NaN ->
  EmployeeSearch.query (EmployeeSearch.searchType st) (EmployeeSearch.searchTerm st)
  = [Store.eq_emp_id NaN]
  /\ (forall d, Store.select_employees [Store.eq_emp_id NaN] d = Some [])
  /\ (next_call_served w ->
      EmployeeSearch.handleSearch (mkSys st w)
      = (mkSys (EmployeeSearch.mkState (EmployeeSearch.searchTerm st)
                                       (EmployeeSearch.searchType st) [] false)
               (mkWorld (db w) (tl (faults w)) (console w) (tz w)),
         Normal tt)).
Proof.
  intros Htype Hterm Hnan.
  assert (Hquery : EmployeeSearch.query (EmployeeSearch.searchType st)
                                        (EmployeeSearch.searchTerm st)
                   = [Store.eq_emp_id NaN]).
  { rewrite Htype. unfold EmployeeSearch.query.
    cbn [String.eqb Ascii.eqb Bool.eqb]. now rewrite Hnan. }
  split; [exact Hquery|]. split; [apply select_by_NaN|].
  intros Hserved. apply handleSearch_served; auto.
  rewrite Hquery. apply select_by_NaN.
Qed.

Lemma non_numeric_id_search_finds_nothing_witness :
  EmployeeSearch.results
    (ui (fst (EmployeeSearch.handleSearch
                (mkSys (EmployeeSearch.mkState "seven" "empid" Sample.employees false)
                       (Sample.world 0)))))
  = [].
Proof.
  rewrite (proj2 (proj2 (non_numeric_id_search_finds_nothing
                           (EmployeeSearch.mkState "seven" "empid" Sample.employees false)
                           (Sample.world 0) eq_refl eq_refl eq_refl)) eq_refl).
  reflexivity.
Defined.

(** C8 as stated fails on a blank term: [parseInt] reads no integer in it,
    yet no query is made and the results shown before stay. *)
Lemma blank_id_search_is_not_run :
  let st := EmployeeSearch.mkState "  " "empid" Sample.employees false in
  parseInt (EmployeeSearch.searchTerm st) = NaN
  /\ EmployeeSearch.handleSearch (mkSys st (Sample.world 0))
     = (mkSys st (Sample.world 0), Normal tt)
  /\ EmployeeSearch.results
       (ui (fst (EmployeeSearch.handleSearch (mkSys st (Sample.world 0))))) <> [].
Proof.
  split; [|split]; vm_compute; [reflexivity|reflexivity|discriminate].
Qed.

(* ===================================================================== *)
(** * The accumulator of the reports *)
(* ===================================================================== *)

Local Open Scope list_scope.

Lemma own_none_not_in acc k : Reports.own acc k = None -> ~ In k (map fst acc).
Proof.
  induction acc as [|[k' g] acc IH]; simpl; [tauto|].
  destruct (String.eqb_spec k' k); [discriminate|]. intros H [Heq|Hin]; [tauto|].
  now apply IH.
Qed.

Lemma own_in acc k g :
  NoDup (map fst acc) -> In (k, g) acc -> Reports.own acc k = Some g.
Proof.
  induction acc as [|[k' g'] acc IH]; simpl; intros Hnd Hin; [tauto|].
  inversion Hnd as [|? ? Hnot Hnd']; subst.
  destruct Hin as [Heq|Hin].
  - inversion Heq; subst. now rewrite String.eqb_refl.
  - destruct (String.eqb_spec k' k) as [->|Hne]; [|now apply IH].
    exfalso. apply Hnot. change k with (fst (k, g)). now apply in_map.
Qed.

Lemma own_app acc l k :
  Reports.own (acc ++ l) k
  = match Reports.own acc k with
    | Some g => Some g
    | None => Reports.own l k
    end.
Proof.
  induction acc as [|[k' g] acc IH]; simpl; [reflexivity|].
  now destruct (k' =? k)%string.
Qed.

Lemma accumulate_none acc k x :
  Reports.own acc k = None -> Reports.accumulate acc k x = acc.
Proof.
  induction acc as [|[k' g] acc IH]; simpl; [reflexivity|].
  destruct (k' =? k)%string; [discriminate|]. intros H. now rewrite IH.
Qed.

Lemma accumulate_app acc l k x :
  Reports.own acc k = None ->
  Reports.accumulate (acc ++ l) k x = (acc ++ Reports.accumulate l k x)%list.
Proof.
  induction acc as [|[k' g] acc IH]; simpl; [reflexivity|].
  destruct (k' =? k)%string; [discriminate|]. intros H. now rewrite IH.
Qed.

Lemma accumulate_keys acc k x :
  map fst (Reports.accumulate acc k x) = map fst acc.
Proof.
  induction acc as [|[k' g] acc IH]; simpl; [reflexivity|].
  destruct (k' =? k)%string; simpl; [reflexivity|]. now rewrite IH.
Qed.

Lemma own_accumulate acc k x k0 :
  Reports.own (Reports.accumulate acc k x) k0
  = match Reports.own acc k0 with
    | Some g =>
        if (k0 =? k)%string
        then Some (Reports.mkGroup (add (Reports.total g) x) (Reports.count g + 1))
        else Some g
    | None => None
    end.
Proof.
  induction acc as [|[k' g] acc IH]; simpl; [reflexivity|].
  destruct (String.eqb_spec k' k) as [->|Hne]; simpl.
  - destruct (String.eqb_spec k k0) as [->|Hne0]; [now rewrite String.eqb_refl|].
    destruct (Reports.own acc k0); [|reflexivity].
    destruct (String.eqb_spec k0 k); [congruence|reflexivity].
  - destruct (String.eqb_spec k' k0) as [->|Hne0]; [|exact IH].
    destruct (String.eqb_spec k0 k); [congruence|reflexivity].
Qed.

(** The reduction step on a key that is not inherited: a group is created
    at the end for a new key, and the group of the key takes the row. *)
Lemma reducer_new acc k x :
  Reports.own acc k = None -> Reports.inherited k = false ->
  Reports.reducer acc k x
  = (acc ++ [(k, Reports.mkGroup (add (of_Z 0) x) 1)])%list.
Proof.
  intros Hown Hinh. unfold Reports.reducer, Reports.absent.
  rewrite Hown, Hinh. cbn [negb]. rewrite accumulate_app by exact Hown.
  cbn [Reports.accumulate]. now rewrite String.eqb_refl.
Qed.

Lemma reducer_known acc k x g :
  Reports.own acc k = Some g ->
  Reports.reducer acc k x = Reports.accumulate acc k x.
Proof.
  intros Hown. unfold Reports.reducer, Reports.absent. now rewrite Hown.
Qed.

(** On an inherited key without own property nothing is recorded. *)
Lemma reducer_inherited acc k x :
  Reports.own acc k = None -> Reports.inherited k = true ->
  Reports.reducer acc k x = acc.
Proof.
  intros Hown Hinh. unfold Reports.reducer, Reports.absent.
  rewrite Hown, Hinh. cbn [negb]. now apply accumulate_none.
Qed.

Lemma grouped_snoc key rows r :
  Reports.grouped key (rows ++ [r])
  = Reports.reducer (Reports.grouped key rows)
      (key (Store.PayRow.employees r)) (Store.PayRow.gross_pay r).
Proof. unfold Reports.grouped. now rewrite fold_left_app. Qed.

(* ===================================================================== *)
(** * Every group has counted a row *)
(* ===================================================================== *)

Lemma accumulate_counted acc k x :
  Forall counted acc -> Forall counted (Reports.accumulate acc k x).
Proof.
  induction 1 as [|[k' g] acc Hg Hacc IH]; simpl; [constructor|].
  destruct (k' =? k)%string; constructor; auto.
  unfold counted in *. simpl in *. lia.
Qed.

Lemma reducer_counted acc k x :
  Forall counted acc -> Forall counted (Reports.reducer acc k x).
Proof.
  intros Hacc. destruct (Reports.own acc k) as [g|] eqn:Hown.
  - rewrite (reducer_known _ _ _ _ Hown). now apply accumulate_counted.
  - destruct (Reports.inherited k) eqn:Hinh.
    + now rewrite reducer_inherited.
    + rewrite reducer_new by assumption.
      apply Forall_app. split; [assumption|].
      constructor; [|constructor]. unfold counted. simpl. lia.
Qed.

Lemma grouped_counted key rows : Forall counted (Reports.grouped key rows).
Proof.
  induction rows as [|r rows IH] using rev_ind; [constructor|].
  rewrite grouped_snoc. now apply reducer_counted.
Qed.

(* ===================================================================== *)
(** * The order of [Object.entries] *)
(* ===================================================================== *)

Lemma insert_index_perm i p l :
  Permutation (Reports.insert_index i p l) ((i, p) :: l).
Proof.
  induction l as [|[j q] l IH]; simpl; [reflexivity|].
  destruct (i <=? j); [reflexivity|].
  rewrite IH. apply perm_swap.
Qed.

Lemma ordered_perm acc :
  Permutation (map snd (fst (Reports.ordered acc)) ++ snd (Reports.ordered acc)) acc.
Proof.
  induction acc as [|p acc IH]; simpl; [reflexivity|].
  destruct (Reports.ordered acc) as [indexed named]. simpl in IH.
  destruct (Reports.array_index (fst p)) as [i|]; simpl.
  - rewrite (Permutation_map snd (insert_index_perm i p indexed)). simpl.
    now constructor.
  - rewrite <- Permutation_middle. now constructor.
Qed.

Lemma Object_entries_perm acc : Permutation (Reports.Object_entries acc) acc.
Proof.
  unfold Reports.Object_entries. pose proof (ordered_perm acc) as H.
  now destruct (Reports.ordered acc).
Qed.

(** C9. Every group that the reduction produces, by job title or by
    division, for every row set, has counted at least one row: its
    [employee_count] is at least 1, so the average
    [Math.round(total_pay / employee_count)] of a table row never has the
    divisor zero. *)
Theorem every_group_has_a_row (rows : list Store.PayRow.t) :
  (forall item, In item (Reports.job_title_report rows) ->
     1 <= PayByJobTitle.employee_count item
     /\ PayByJobTitle.employee_count item <> 0)
  /\ (forall item, In item (Reports.division_report rows) ->
        1 <= PayByDivision.employee_count item
        /\ PayByDivision.employee_count item <> 0).
Proof.
  split; intros item Hin.
  - unfold Reports.job_title_report in Hin.
    apply in_map_iff in Hin as ([k g] & <- & Hin). simpl.
    pose proof (grouped_counted Employee.job_title rows) as Hall.
    rewrite <- (Object_entries_perm _) in Hall.
    rewrite Forall_forall in Hall. specialize (Hall _ Hin).
    unfold counted in Hall. simpl in Hall. lia.
  - unfold Reports.division_report in Hin.
    apply in_map_iff in Hin as ([k g] & <- & Hin). simpl.
    pose proof (grouped_counted Employee.division rows) as Hall.
    rewrite <- (Object_entries_perm _) in Hall.
    rewrite Forall_forall in Hall. specialize (Hall _ Hin).
    unfold counted in Hall. simpl in Hall. lia.
Qed.

(* ===================================================================== *)
(** * What the groups hold *)
(* ===================================================================== *)

Lemma rows_of_snoc key k rows r :
  rows_of key k (rows ++ [r])
  = rows_of key k rows
    ++ (if (key (Store.PayRow.employees r) =? k)%string then [r] else []).
Proof. unfold rows_of. rewrite filter_app. reflexivity. Qed.

Lemma sum_snoc l x : sum (l ++ [x]) = add (sum l) x.
Proof. unfold sum. now rewrite fold_left_app. Qed.

Lemma represents_step key acc rows r :
  represents key acc rows ->
  represents key
    (Reports.reducer acc (key (Store.PayRow.employees r)) (Store.PayRow.gross_pay r))
    (rows ++ [r]).
Proof.
  intros [Hnd Hown].
  set (kr := key (Store.PayRow.employees r)) in *.
  set (x := Store.PayRow.gross_pay r).
  destruct (Reports.own acc kr) as [g|] eqn:Hkr.
  - rewrite (reducer_known _ _ _ _ Hkr). split.
    + now rewrite accumulate_keys.
    + intros k. rewrite own_accumulate, rows_of_snoc. fold kr.
      specialize (Hown k).
      destruct (Reports.own acc k) as [g'|] eqn:Hk.
      * destruct Hown as (Hinh & Htotal & Hcount).
        destruct (String.eqb_spec k kr) as [->|Hne].
        -- rewrite !String.eqb_refl. cbn [Reports.total Reports.count].
           rewrite map_app. cbn [map]. rewrite sum_snoc, length_app, <- Htotal, Hcount.
           cbn [List.length]. repeat split; [assumption|lia].
        -- destruct (String.eqb_spec kr k); [congruence|].
           rewrite app_nil_r. now repeat split.
      * destruct (String.eqb_spec kr k) as [Heq|Hne]; [congruence|].
        now rewrite app_nil_r.
  - destruct (Reports.inherited kr) eqn:Hinh.
    + rewrite reducer_inherited by assumption. split; [assumption|].
      intros k. rewrite rows_of_snoc. fold kr. specialize (Hown k).
      destruct (String.eqb_spec kr k) as [<-|Hne].
      * rewrite Hkr. now right.
      * now rewrite app_nil_r.
    + rewrite reducer_new by assumption. split.
      * rewrite map_app. cbn [map fst].
        apply (Permutation_NoDup (Permutation_cons_append _ _)).
        constructor; [now apply own_none_not_in|assumption].
      * intros k. rewrite own_app, rows_of_snoc. fold kr.
        specialize (Hown k). cbn [Reports.own].
        destruct (Reports.own acc k) as [g'|] eqn:Hk.
        -- destruct (String.eqb_spec kr k) as [Heq|Hne]; [congruence|].
           now rewrite app_nil_r.
        -- destruct (String.eqb_spec kr k) as [<-|Hne].
           ++ destruct Hown as [Hnone|Hyes]; [|congruence].
              rewrite Hnone. cbn [app map List.length Reports.total Reports.count].
              repeat split; assumption.
           ++ now rewrite app_nil_r.
Qed.

Lemma grouped_represents key rows : represents key (Reports.grouped key rows) rows.
Proof.
  induction rows as [|r rows IH] using rev_ind.
  - split; [constructor|]. intros k. now left.
  - rewrite grouped_snoc. now apply represents_step.
Qed.

(* ===================================================================== *)
(** * The counts add up to the number of recorded rows *)
(* ===================================================================== *)

Lemma count_sum_perm l l' : Permutation l l' -> count_sum l = count_sum l'.
Proof. induction 1; simpl in *; lia. Qed.

Lemma count_total_app acc l : count_total (acc ++ l) = count_total acc + count_total l.
Proof.
  unfold count_total, count_sum. rewrite map_app, fold_right_app.
  induction (map _ acc) as [|z zs IH]; simpl; lia.
Qed.

Lemma count_total_accumulate acc k x g :
  Reports.own acc k = Some g ->
  count_total (Reports.accumulate acc k x) = count_total acc + 1.
Proof.
  induction acc as [|[k' g'] acc IH]; simpl; [discriminate|].
  destruct (k' =? k)%string; intros H.
  - unfold count_total, count_sum. simpl. lia.
  - specialize (IH H). unfold count_total, count_sum in *. simpl. lia.
Qed.

Lemma recorded_snoc key rows r :
  recorded key (rows ++ [r])
  = recorded key rows
    ++ (if Reports.inherited (key (Store.PayRow.employees r)) then [] else [r]).
Proof.
  unfold recorded. rewrite filter_app. cbn [filter].
  now destruct (Reports.inherited _).
Qed.

Lemma count_total_grouped key rows :
  count_total (Reports.grouped key rows) = Z.of_nat (List.length (recorded key rows)).
Proof.
  induction rows as [|r rows IH] using rev_ind; [reflexivity|].
  rewrite grouped_snoc, recorded_snoc, length_app, Nat2Z.inj_add, <- IH.
  destruct (grouped_represents key rows) as [_ Hown].
  specialize (Hown (key (Store.PayRow.employees r))).
  destruct (Reports.own (Reports.grouped key rows) (key (Store.PayRow.employees r)))
    as [g|] eqn:Hkr.
  - destruct Hown as (Hinh & _). rewrite Hinh. cbn [List.length].
    rewrite (reducer_known _ _ _ _ Hkr). now apply count_total_accumulate with (g := g).
  - destruct (Reports.inherited (key (Store.PayRow.employees r))) eqn:Hinh.
    + rewrite reducer_inherited by assumption. cbn [List.length]. lia.
    + rewrite reducer_new by assumption. rewrite count_total_app. reflexivity.
Qed.

Lemma recorded_all key rows : no_inherited_key key rows -> recorded key rows = rows.
Proof.
  unfold no_inherited_key, recorded. induction 1 as [|r rows Hr Hrows IH]; [reflexivity|].
  simpl. now rewrite Hr, IH.
Qed.

(** What a report built from the entries of the grouping holds. *)
Lemma report_of_grouping key rows :
  count_total (Reports.Object_entries (Reports.grouped key rows))
  = Z.of_nat (List.length (recorded key rows))
  /\ forall k g,
       In (k, g) (Reports.Object_entries (Reports.grouped key rows)) ->
       Reports.total g = sum (map Store.PayRow.gross_pay (rows_of key k rows))
       /\ Reports.count g = Z.of_nat (List.length (rows_of key k rows)).
Proof.
  split.
  - unfold count_total.
    rewrite (count_sum_perm _ _ (Permutation_map _ (Object_entries_perm _))).
    apply count_total_grouped.
  - intros k g Hin.
    destruct (grouped_represents key rows) as [Hnd Hown].
    apply (Permutation_in _ (Object_entries_perm _)) in Hin.
    specialize (Hown k). rewrite (own_in _ _ _ Hnd Hin) in Hown. tauto.
Qed.

(** C5 (amended). For every fetched row set, in the report by job title
    and in the report by division alike: each group holds the number of the
    rows with its key and, as [total_pay], the sum of their [gross_pay]
    taken in row order from 0 in double precision; and when no grouping
    key is a property name that objects inherit, the [employee_count] of
    the groups add up to the number of rows. *)
Theorem groups_hold_their_rows (rows : list Store.PayRow.t) :
  ((forall item, In item (Reports.job_title_report rows) ->
      let mine := rows_of Employee.job_title (PayByJobTitle.job_title item) rows in
      PayByJobTitle.total_pay item = sum (map Store.PayRow.gross_pay mine)
      /\ PayByJobTitle.employee_count item = Z.of_nat (List.length mine))
   /\ (no_inherited_key Employee.job_title rows ->
       count_sum (map PayByJobTitle.employee_count (Reports.job_title_report rows))
       = Z.of_nat (List.length rows)))
  /\ ((forall item, In item (Reports.division_report rows) ->
         let mine := rows_of Employee.division (PayByDivision.division item) rows in
         PayByDivision.total_pay item = sum (map Store.PayRow.gross_pay mine)
         /\ PayByDivision.employee_count item = Z.of_nat (List.length mine))
      /\ (no_inherited_key Employee.division rows ->
          count_sum (map PayByDivision.employee_count (Reports.division_report rows))
          = Z.of_nat (List.length rows))).
Proof.
  split.
  - destruct (report_of_grouping Employee.job_title rows) as [Hcount Hgroups].
    split.
    + intros item Hin. unfold Reports.job_title_report in Hin.
      apply in_map_iff in Hin as ([k g] & <- & Hin). now apply Hgroups.
    + intros Hrows. rewrite <- (recorded_all _ _ Hrows) at 2. rewrite <- Hcount.
      unfold Reports.job_title_report, count_total.
      rewrite map_map. f_equal. apply map_ext. now intros [k g].
  - destruct (report_of_grouping Employee.division rows) as [Hcount Hgroups].
    split.
    + intros item Hin. unfold Reports.division_report in Hin.
      apply in_map_iff in Hin as ([k g] & <- & Hin). now apply Hgroups.
    + intros Hrows. rewrite <- (recorded_all _ _ Hrows) at 2. rewrite <- Hcount.
      unfold Reports.division_report, count_total.
      rewrite map_map. f_equal. apply map_ext. now intros [k g].
Qed.

Lemma every_group_has_a_row_witness :
  1 <= PayByJobTitle.employee_count
         (PayByJobTitle.mk "Software Engineer" (of_decimal 576924 (-2)) 2).
Proof.
  apply (proj1 (every_group_has_a_row Sample.rows)).
  vm_compute. left. reflexivity.
Defined.

Lemma groups_hold_their_rows_witness :
  count_sum (map PayByJobTitle.employee_count (Reports.job_title_report Sample.rows))
  = 16.
Proof.
  assert (H : no_inherited_key Employee.job_title Sample.rows)
    by (repeat constructor).
  exact (proj2 (proj1 (groups_hold_their_rows Sample.rows)) H).
Defined.

(** C5 as stated fails. Three rows with the gross pay 0.10 for a clerk and
    0.20 and 0.30 for two drivers give the totals 0.1 and 0.5, which add up
    to 0.6, where the gross pays add up to 0.6000000000000001. On the
    sample data of January 2024 the totals by division do not add up to
    the sum of the gross pay of the statements either, whether the sums
    are taken in double precision or exactly. And a row whose job title is
    [constructor] is in no group, so that the counts add up to 0 for one
    row. *)
Lemma report_totals_are_not_conserved :
  (let rows := [Sample.row "Clerk" 10; Sample.row "Driver" 20; Sample.row "Driver" 30] in
   map PayByJobTitle.total_pay (Reports.job_title_report rows)
   = [of_decimal 1 (-1); of_decimal 5 (-1)]
   /\ sum (map PayByJobTitle.total_pay (Reports.job_title_report rows))
      = of_decimal 6 (-1)
   /\ sum (map Store.PayRow.gross_pay rows) = of_decimal 6000000000000001 (-16)
   /\ of_decimal 6 (-1) <> of_decimal 6000000000000001 (-16))
  /\ (sum (map PayByDivision.total_pay (Reports.division_report Sample.rows))
      <> sum (map Store.PayRow.gross_pay Sample.rows)
      /\ exact_sum (map PayByDivision.total_pay (Reports.division_report Sample.rows))
         <> exact_sum (map Store.PayRow.gross_pay Sample.rows))
  /\ (let rows := [Sample.row "constructor" 10000] in
      Reports.job_title_report rows = []
      /\ count_sum (map PayByJobTitle.employee_count (Reports.job_title_report rows))
         <> Z.of_nat (List.length rows)).
Proof.
  split; [|split]; [split; [|split; [|split]] | split | split].
  - vm_compute. reflexivity.
  - vm_compute. reflexivity.
  - vm_compute. reflexivity.
  - intros H. vm_compute in H. discriminate H.
  - intros H. vm_compute in H. discriminate H.
  - apply Z.eqb_neq. vm_compute. reflexivity.
  - vm_compute. reflexivity.
  - vm_compute. discriminate.
Qed.

(* ===================================================================== *)
(** * Runs of the report fetches *)
(* ===================================================================== *)

Lemma ISOString_run (d : Date) (text : string) (s : Sys Reports.State) :
  toISOString d = Some text -> Reports.ISOString d s = (s, Normal text).
Proof. intros H. unfold Reports.ISOString. now rewrite H. Qed.

Lemma fetch_failed_response (st : Reports.State) (w : World) fs :
  hd false (faults w) = true \/ Store.select_pay fs (db w) = None ->
  exists e,
    select_pay fs (mkSys st w)
    = (mkSys st (mkWorld (db w) (tl (faults w)) (console w) (tz w)),
       Normal (mkResponse None (Some e))).
Proof.
  intros Hfail. unfold select_pay.
  destruct (hd false (faults w)) eqn:Hhd.
  - rewrite request_failed by exact Hhd. eexists. reflexivity.
  - destruct Hfail as [Hfail|Hnone]; [discriminate|].
    rewrite request_rejected;
      [| exact Hhd | cbv beta; cbn [world ui]; rewrite Hnone; reflexivity ].
    eexists. reflexivity.
Qed.

(** The steps of a report fetch whose dates are valid and whose request
    fails: the bounds are printed, the request is made, the error is
    thrown, caught and logged, and the loading flag is cleared. *)
Ltac fetch_fails from to He :=
  unfold getState, Reports.setLoading, setState, try_catch_finally, timezone;
  rewrite !bind_run; cbn [ui world fst snd];
  rewrite (ISOString_run _ from) by assumption;
  rewrite bind_run, (ISOString_run _ to) by assumption;
  rewrite bind_run; fold (month_filters from to); rewrite He; reflexivity.

Lemma fetchPayByJobTitle_failed (st : Reports.State) (w : World) from to :
  toISOString (Reports.startDate (Reports.selectedMonth st)) = Some from ->
  toISOString (Reports.endDate (tz w) (Reports.selectedMonth st)) = Some to ->
  hd false (faults w) = true \/ Store.select_pay (month_filters from to) (db w) = None ->
  exists e,
    Reports.fetchPayByJobTitle (mkSys st w)
    = (mkSys (loaded st)
             (mkWorld (db w) (tl (faults w))
                      (console w ++ [("Error fetching pay by job title:", e)]) (tz w)),
       Normal tt).
Proof.
  intros Hfrom Hto Hfail.
  destruct (fetch_failed_response
              (Reports.mkState (Reports.activeReport st) (Reports.employees st)
                 (Reports.payStatements st) (Reports.payByJobTitle st)
                 (Reports.payByDivision st) (Reports.selectedMonth st) true)
              w _ Hfail) as [e He].
  exists e. unfold Reports.fetchPayByJobTitle. fetch_fails from to He.
Qed.

Lemma fetchPayByDivision_failed (st : Reports.State) (w : World) from to :
  toISOString (Reports.startDate (Reports.selectedMonth st)) = Some from ->
  toISOString (Reports.endDate (tz w) (Reports.selectedMonth st)) = Some to ->
  hd false (faults w) = true \/ Store.select_pay (month_filters from to) (db w) = None ->
  exists e,
    Reports.fetchPayByDivision (mkSys st w)
    = (mkSys (loaded st)
             (mkWorld (db w) (tl (faults w))
                      (console w ++ [("Error fetching pay by division:", e)]) (tz w)),
       Normal tt).
Proof.
  intros Hfrom Hto Hfail.
  destruct (fetch_failed_response
              (Reports.mkState (Reports.activeReport st) (Reports.employees st)
                 (Reports.payStatements st) (Reports.payByJobTitle st)
                 (Reports.payByDivision st) (Reports.selectedMonth st) true)
              w _ Hfail) as [e He].
  exists e. unfold Reports.fetchPayByDivision. fetch_fails from to He.
Qed.

(** C7 (amended). For every query of a search or of a report fetch that
    fails in the store (the call fails or the request is rejected), the
    error is logged and otherwise swallowed: the handler ends normally,
    the loading flag is cleared, one line is added to the console, and the
    results or the report rows shown before the query are kept as they
    were, so that the screen is empty only if it was empty before. *)
Theorem failed_query_is_logged_and_keeps_the_screen :
  (forall (st : EmployeeSearch.State) (w : World),
      blank (EmployeeSearch.searchTerm st) = false ->
      hd false (faults w) = true
      \/ Store.select_employees
           (EmployeeSearch.query (EmployeeSearch.searchType st)
                                 (EmployeeSearch.searchTerm st)) (db w) = None ->
      exists e,
        EmployeeSearch.handleSearch (mkSys st w)
        = (mkSys (EmployeeSearch.mkState (EmployeeSearch.searchTerm st)
                    (EmployeeSearch.searchType st) (EmployeeSearch.results st) false)
                 (mkWorld (db w) (tl (faults w))
                          (console w ++ [("Error searching employees:", e)]) (tz w)),
           Normal tt))
  /\ (forall (st : Reports.State) (w : World) from to,
         toISOString (Reports.startDate (Reports.selectedMonth st)) = Some from ->
         toISOString (Reports.endDate (tz w) (Reports.selectedMonth st)) = Some to ->
         hd false (faults w) = true
         \/ Store.select_pay (month_filters from to) (db w) = None ->
         (exists e,
             Reports.fetchPayByJobTitle (mkSys st w)
             = (mkSys (loaded st)
                      (mkWorld (db w) (tl (faults w))
                         (console w ++ [("Error fetching pay by job title:", e)])
                         (tz w)),
                Normal tt))
         /\ (exists e,
                Reports.fetchPayByDivision (mkSys st w)
                = (mkSys (loaded st)
                         (mkWorld (db w) (tl (faults w))
                            (console w ++ [("Error fetching pay by division:", e)])
                            (tz w)),
                   Normal tt))).
Proof.
  split.
  - intros st w Hterm Hfail. now apply handleSearch_failed.
  - intros st w from to Hfrom Hto Hfail. split.
    + now apply fetchPayByJobTitle_failed with (from := from) (to := to).
    + now apply fetchPayByDivision_failed with (from := from) (to := to).
Qed.

Lemma failed_query_is_logged_and_keeps_the_screen_witness :
  exists e,
    EmployeeSearch.handleSearch
      (mkSys (EmployeeSearch.mkState "Smith" "name" Sample.employees false)
             (mkWorld Sample.database [true] [] 0))
    = (mkSys (EmployeeSearch.mkState "Smith" "name" Sample.employees false)
             (mkWorld Sample.database [] [("Error searching employees:", e)] 0),
       Normal tt).
Proof.
  exact (proj1 failed_query_is_logged_and_keeps_the_screen
               (EmployeeSearch.mkState "Smith" "name" Sample.employees false)
               (mkWorld Sample.database [true] [] 0)
               eq_refl (or_introl eq_refl)).
Defined.

(** C7 as stated fails: with an employee shown from an earlier search, a
    query that fails leaves that employee on the screen, where the same
    screen after a query without results is empty; and a report fetch
    that fails leaves the rows of the report shown before. *)
Lemma failed_search_keeps_earlier_results :
  let shown := firstn 1 Sample.employees in
  let report := [PayByJobTitle.mk "Accountant" (of_Z 4000) 2] in
  EmployeeSearch.results
    (ui (fst (EmployeeSearch.handleSearch
                (mkSys (EmployeeSearch.mkState "Smith" "name" shown false)
                       (mkWorld Sample.database [true] [] 0)))))
  = shown
  /\ shown <> []
  /\ EmployeeSearch.results
       (ui (fst (EmployeeSearch.handleSearch
                   (mkSys (EmployeeSearch.mkState "Zed" "name" shown false)
                          (Sample.world 0)))))
     = []
  /\ Reports.payByJobTitle
       (ui (fst (Reports.fetchPayByJobTitle
                   (mkSys (Reports.mkState "pay-by-title" [] [] report [] "2024-01" false)
                          (mkWorld Sample.database [true] [] 0)))))
     = report.
Proof.
  split; [|split; [|split]]; vm_compute;
    [reflexivity|discriminate|reflexivity|reflexivity].
Qed.

(** C4, on the code. For the month 2024-01 and the sample data (two
    half-month statements per employee, 01-01 to 01-15 and 01-16 to
    01-31): in a browser on UTC the upper bound is January 31 and all 16
    statements are fetched; five hours west of UTC the upper bound is
    December 31 of 2023 and nothing is fetched, so the report shown is
    replaced by an empty one; one hour east of UTC the upper bound is
    January 30 and the 8 statements that end on January 31 are left
    out. *)
Theorem month_bounds_follow_the_time_zone :
  toISOString (Reports.startDate "2024-01") = Some "2024-01-01T00:00:00.000Z"
  /\ (toISOString (Reports.endDate 0 "2024-01") = Some "2024-01-31T00:00:00.000Z"
      /\ Store.select_pay
           (month_filters "2024-01-01T00:00:00.000Z" "2024-01-31T00:00:00.000Z")
           Sample.database
         = Some Sample.rows)
  /\ (toISOString (Reports.endDate (-300) "2024-01") = Some "2023-12-31T05:00:00.000Z"
      /\ Store.select_pay
           (month_filters "2024-01-01T00:00:00.000Z" "2023-12-31T05:00:00.000Z")
           Sample.database
         = Some []
      /\ Reports.fetchPayByJobTitle
           (mkSys (Reports.mkState "pay-by-title" [] []
                     [PayByJobTitle.mk "Accountant" (of_Z 4000) 2] [] "2024-01" false)
                  (Sample.world (-300)))
         = (mkSys (Reports.mkState "pay-by-title" [] [] [] [] "2024-01" false)
                  (Sample.world (-300)),
            Normal tt))
  /\ (toISOString (Reports.endDate 60 "2024-01") = Some "2024-01-30T23:00:00.000Z"
      /\ option_map (@List.length _)
           (Store.select_pay
              (month_filters "2024-01-01T00:00:00.000Z" "2024-01-30T23:00:00.000Z")
              Sample.database)
         = Some 8%nat).
Proof.
  vm_compute. repeat split.
Qed.

(* ===================================================================== *)
(** * Every run of the salary adjustment *)
(* ===================================================================== *)

Lemma served_nil n : served [] n = n.
Proof. now destruct n. Qed.

Lemma served_le l n : (served l n <= n)%nat.
Proof.
  revert l. induction n as [|n IH]; intros l; [simpl; lia|].
  destruct l as [|[] l]; simpl; [lia|lia|]. specialize (IH l). lia.
Qed.


(** The update loop under any failures: the updates are made in order up
    to the first that fails, which is thrown. *)
Lemma update_loop_any pinc (sel : list Employee.t) :
  forall (u : SalaryAdjustments.State) (w : World),
    let j := served (faults w) (List.length sel) in
    for_of
      (map (fun emp => SalaryAdjustments.mkUpdate (Employee.emp_id emp)
                         (SalaryAdjustments.new_salary pinc emp)) sel)
      (fun update =>
         bind (update_salary (SalaryAdjustments.salary update)
                             (SalaryAdjustments.emp_id update))
              (fun answer => throw_if (error answer)))
      (mkSys u w)
    = (mkSys u
         (mkWorld
            (Store.mkDatabase
               (apply_updates (SalaryAdjustments.new_salary pinc) (firstn j sel)
                              (Store.employees (db w)))
               (Store.pay_statements (db w)))
            (skipn (calls_made (faults w) (List.length sel)) (faults w))
            (console w) (tz w)),
       if (j =? List.length sel)%nat then Normal tt
       else Throw (StoreError "request failed")).
Proof.
  induction sel as [|emp sel IH]; intros u w.
  - destruct w as [[emps pays] l c z]. reflexivity.
  - destruct w as [d l c z]. destruct l as [|[] l].
    + (* no failure left *)
      cbn [for_of map]. rewrite !bind_run. unfold update_salary.
      rewrite (request_served _ (mkSys u (mkWorld d [] c z))
                 (Store.update_salary (SalaryAdjustments.new_salary pinc emp)
                                      (Employee.emp_id emp) d) tt eq_refl eq_refl).
      cbn [error throw_if ret world ui faults db console tz tl].
      rewrite IH. cbn [faults db console tz Store.employees Store.pay_statements
                         Store.update_salary].
      unfold calls_made. rewrite !served_nil, !Nat.ltb_irrefl, !Nat.eqb_refl.
      rewrite !firstn_all, !skipn_nil. reflexivity.
    + (* the update fails *)
      cbn [for_of map]. rewrite !bind_run. unfold update_salary.
      rewrite request_failed by reflexivity.
      destruct d as [emps pays]. reflexivity.
    + (* the update is served *)
      cbn [for_of map]. rewrite !bind_run. unfold update_salary.
      rewrite (request_served _ (mkSys u (mkWorld d (false :: l) c z))
                 (Store.update_salary (SalaryAdjustments.new_salary pinc emp)
                                      (Employee.emp_id emp) d) tt eq_refl eq_refl).
      cbn [error throw_if ret world ui faults db console tz tl].
      rewrite IH. cbn [faults db console tz Store.employees Store.pay_statements
                         Store.update_salary List.length served firstn].
      unfold calls_made. cbn [served List.length].
      change (S (served l (List.length sel)) <? S (List.length sel))%nat
        with (served l (List.length sel) <? List.length sel)%nat.
      change (S (served l (List.length sel)) =? S (List.length sel))%nat
        with (served l (List.length sel) =? List.length sel)%nat.
      destruct (served l (List.length sel) <? List.length sel)%nat; reflexivity.
Qed.

Lemma ret_run {U A} (a : A) (s : Sys U) : ret a s = (s, Normal a).
Proof. reflexivity. Qed.

Lemma handleSubmit_fetch_failed (form : SalaryAdjustments.State) (w : World) :
  hd false (faults w) = true ->
  SalaryAdjustments.handleSubmit (mkSys form w)
  = (mkSys (settled form (SalaryAdjustments.mkResult 0 SalaryAdjustments.error_message))
           (mkWorld (db w) (tl (faults w))
                    (console w ++ [("Error updating salaries:",
                                    StoreError "request failed")]) (tz w)),
     Normal tt).
Proof.
  intros Hfail.
  unfold SalaryAdjustments.handleSubmit, try_catch_finally,
    SalaryAdjustments.setLoading, SalaryAdjustments.setResult, getState, setState.
  rewrite !bind_run. cbn [ui world fst snd].
  unfold select_employees. rewrite request_failed by exact Hfail.
  reflexivity.
Qed.

Lemma handleSubmit_nobody (form : SalaryAdjustments.State) (w : World) :
  next_call_served w ->
  selected form w = [] ->
  SalaryAdjustments.handleSubmit (mkSys form w)
  = (mkSys (settled form
              (SalaryAdjustments.mkResult 0 SalaryAdjustments.no_employees_message))
           (mkWorld (db w) (tl (faults w)) (console w) (tz w)),
     Normal tt).
Proof.
  intros Hserved Hsel.
  unfold SalaryAdjustments.handleSubmit, try_catch_finally,
    SalaryAdjustments.setLoading, SalaryAdjustments.setResult, getState, setState.
  rewrite !bind_run. cbn [ui world fst snd].
  unfold select_employees.
  erewrite request_served;
    [| exact Hserved
     | cbv beta; cbn [world]; rewrite select_salary_range; fold (selected form w);
       rewrite Hsel; reflexivity ].
  reflexivity.
Qed.

Lemma handleSubmit_updates (form : SalaryAdjustments.State) (w : World) :
  next_call_served w ->
  selected form w <> [] ->
  let sel := selected form w in
  let j := served (tl (faults w)) (List.length sel) in
  let after :=
    Store.mkDatabase
      (apply_updates (raised form) (firstn j sel) (Store.employees (db w)))
      (Store.pay_statements (db w)) in
  SalaryAdjustments.handleSubmit (mkSys form w)
  = if (j =? List.length sel)%nat
    then (mkSys (SalaryAdjustments.mkState "" "" "" false
                   (Some (SalaryAdjustments.mkResult (List.length sel)
                            (SalaryAdjustments.success_message
                               (List.length sel) (SalaryAdjustments.percentage form)))))
                (mkWorld after (skipn (S (List.length sel)) (faults w))
                         (console w) (tz w)),
          Normal tt)
    else (mkSys (settled form
                   (SalaryAdjustments.mkResult 0 SalaryAdjustments.error_message))
                (mkWorld after (skipn (S (S j)) (faults w))
                         (console w ++ [("Error updating salaries:",
                                         StoreError "request failed")]) (tz w)),
          Normal tt).
Proof.
  intros Hserved Hsel sel j after.
  unfold SalaryAdjustments.handleSubmit, try_catch_finally,
    SalaryAdjustments.setLoading, SalaryAdjustments.setResult, getState, setState.
  rewrite !bind_run. cbn [ui world fst snd].
  unfold select_employees.
  erewrite request_served;
    [| exact Hserved
     | cbv beta; cbn [world]; rewrite select_salary_range; reflexivity ].
  cbn [error data throw_if world ui]. rewrite bind_run, ret_run.
  cbn [SalaryAdjustments.percentage SalaryAdjustments.minSalary
       SalaryAdjustments.maxSalary SalaryAdjustments.loading
       SalaryAdjustments.result].
  fold (selected form w). fold sel.
  destruct sel as [|e sel'] eqn:Esel; [now elim Hsel|].
  cbv beta iota. rewrite !bind_run. rewrite update_loop_any.
  cbn [faults db console tz world ui Store.employees Store.pay_statements].
  fold (raised form). fold j.
  unfold calls_made. fold j.
  assert (Hle : (j <= List.length (e :: sel'))%nat) by apply served_le.
  destruct (Nat.eqb_spec j (List.length (e :: sel'))) as [Heq|Hne].
  - rewrite Heq, Nat.ltb_irrefl.
    unfold after. rewrite Heq.
    destruct (faults w) as [|b l]; [rewrite !skipn_nil|]; reflexivity.
  - assert (Hlt : (j <? List.length (e :: sel'))%nat = true)
      by (apply Nat.ltb_lt; lia).
    rewrite Hlt. unfold console_error, SalaryAdjustments.setResult, setState.
    rewrite !bind_run. cbn [ui world faults db console tz].
    unfold after, settled.
    destruct (faults w) as [|b l]; [rewrite !skipn_nil|]; reflexivity.
Qed.

Lemma served_reliable l n : Forall (fun b => b = false) l -> served l n = n.
Proof.
  revert l. induction n as [|n IH]; intros l Hl; [reflexivity|].
  destruct l as [|b l]; [reflexivity|]. inversion Hl; subst. simpl. now rewrite IH.
Qed.

(** X1. When no store call fails and some employee is in the range, the
    submission reports as affected the number of employees in the range,
    with the message that names that number and the percentage as typed;
    it empties the three fields, clears the loading flag, logs nothing and
    has made one store call for the fetch and one per employee. *)
Theorem successful_submission_reports_and_resets
  (form : SalaryAdjustments.State) (w : World) :
  reliable w ->
  selected form w <> [] ->
  let n := List.length (selected form w) in
  let '(s, outcome) := SalaryAdjustments.handleSubmit (mkSys form w) in
  outcome = Normal tt
  /\ ui s = SalaryAdjustments.mkState "" "" "" false
              (Some (SalaryAdjustments.mkResult n
                       ("Successfully updated " ++ string_of_nat n
                        ++ " employee(s) with a " ++ SalaryAdjustments.percentage form
                        ++ "% salary increase.")%string))
  /\ console (world s) = console w
  /\ faults (world s) = skipn (S n) (faults w).
Proof.
  intros Hrel Hsel n.
  rewrite (handleSubmit_updates form w (reliable_served _ Hrel) Hsel).
  rewrite served_reliable.
  - rewrite Nat.eqb_refl. repeat split.
  - unfold reliable in Hrel. destruct (faults w); [constructor|]. now inversion Hrel.
Qed.

Lemma successful_submission_reports_and_resets_witness :
  SalaryAdjustments.result
    (ui (fst (SalaryAdjustments.handleSubmit (mkSys Scenario.form Scenario.world))))
  = Some (SalaryAdjustments.mkResult 2
            "Successfully updated 2 employee(s) with a 3.2% salary increase.").
Proof.
  assert (Hrel : reliable Scenario.world) by constructor.
  assert (Hsel : selected Scenario.form Scenario.world <> [])
    by (vm_compute; discriminate).
  pose proof (successful_submission_reports_and_resets
                Scenario.form Scenario.world Hrel Hsel) as H.
  destruct (SalaryAdjustments.handleSubmit (mkSys Scenario.form Scenario.world))
    as [s outcome].
  destruct H as (_ & Hui & _). cbn [fst]. rewrite Hui. reflexivity.
Defined.

Lemma unique_by_id (rows : list Employee.t) a b :
  NoDup (map Employee.emp_id rows) -> In a rows -> In b rows ->
  Employee.emp_id a = Employee.emp_id b -> a = b.
Proof.
  induction rows as [|r rows IH]; simpl; intros Hnd Ha Hb Heq; [tauto|].
  inversion Hnd as [|? ? Hnot Hnd']; subst.
  destruct Ha as [->|Ha], Hb as [->|Hb]; auto.
  - exfalso. apply Hnot. rewrite Heq. now apply in_map.
  - exfalso. apply Hnot. rewrite <- Heq. now apply in_map.
Qed.

Lemma in_first {A : Type} (j : nat) (l : list A) (x : A) :
  In x (firstn j l) -> In x l.
Proof.
  intros H. rewrite <- (firstn_skipn j l). apply in_or_app. now left.
Qed.

Lemma keys_of_first_distinct (j : nat) (sel : list Employee.t) :
  NoDup (map Employee.emp_id sel) -> NoDup (map Employee.emp_id (firstn j sel)).
Proof.
  revert j. induction sel as [|s sel IH]; intros j Hnd.
  - rewrite firstn_nil. constructor.
  - destruct j as [|j]; [constructor|]. inversion Hnd as [|? ? Hnot Hnd']; subst.
    cbn [firstn map]. constructor; [|now apply IH].
    intros Hin. apply Hnot. apply in_map_iff in Hin as (x & Hx & Hin).
    apply in_map_iff. exists x. split; [assumption|]. now apply in_first in Hin.
Qed.

(** After the updates for the first [j] selected rows, a row has its raise
    when it is one of them and is as it was otherwise. *)
Lemma updates_of_first f (p : Employee.t -> bool) (rows : list Employee.t) j E :
  NoDup (map Employee.emp_id rows) ->
  In E rows ->
  find (fun x => Employee.emp_id x =? Employee.emp_id E)
       (apply_updates f (firstn j (filter p rows)) rows)
  = Some (if existsb (fun x => Employee.emp_id x =? Employee.emp_id E)
                      (firstn j (filter p rows))
          then Employee.with_salary (f E) E else E).
Proof.
  intros Hnd HE.
  rewrite apply_updates_spec
    by (apply keys_of_first_distinct; now apply selected_keys_distinct).
  rewrite find_by_id_map with (e := E); auto.
  - f_equal.
    destruct (find (fun s => Employee.emp_id s =? Employee.emp_id E)
                   (firstn j (filter p rows))) as [s|] eqn:Hfind.
    + apply find_some in Hfind as [Hin Hid]. apply Z.eqb_eq in Hid.
      assert (Hrows : In s rows).
      { apply in_first in Hin. now apply filter_In in Hin as [Hin _]. }
      rewrite (unique_by_id rows s E Hnd Hrows HE Hid).
      replace (existsb _ _) with true; [reflexivity|].
      symmetry. apply existsb_exists. exists s. split; [assumption|].
      now apply Z.eqb_eq.
    + replace (existsb _ _) with false; [reflexivity|].
      symmetry. apply not_true_is_false. intros Hex.
      apply existsb_exists in Hex as (x & Hx & Hid).
      now rewrite (find_none _ _ Hfind x Hx) in Hid.
  - intros x. now destruct (find _ _).
Qed.

(** X2. When the fetch is served and the update of the selected employee
    number [j] (counted from 0) is the first store call to fail, the
    submission stops there and undoes nothing: the [j] employees before it
    keep their raise and every other employee keeps the salary it had; the
    screen reports 0 affected with the error message and keeps the form,
    the error is logged, and no further store call is made. *)
Theorem failed_update_leaves_earlier_raises
  (form : SalaryAdjustments.State) (w : World) :
  NoDup (map Employee.emp_id (Store.employees (db w))) ->
  next_call_served w ->
  let sel := selected form w in
  let j := served (tl (faults w)) (List.length sel) in
  (j < List.length sel)%nat ->
  let p := parseFloat (SalaryAdjustments.percentage form) in
  let '(s, outcome) := SalaryAdjustments.handleSubmit (mkSys form w) in
  outcome = Normal tt
  /\ ui s = SalaryAdjustments.mkState
              (SalaryAdjustments.percentage form) (SalaryAdjustments.minSalary form)
              (SalaryAdjustments.maxSalary form) false
              (Some (SalaryAdjustments.mkResult 0
                       "Error updating salaries. Please try again."))
  /\ console (world s)
     = console w ++ [("Error updating salaries:", StoreError "request failed")]
  /\ faults (world s) = skipn (S (S j)) (faults w)
  /\ Store.pay_statements (db (world s)) = Store.pay_statements (db w)
  /\ forall E, In E (Store.employees (db w)) ->
       Store.employee_by_id (db (world s)) (Employee.emp_id E)
       = Some (if existsb (fun x => Employee.emp_id x =? Employee.emp_id E)
                           (firstn j sel)
               then Employee.with_salary
                      (Math_round (mul (Employee.salary E)
                                       (add (of_Z 1) (div p (of_Z 100))))) E
               else E).
Proof.
  intros Hnd Hserved sel j Hj p.
  assert (Hsel : selected form w <> []).
  { fold sel. destruct sel; [simpl in Hj; lia|discriminate]. }
  rewrite (handleSubmit_updates form w Hserved Hsel). fold sel j.
  replace (j =? List.length sel)%nat with false
    by (symmetry; apply Nat.eqb_neq; lia).
  repeat split. intros E HE.
  apply (updates_of_first (raised form) _ _ j E Hnd HE).
Qed.

Lemma failed_update_leaves_earlier_raises_witness :
  map Employee.salary
      (Store.employees
         (db (world (fst (SalaryAdjustments.handleSubmit
                            (mkSys Scenario.form
                                   (mkWorld (db Scenario.world) [false; false; true]
                                            [] 0)))))))
  = [of_Z 59856; of_Z 104999; of_Z 105000].
Proof.
  assert (Hnd : NoDup (map Employee.emp_id (Store.employees (db Scenario.world)))).
  { simpl. repeat constructor; simpl; intuition discriminate. }
  pose proof (failed_update_leaves_earlier_raises Scenario.form
                (mkWorld (db Scenario.world) [false; false; true] [] 0)
                Hnd eq_refl) as H.
  cbv zeta in H. specialize (H ltac:(vm_compute; lia)).
  vm_compute. reflexivity.
Defined.

(** X3. Whatever the form holds and whatever the store does, a submission
    ends normally, with the loading flag cleared and a result on the
    screen: no error of the store escapes the handler. *)
Theorem submission_always_settles (form : SalaryAdjustments.State) (w : World) :
  let '(s, outcome) := SalaryAdjustments.handleSubmit (mkSys form w) in
  outcome = Normal tt
  /\ SalaryAdjustments.loading (ui s) = false
  /\ SalaryAdjustments.result (ui s) <> None.
Proof.
  destruct (hd false (faults w)) eqn:Hhd.
  - rewrite handleSubmit_fetch_failed by exact Hhd. repeat split. discriminate.
  - destruct (selected form w) as [|e sel] eqn:Hsel.
    + rewrite (handleSubmit_nobody form w Hhd Hsel). repeat split. discriminate.
    + rewrite (handleSubmit_updates form w Hhd) by (rewrite Hsel; discriminate).
      destruct (_ =? _)%nat; repeat split; discriminate.
Qed.






(** X5. A positive count of affected employees is only ever shown after a
    complete adjustment: then the count is the number of employees that
    were in the range, each of their updates was made, and nothing was
    logged. (The screen shows its green panel and the count exactly when
    the count is positive.) *)
Theorem positive_count_means_all_updated
  (form : SalaryAdjustments.State) (w : World) (r : SalaryAdjustments.Result) :
  let '(s, _) := SalaryAdjustments.handleSubmit (mkSys form w) in
  SalaryAdjustments.result (ui s) = Some r ->
  (0 < SalaryAdjustments.affected r)%nat ->
  SalaryAdjustments.affected r = List.length (selected form w)
  /\ Store.employees (db (world s))
     = apply_updates (raised form) (selected form w) (Store.employees (db w))
  /\ console (world s) = console w
  /\ SalaryAdjustments.percentage (ui s) = EmptyString.
Proof.
  destruct (hd false (faults w)) eqn:Hhd.
  - rewrite handleSubmit_fetch_failed by exact Hhd. cbn.
    intros H; inversion H; subst; simpl; lia.
  - destruct (selected form w) as [|e sel] eqn:Hsel.
    + rewrite (handleSubmit_nobody form w Hhd Hsel). cbn.
      intros H; inversion H; subst; simpl; lia.
    + rewrite (handleSubmit_updates form w Hhd) by (rewrite Hsel; discriminate).
      rewrite Hsel.
      destruct (Nat.eqb_spec (served (tl (faults w)) (List.length (e :: sel)))
                             (List.length (e :: sel))) as [Heq|Hne].
      * cbn [ui world db console SalaryAdjustments.result Store.employees
             SalaryAdjustments.percentage].
        intros H _. inversion H; subst. cbn [SalaryAdjustments.affected].
        rewrite Heq, firstn_all. repeat split.
      * cbn [ui SalaryAdjustments.result settled].
        intros H; inversion H; subst; simpl; lia.
Qed.

Lemma positive_count_means_all_updated_witness :
  Store.employees
    (db (world (fst (SalaryAdjustments.handleSubmit (mkSys Scenario.form Scenario.world)))))
  = apply_updates (raised Scenario.form) (selected Scenario.form Scenario.world)
      (Store.employees (db Scenario.world)).
Proof.
  pose proof (positive_count_means_all_updated Scenario.form Scenario.world
                (SalaryAdjustments.mkResult 2
                   "Successfully updated 2 employee(s) with a 3.2% salary increase."))
    as H.
  destruct (SalaryAdjustments.handleSubmit (mkSys Scenario.form Scenario.world))
    as [s outcome] eqn:Hrun.
  assert (Hres : SalaryAdjustments.result (ui s)
                 = Some (SalaryAdjustments.mkResult 2
                           "Successfully updated 2 employee(s) with a 3.2% salary increase.")).
  { apply (f_equal fst) in Hrun. cbn [fst] in Hrun. rewrite <- Hrun.
    vm_compute. reflexivity. }
  exact (proj1 (proj2 (H Hres ltac:(simpl; lia)))).
Defined.

(* ===================================================================== *)
(** * Every run of the search *)
(* ===================================================================== *)

Lemma handleSearch_blank (st : EmployeeSearch.State) (w : World) :
  blank (EmployeeSearch.searchTerm st) = true ->
  EmployeeSearch.handleSearch (mkSys st w) = (mkSys st w, Normal tt).
Proof.
  intros Hblank.
  unfold EmployeeSearch.handleSearch, getState. rewrite bind_run.
  cbn [ui world]. now rewrite (trim_blank _ Hblank).
Qed.

Lemma filter_rows_keeps {A : Type} (test : A -> option bool) (rows l : list A) :
  Store.filter_rows test rows = Some l -> l = filter (keeps test) rows.
Proof.
  revert l. induction rows as [|r rows IH]; simpl; intros l H.
  - now inversion H.
  - unfold keeps at 1. destruct (test r) as [b|]; [|discriminate].
    destruct (Store.filter_rows test rows) as [rest|]; [|discriminate].
    inversion H; subst. rewrite (IH rest eq_refl). now destruct b.
Qed.

(** The three ways a search ends. *)
Lemma handleSearch_cases (st : EmployeeSearch.State) (w : World) :
  EmployeeSearch.handleSearch (mkSys st w) = (mkSys st w, Normal tt)
  \/ (exists rows,
         Store.select_employees
           (EmployeeSearch.query (EmployeeSearch.searchType st)
                                 (EmployeeSearch.searchTerm st)) (db w) = Some rows
         /\ EmployeeSearch.handleSearch (mkSys st w)
            = (mkSys (EmployeeSearch.mkState (EmployeeSearch.searchTerm st)
                        (EmployeeSearch.searchType st) rows false)
                     (mkWorld (db w) (tl (faults w)) (console w) (tz w)),
               Normal tt))
  \/ (exists e,
         EmployeeSearch.handleSearch (mkSys st w)
         = (mkSys (EmployeeSearch.mkState (EmployeeSearch.searchTerm st)
                     (EmployeeSearch.searchType st) (EmployeeSearch.results st) false)
                  (mkWorld (db w) (tl (faults w))
                           (console w ++ [("Error searching employees:", e)]) (tz w)),
            Normal tt)).
Proof.
  destruct (blank (EmployeeSearch.searchTerm st)) eqn:Hblank.
  - left. now apply handleSearch_blank.
  - right.
    destruct (hd false (faults w)) eqn:Hhd.
    + right. apply handleSearch_failed; auto.
    + destruct (Store.select_employees
                  (EmployeeSearch.query (EmployeeSearch.searchType st)
                                        (EmployeeSearch.searchTerm st)) (db w))
        as [rows|] eqn:Hsel.
      * left. exists rows. split; [reflexivity|]. now apply handleSearch_served.
      * right. apply handleSearch_failed; auto.
Qed.

(** X6. Whatever the term, the type and the store do, a search ends
    normally and is read-only: the store, the time zone, the term and the
    type are as they were. A blank term changes nothing at all; any other
    term costs exactly one store call and leaves the loading flag
    cleared. *)
Theorem search_always_settles_and_reads_only (st : EmployeeSearch.State) (w : World) :
  let '(s, outcome) := EmployeeSearch.handleSearch (mkSys st w) in
  let skipped := blank (EmployeeSearch.searchTerm st) in
  outcome = Normal tt
  /\ db (world s) = db w
  /\ tz (world s) = tz w
  /\ EmployeeSearch.searchTerm (ui s) = EmployeeSearch.searchTerm st
  /\ EmployeeSearch.searchType (ui s) = EmployeeSearch.searchType st
  /\ EmployeeSearch.loading (ui s) = (skipped && EmployeeSearch.loading st)
  /\ faults (world s) = (if skipped then faults w else tl (faults w)).
Proof.
  destruct (blank (EmployeeSearch.searchTerm st)) eqn:Hblank.
  - rewrite (handleSearch_blank st w Hblank). repeat split.
  - destruct (hd false (faults w)) eqn:Hhd.
    + destruct (handleSearch_failed st w Hblank (or_introl Hhd)) as [e He].
      rewrite He. repeat split.
    + destruct (Store.select_employees
                  (EmployeeSearch.query (EmployeeSearch.searchType st)
                                        (EmployeeSearch.searchTerm st)) (db w))
        as [rows|] eqn:Hsel.
      * rewrite (handleSearch_served st w rows Hblank Hhd Hsel). repeat split.
      * destruct (handleSearch_failed st w Hblank (or_intror Hsel)) as [e He].
        rewrite He. repeat split.
Qed.

(** X7. After a search the screen shows either what it showed before (the
    term was blank or the query failed) or rows of the store: a selection
    of the employees table, in table order. *)
Theorem results_are_earlier_ones_or_rows_of_the_store
  (st : EmployeeSearch.State) (w : World) :
  let shown :=
    EmployeeSearch.results (ui (fst (EmployeeSearch.handleSearch (mkSys st w)))) in
  shown = EmployeeSearch.results st
  \/ exists test : Employee.t -> bool, shown = filter test (Store.employees (db w)).
Proof.
  cbv zeta.
  destruct (handleSearch_cases st w) as [H|[(rows & Hsel & H)|(e & H)]]; rewrite H.
  - now left.
  - right. unfold Store.select_employees in Hsel.
    destruct (Store.compile_all _) as [cs|]; [|discriminate].
    exists (keeps (Store.every_condition cs)). now apply filter_rows_keeps.
  - now left.
Qed.

Lemma select_unfiltered d : Store.select_employees [] d = Some (Store.employees d).
Proof.
  unfold Store.select_employees. cbn [Store.compile_all Store.every_condition].
  rewrite (filter_rows_total (fun _ => true)).
  f_equal. induction (Store.employees d) as [|e l IH]; [reflexivity|].
  simpl. now rewrite IH.
Qed.

(** X8. The [switch] on the search type has no default: for a type other
    than the three it names, a search with a term that is not blank asks
    for the whole table, and when the store answers every employee is
    shown, whatever the term. *)
Theorem unknown_search_type_shows_everyone (st : EmployeeSearch.State) (w : World) :
  known_type (EmployeeSearch.searchType st) = false ->
  blank (EmployeeSearch.searchTerm st) = false ->
  next_call_served w ->
  EmployeeSearch.results (ui (fst (EmployeeSearch.handleSearch (mkSys st w))))
  = Store.employees (db w).
Proof.
  intros Htype Hterm Hserved.
  unfold known_type in Htype.
  apply orb_false_elim in Htype as [Htype Hid].
  apply orb_false_elim in Htype as [Hname Hssn].
  assert (Hquery : EmployeeSearch.query (EmployeeSearch.searchType st)
                                        (EmployeeSearch.searchTerm st) = []).
  { unfold EmployeeSearch.query. now rewrite Hname, Hssn, Hid. }
  rewrite (handleSearch_served st w (Store.employees (db w)) Hterm Hserved).
  - reflexivity.
  - rewrite Hquery. apply select_unfiltered.
Qed.

Lemma unknown_search_type_shows_everyone_witness :
  EmployeeSearch.results
    (ui (fst (EmployeeSearch.handleSearch
                (mkSys (EmployeeSearch.mkState "nobody" "email" [] false)
                       (Sample.world 0)))))
  = Sample.employees.
Proof.
  exact (unknown_search_type_shows_everyone
           (EmployeeSearch.mkState "nobody" "email" [] false) (Sample.world 0)
           eq_refl eq_refl eq_refl).
Defined.

(** X9. The search by name does not tell letter case in the term: two
    terms that are not blank, hold no character of the filter syntax and
    differ by letter case only show the same employees when the store
    answers. *)
Theorem name_search_ignores_case_of_term
  (term term' : string) (shown shown' : list Employee.t) (w : World) :
  toLowerCase term = toLowerCase term' ->
  blank term = false -> blank term' = false ->
  plain term = true -> plain term' = true ->
  next_call_served w ->
  EmployeeSearch.results
    (ui (fst (EmployeeSearch.handleSearch
                (mkSys (EmployeeSearch.mkState term "name" shown false) w))))
  = EmployeeSearch.results
      (ui (fst (EmployeeSearch.handleSearch
                  (mkSys (EmployeeSearch.mkState term' "name" shown' false) w)))).
Proof.
  intros Hcase Hb Hb' Hp Hp' Hserved.
  rewrite (handleSearch_served (EmployeeSearch.mkState term "name" shown false) w
             (filter (name_matches term) (Store.employees (db w))) Hb Hserved
             (select_by_name term (db w) Hp)).
  rewrite (handleSearch_served (EmployeeSearch.mkState term' "name" shown' false) w
             (filter (name_matches term') (Store.employees (db w))) Hb' Hserved
             (select_by_name term' (db w) Hp')).
  cbn [fst ui EmployeeSearch.results]. unfold name_matches. now rewrite Hcase.
Qed.

Lemma name_search_ignores_case_of_term_witness :
  EmployeeSearch.results
    (ui (fst (EmployeeSearch.handleSearch
                (mkSys (EmployeeSearch.mkState "SMITH" "name" [] false) (Sample.world 0)))))
  = EmployeeSearch.results
      (ui (fst (EmployeeSearch.handleSearch
                  (mkSys (EmployeeSearch.mkState "smith" "name" [] false)
                         (Sample.world 0))))).
Proof.
  exact (name_search_ignores_case_of_term "SMITH" "smith" [] [] (Sample.world 0)
           eq_refl eq_refl eq_refl eq_refl eq_refl eq_refl).
Defined.

(* ===================================================================== *)
(** * Every run of a report fetch *)
(* ===================================================================== *)

Lemma ISOString_throws (d : Date) (s : Sys Reports.State) :
  toISOString d = None ->
  Reports.ISOString d s = (s, Throw (RangeError "Invalid time value")).
Proof. intros H. unfold Reports.ISOString. now rewrite H. Qed.

Lemma fetch_served_response (st : Reports.State) (w : World) fs rows :
  next_call_served w ->
  Store.select_pay fs (db w) = Some rows ->
  select_pay fs (mkSys st w) = (mkSys st (answered w), Normal (mkResponse (Some rows) None)).
Proof.
  intros Hserved Hrows. unfold select_pay.
  erewrite request_served;
    [reflexivity | exact Hserved | cbv beta; cbn [world ui]; rewrite Hrows; reflexivity].
Qed.

(** The steps of a report fetch up to the printing of its bounds. *)
Ltac fetch_starts :=
  unfold getState, Reports.setLoading, setState, try_catch_finally, timezone;
  rewrite !bind_run; cbn [ui world fst snd].

Lemma fetchPayByJobTitle_invalid (st : Reports.State) (w : World) :
  bounds (tz w) (Reports.selectedMonth st) = None ->
  Reports.fetchPayByJobTitle (mkSys st w)
  = (mkSys (loaded st)
           (logged w "Error fetching pay by job title:" (RangeError "Invalid time value")),
     Normal tt).
Proof.
  unfold bounds. intros Hnone. unfold Reports.fetchPayByJobTitle. fetch_starts.
  destruct (toISOString (Reports.startDate (Reports.selectedMonth st))) as [from|] eqn:Hfrom.
  - destruct (toISOString (Reports.endDate (tz w) (Reports.selectedMonth st)))
      as [to|] eqn:Hto; [discriminate|].
    rewrite (ISOString_run _ from) by assumption.
    rewrite bind_run, ISOString_throws by assumption. reflexivity.
  - rewrite ISOString_throws by assumption. reflexivity.
Qed.

Lemma fetchPayByDivision_invalid (st : Reports.State) (w : World) :
  bounds (tz w) (Reports.selectedMonth st) = None ->
  Reports.fetchPayByDivision (mkSys st w)
  = (mkSys (loaded st)
           (logged w "Error fetching pay by division:" (RangeError "Invalid time value")),
     Normal tt).
Proof.
  unfold bounds. intros Hnone. unfold Reports.fetchPayByDivision. fetch_starts.
  destruct (toISOString (Reports.startDate (Reports.selectedMonth st))) as [from|] eqn:Hfrom.
  - destruct (toISOString (Reports.endDate (tz w) (Reports.selectedMonth st)))
      as [to|] eqn:Hto; [discriminate|].
    rewrite (ISOString_run _ from) by assumption.
    rewrite bind_run, ISOString_throws by assumption. reflexivity.
  - rewrite ISOString_throws by assumption. reflexivity.
Qed.

Lemma bounds_some zone month from to :
  bounds zone month = Some (from, to) ->
  toISOString (Reports.startDate month) = Some from
  /\ toISOString (Reports.endDate zone month) = Some to.
Proof.
  unfold bounds.
  destruct (toISOString (Reports.startDate month)); [|discriminate].
  destruct (toISOString (Reports.endDate zone month)); [|discriminate].
  intros H. inversion H. now subst.
Qed.

Ltac fetch_answers from to Hrows :=
  fetch_starts;
  rewrite (ISOString_run _ from) by assumption;
  rewrite bind_run, (ISOString_run _ to) by assumption;
  rewrite bind_run; fold (month_filters from to);
  erewrite fetch_served_response; [reflexivity | assumption | exact Hrows].

Lemma fetchPayByJobTitle_served (st : Reports.State) (w : World) from to rows :
  bounds (tz w) (Reports.selectedMonth st) = Some (from, to) ->
  next_call_served w ->
  Store.select_pay (month_filters from to) (db w) = Some rows ->
  Reports.fetchPayByJobTitle (mkSys st w)
  = (mkSys (with_titles st (Reports.job_title_report rows)) (answered w), Normal tt).
Proof.
  intros Hb Hserved Hrows. apply bounds_some in Hb as [Hfrom Hto].
  unfold Reports.fetchPayByJobTitle. fetch_answers from to Hrows.
Qed.

Lemma fetchPayByDivision_served (st : Reports.State) (w : World) from to rows :
  bounds (tz w) (Reports.selectedMonth st) = Some (from, to) ->
  next_call_served w ->
  Store.select_pay (month_filters from to) (db w) = Some rows ->
  Reports.fetchPayByDivision (mkSys st w)
  = (mkSys (with_divisions st (Reports.division_report rows)) (answered w), Normal tt).
Proof.
  intros Hb Hserved Hrows. apply bounds_some in Hb as [Hfrom Hto].
  unfold Reports.fetchPayByDivision. fetch_answers from to Hrows.
Qed.



(** The common shape of every run of a report fetch: the screen differs
    from the one before by the report at most, the world by the store
    call made and the lines logged. *)
Lemma fetchPayByJobTitle_settles (st : Reports.State) (w : World) :
  exists report lines,
    Reports.fetchPayByJobTitle (mkSys st w)
    = (mkSys (with_titles st report)
             (mkWorld (db w)
                      (match bounds (tz w) (Reports.selectedMonth st) with
                       | Some _ => tl (faults w)
                       | None => faults w
                       end)
                      (console w ++ lines) (tz w)),
       Normal tt).
Proof.
  destruct (bounds (tz w) (Reports.selectedMonth st)) as [[from to]|] eqn:Hb.
  - destruct (bounds_some _ _ _ _ Hb) as [Hfrom Hto].
    destruct (hd false (faults w)) eqn:Hhd.
    + destruct (fetchPayByJobTitle_failed st w from to Hfrom Hto (or_introl Hhd))
        as [e He].
      exists (Reports.payByJobTitle st), [("Error fetching pay by job title:", e)].
      exact He.
    + destruct (Store.select_pay (month_filters from to) (db w)) as [rows|] eqn:Hrows.
      * exists (Reports.job_title_report rows), [].
        rewrite (fetchPayByJobTitle_served st w from to rows Hb Hhd Hrows).
        unfold answered. now rewrite app_nil_r.
      * destruct (fetchPayByJobTitle_failed st w from to Hfrom Hto (or_intror Hrows))
          as [e He].
        exists (Reports.payByJobTitle st), [("Error fetching pay by job title:", e)].
        exact He.
  - exists (Reports.payByJobTitle st),
      [("Error fetching pay by job title:", RangeError "Invalid time value")].
    exact (fetchPayByJobTitle_invalid st w Hb).
Qed.

Lemma fetchPayByDivision_settles (st : Reports.State) (w : World) :
  exists report lines,
    Reports.fetchPayByDivision (mkSys st w)
    = (mkSys (with_divisions st report)
             (mkWorld (db w)
                      (match bounds (tz w) (Reports.selectedMonth st) with
                       | Some _ => tl (faults w)
                       | None => faults w
                       end)
                      (console w ++ lines) (tz w)),
       Normal tt).
Proof.
  destruct (bounds (tz w) (Reports.selectedMonth st)) as [[from to]|] eqn:Hb.
  - destruct (bounds_some _ _ _ _ Hb) as [Hfrom Hto].
    destruct (hd false (faults w)) eqn:Hhd.
    + destruct (fetchPayByDivision_failed st w from to Hfrom Hto (or_introl Hhd))
        as [e He].
      exists (Reports.payByDivision st), [("Error fetching pay by division:", e)].
      exact He.
    + destruct (Store.select_pay (month_filters from to) (db w)) as [rows|] eqn:Hrows.
      * exists (Reports.division_report rows), [].
        rewrite (fetchPayByDivision_served st w from to rows Hb Hhd Hrows).
        unfold answered. now rewrite app_nil_r.
      * destruct (fetchPayByDivision_failed st w from to Hfrom Hto (or_intror Hrows))
          as [e He].
        exists (Reports.payByDivision st), [("Error fetching pay by division:", e)].
        exact He.
  - exists (Reports.payByDivision st),
      [("Error fetching pay by division:", RangeError "Invalid time value")].
    exact (fetchPayByDivision_invalid st w Hb).
Qed.


(* ===================================================================== *)
(** * The rows of a report *)
(* ===================================================================== *)

Lemma own_mem acc k g : Reports.own acc k = Some g -> In (k, g) acc.
Proof.
  induction acc as [|[k' g'] acc IH]; simpl; [discriminate|].
  destruct (String.eqb_spec k' k) as [->|Hne].
  - intros H. inversion H. now left.
  - intros H. right. now apply IH.
Qed.

Lemma own_some_in acc k : In k (map fst acc) -> Reports.own acc k <> None.
Proof.
  induction acc as [|[k' g] acc IH]; simpl; [tauto|].
  destruct (String.eqb_spec k' k) as [->|Hne]; [discriminate|].
  intros [Heq|Hin]; [contradiction|]. now apply IH.
Qed.

Lemma rows_of_in key k rows r :
  In r rows -> key (Store.PayRow.employees r) = k -> rows_of key k rows <> [].
Proof.
  intros Hin Hk Hnil.
  assert (Hr : In r (rows_of key k rows)).
  { unfold rows_of. apply filter_In. split; [exact Hin|]. now apply String.eqb_eq. }
  rewrite Hnil in Hr. exact Hr.
Qed.

(** The names the reduction holds: those of the rows, less the inherited
    ones. *)
Lemma grouped_keys key rows k :
  In k (map fst (Reports.grouped key rows))
  <-> Reports.inherited k = false
      /\ exists r, In r rows /\ key (Store.PayRow.employees r) = k.
Proof.
  destruct (grouped_represents key rows) as [_ Hown]. specialize (Hown k).
  split.
  - intros Hin. apply own_some_in in Hin.
    destruct (Reports.own (Reports.grouped key rows) k) as [g|] eqn:Hg;
      [|contradiction].
    destruct Hown as (Hinh & _ & Hcount). split; [exact Hinh|].
    destruct (rows_of key k rows) as [|r l] eqn:Hrows.
    + exfalso. pose proof (grouped_counted key rows) as Hall.
      rewrite Forall_forall in Hall. specialize (Hall _ (own_mem _ _ _ Hg)).
      unfold counted in Hall. simpl in Hall, Hcount. lia.
    + exists r. assert (Hr : In r (rows_of key k rows)) by (rewrite Hrows; now left).
      unfold rows_of in Hr. apply filter_In in Hr as [Hr Hk].
      split; [exact Hr|]. now apply String.eqb_eq.
  - intros (Hinh & r & Hr & Hk).
    destruct (Reports.own (Reports.grouped key rows) k) as [g|] eqn:Hg.
    + apply own_mem in Hg. change k with (fst (k, g)). now apply in_map.
    + destruct Hown as [Hnil|Hinh']; [|congruence].
      exfalso. exact (rows_of_in key k rows r Hr Hk Hnil).
Qed.

Lemma entries_keys acc :
  Permutation (map fst (Reports.Object_entries acc)) (map fst acc).
Proof. apply Permutation_map, Object_entries_perm. Qed.

Lemma job_title_report_keys rows :
  map PayByJobTitle.job_title (Reports.job_title_report rows)
  = map fst (Reports.Object_entries (Reports.grouped Employee.job_title rows)).
Proof.
  unfold Reports.job_title_report. rewrite map_map. apply map_ext. now intros [k g].
Qed.

Lemma division_report_keys rows :
  map PayByDivision.division (Reports.division_report rows)
  = map fst (Reports.Object_entries (Reports.grouped Employee.division rows)).
Proof.
  unfold Reports.division_report. rewrite map_map. apply map_ext. now intros [k g].
Qed.

Lemma report_keys key rows :
  let names := map fst (Reports.Object_entries (Reports.grouped key rows)) in
  NoDup names
  /\ forall k, In k names
               <-> Reports.inherited k = false
                   /\ exists r, In r rows /\ key (Store.PayRow.employees r) = k.
Proof.
  cbv zeta. split.
  - apply (Permutation_NoDup (Permutation_sym (entries_keys _))).
    exact (proj1 (grouped_represents key rows)).
  - intros k. rewrite <- grouped_keys. split; apply Permutation_in.
    + apply entries_keys.
    + apply Permutation_sym, entries_keys.
Qed.

(** X12. A report has one row per grouping key, for every fetched row
    set: the job titles of the rows of the report by job title are
    pairwise distinct, and they are exactly the job titles of the fetched
    rows that are not property names that objects inherit; likewise for
    the divisions of the report by division. *)
Theorem report_has_one_row_per_key (rows : list Store.PayRow.t) :
  (NoDup (map PayByJobTitle.job_title (Reports.job_title_report rows))
   /\ forall k,
        In k (map PayByJobTitle.job_title (Reports.job_title_report rows))
        <-> Reports.inherited k = false
            /\ exists r, In r rows /\ Employee.job_title (Store.PayRow.employees r) = k)
  /\ (NoDup (map PayByDivision.division (Reports.division_report rows))
      /\ forall k,
           In k (map PayByDivision.division (Reports.division_report rows))
           <-> Reports.inherited k = false
               /\ exists r, In r rows /\ Employee.division (Store.PayRow.employees r) = k).
Proof.
  rewrite job_title_report_keys, division_report_keys.
  split; apply report_keys.
Qed.

(* ===================================================================== *)
(** * The order of the rows of a report *)
(* ===================================================================== *)

Lemma first_seen_in l k : In k (first_seen l) <-> In k l.
Proof.
  induction l as [|a l IH]; simpl; [tauto|].
  rewrite filter_In, IH.
  destruct (String.eqb_spec k a) as [->|Hne]; simpl; [tauto|].
  split; [tauto|]. intros [Heq|Hin]; [congruence|tauto].
Qed.

Lemma first_seen_snoc l k :
  first_seen (l ++ [k])
  = if existsb (String.eqb k) l then first_seen l else first_seen l ++ [k].
Proof.
  induction l as [|a l IH]; [reflexivity|].
  cbn [app first_seen existsb]. rewrite IH.
  destruct (String.eqb_spec k a) as [->|Hne]; cbn [orb].
  - destruct (existsb (String.eqb a) l); [reflexivity|].
    rewrite filter_app. cbn [filter]. rewrite String.eqb_refl. cbn [negb].
    now rewrite app_nil_r.
  - destruct (existsb (String.eqb k) l); [reflexivity|].
    rewrite filter_app. cbn [filter].
    destruct (String.eqb_spec k a); [contradiction|]. reflexivity.
Qed.

Lemma existsb_in k l : existsb (String.eqb k) l = true <-> In k l.
Proof.
  rewrite existsb_exists. split.
  - intros (x & Hx & Heq). apply String.eqb_eq in Heq. now subst.
  - intros Hin. exists k. split; [exact Hin|apply String.eqb_refl].
Qed.

(** The names of the accumulator are those recorded so far, in the order
    of their first occurrence. *)
Lemma grouped_first_seen key rows :
  map fst (Reports.grouped key rows) = first_seen (keys_recorded key rows).
Proof.
  induction rows as [|r rows IH] using rev_ind; [reflexivity|].
  rewrite grouped_snoc. unfold keys_recorded in *.
  rewrite map_app, filter_app. cbn [map filter].
  set (k := key (Store.PayRow.employees r)).
  set (acc := Reports.grouped key rows) in *.
  destruct (Reports.own acc k) as [g|] eqn:Hown.
  - rewrite (reducer_known _ _ _ _ Hown), accumulate_keys, IH.
    assert (Hin : In k (map fst acc)).
    { change k with (fst (k, g)). apply in_map. now apply own_mem. }
    destruct (Reports.inherited k) eqn:Hinh; cbn [negb]; [now rewrite app_nil_r|].
    rewrite first_seen_snoc.
    rewrite IH, first_seen_in in Hin. apply existsb_in in Hin. now rewrite Hin.
  - destruct (Reports.inherited k) eqn:Hinh; cbn [negb].
    + rewrite reducer_inherited by assumption. now rewrite app_nil_r.
    + rewrite reducer_new by assumption. rewrite map_app. cbn [map fst].
      rewrite first_seen_snoc, IH.
      destruct (existsb (String.eqb k) _) eqn:Hex; [|reflexivity].
      exfalso. apply existsb_in in Hex. rewrite <- first_seen_in, <- IH in Hex.
      exact (own_none_not_in _ _ Hown Hex).
Qed.

(** Without array-index names, [Object.entries] lists the properties in
    the order of their creation. *)
Lemma entries_in_creation_order acc :
  Forall (fun p => Reports.array_index (fst p) = None) acc ->
  Reports.Object_entries acc = acc.
Proof.
  intros Hacc. unfold Reports.Object_entries.
  assert (Hord : Reports.ordered acc = ([], acc)).
  { induction Hacc as [|p acc Hp Hacc IH]; [reflexivity|].
    cbn [Reports.ordered]. now rewrite IH, Hp. }
  now rewrite Hord.
Qed.

Lemma grouped_no_index key rows :
  no_index_key key rows ->
  Forall (fun p => Reports.array_index (fst p) = None) (Reports.grouped key rows).
Proof.
  intros Hrows. apply Forall_forall. intros [k g] Hin.
  assert (Hk : In k (map fst (Reports.grouped key rows)))
    by (change k with (fst (k, g)); now apply in_map).
  apply grouped_keys in Hk as (_ & r & Hr & <-).
  unfold no_index_key in Hrows. rewrite Forall_forall in Hrows. now apply Hrows.
Qed.

(** X13. When no grouping key of the fetched rows is an array index (no
    job title, or division, is the decimal form of a whole number), the
    rows of a report come in the order in which their keys first occur
    in the fetched rows, keys that objects inherit left out. *)
Theorem report_rows_follow_first_occurrence (rows : list Store.PayRow.t) :
  (no_index_key Employee.job_title rows ->
   map PayByJobTitle.job_title (Reports.job_title_report rows)
   = first_seen (keys_recorded Employee.job_title rows))
  /\ (no_index_key Employee.division rows ->
      map PayByDivision.division (Reports.division_report rows)
      = first_seen (keys_recorded Employee.division rows)).
Proof.
  split; intros Hrows.
  - rewrite job_title_report_keys, entries_in_creation_order
      by now apply grouped_no_index.
    apply grouped_first_seen.
  - rewrite division_report_keys, entries_in_creation_order
      by now apply grouped_no_index.
    apply grouped_first_seen.
Qed.

Lemma report_rows_follow_first_occurrence_witness :
  no_index_key Employee.job_title Sample.rows
  /\ map PayByJobTitle.job_title (Reports.job_title_report Sample.rows)
     = first_seen (keys_recorded Employee.job_title Sample.rows).
Proof.
  assert (H : no_index_key Employee.job_title Sample.rows)
    by (unfold no_index_key; repeat constructor).
  split; [exact H|].
  exact (proj1 (report_rows_follow_first_occurrence Sample.rows) H).
Defined.

(* ===================================================================== *)
(** * The pay history *)
(* ===================================================================== *)

(** A read that the store never rejects: it fails only when the call
    does. *)
Lemma request_read {U A : Type} (read : Store.Database -> A) (s : Sys U) :
  request (fun d => Some (d, read d)) s
  = (mkSys (ui s) (answered (world s)),
     Normal (if hd false (faults (world s))
             then mkResponse None (Some (StoreError "request failed"))
             else mkResponse (Some (read (db (world s)))) None)).
Proof.
  unfold request, answered.
  destruct (faults (world s)) as [|[|] later]; reflexivity.
Qed.

Lemma fetchEmployeesWithPay_run (st : Reports.State) (w : World) :
  Reports.fetchEmployeesWithPay (mkSys st w)
  = if hd false (faults w) || hd false (tl (faults w))
    then (mkSys (loaded st)
                (logged (answered (answered w)) "Error fetching employee pay data:"
                        (StoreError "request failed")),
          Normal tt)
    else (mkSys (with_pay_history st (Store.employees_by_id (db w))
                                  (Store.pay_statements_latest_first (db w)))
                (answered (answered w)),
          Normal tt).
Proof.
  unfold Reports.fetchEmployeesWithPay, Reports.setLoading, setState, try_catch_finally,
    employees_by_id, pay_statements_latest_first.
  rewrite !bind_run. cbn [ui world]. rewrite request_read. cbn [ui world].
  rewrite bind_run, request_read. cbn [ui world answered faults db].
  destruct (hd false (faults w)); destruct (hd false (tl (faults w))); reflexivity.
Qed.

(** X14. The fetch of the pay history always makes both of its store
    calls, the second also when the first has failed, and ends normally
    with the loading flag cleared. It is all or nothing: when either call
    fails, one error is logged and both
    the employees and the pay statements on screen are kept; otherwise
    both are replaced by what the store holds, in the order asked for. *)
Theorem pay_history_fetch_is_all_or_nothing (st : Reports.State) (w : World) :
  let '(s, outcome) := Reports.fetchEmployeesWithPay (mkSys st w) in
  let failed := hd false (faults w) || hd false (tl (faults w)) in
  outcome = Normal tt
  /\ db (world s) = db w
  /\ faults (world s) = tl (tl (faults w))
  /\ console (world s)
     = (if failed
        then console w ++ [("Error fetching employee pay data:",
                            StoreError "request failed")]
        else console w)
  /\ ui s = (if failed then loaded st
             else with_pay_history st (Store.employees_by_id (db w))
                                   (Store.pay_statements_latest_first (db w))).
Proof.
  rewrite fetchEmployeesWithPay_run.
  destruct (hd false (faults w) || hd false (tl (faults w))); repeat split.
Qed.

(* ===================================================================== *)
(** * The rows of a card *)
(* ===================================================================== *)

Section Ordering.

Context {A : Type}.
Variable before : A -> A -> bool.
Hypothesis before_total : forall a b, before a b = true \/ before b a = true.
Hypothesis before_trans :
  forall a b c, before a b = true -> before b c = true -> before a c = true.

Lemma insert_by_perm x l : Permutation (Store.insert_by before x l) (x :: l).
Proof.
  induction l as [|y l IH]; simpl; [reflexivity|].
  destruct (before x y); [reflexivity|].
  rewrite IH. apply perm_swap.
Qed.

Lemma order_by_perm l : Permutation (Store.order_by before l) l.
Proof.
  induction l as [|x l IH]; simpl; [reflexivity|].
  rewrite insert_by_perm. now apply perm_skip.
Qed.

Lemma insert_by_sorted x l :
  StronglySorted (fun a b => before a b = true) l ->
  StronglySorted (fun a b => before a b = true) (Store.insert_by before x l).
Proof.
  induction 1 as [|y l Hl IH Hy]; simpl.
  - constructor; constructor.
  - destruct (before x y) eqn:Hxy.
    + constructor; [now constructor|].
      constructor; [exact Hxy|].
      rewrite Forall_forall in *. intros z Hz. eapply before_trans; eauto.
    + constructor; [exact IH|].
      rewrite Forall_forall in *. intros z Hz.
      apply (Permutation_in _ (insert_by_perm x l)) in Hz.
      destruct Hz as [<-|Hz]; [|now apply Hy].
      destruct (before_total x y) as [H|H]; [congruence|exact H].
Qed.

Lemma order_by_sorted l :
  StronglySorted (fun a b => before a b = true) (Store.order_by before l).
Proof.
  induction l as [|x l IH]; simpl; [constructor|]. now apply insert_by_sorted.
Qed.

End Ordering.

Lemma sorted_filter {A : Type} (R : A -> A -> Prop) (f : A -> bool) l :
  StronglySorted R l -> StronglySorted R (filter f l).
Proof.
  induction 1 as [|x l Hl IH Hx]; simpl; [constructor|].
  destruct (f x); [|exact IH].
  constructor; [exact IH|].
  rewrite Forall_forall in *. intros y Hy. apply filter_In in Hy. now apply Hx.
Qed.

(** In a sorted list, what follows the first [n] elements comes after
    each of them. *)
Lemma sorted_firstn {A : Type} (R : A -> A -> Prop) (n : nat) l p q :
  StronglySorted R l -> In p (firstn n l) -> In q l -> ~ In q (firstn n l) -> R p q.
Proof.
  intros Hl. revert n. induction Hl as [|x l Hl IH Hx]; intros n Hp Hq Hnot.
  - now rewrite firstn_nil in Hp.
  - destruct n as [|n]; [contradiction|]. cbn [firstn] in *.
    destruct Hq as [<-|Hq]; [exfalso; apply Hnot; now left|].
    destruct Hp as [<-|Hp].
    + rewrite Forall_forall in Hx. now apply Hx.
    + apply (IH n); auto. intros H. apply Hnot. now right.
Qed.

Lemma PgDate_leb_spec a b :
  PgDate.leb a b = true
  <-> PgDate.year a < PgDate.year b
      \/ (PgDate.year a = PgDate.year b
          /\ (PgDate.month a < PgDate.month b
              \/ (PgDate.month a = PgDate.month b /\ PgDate.day a <= PgDate.day b))).
Proof.
  unfold PgDate.leb.
  rewrite !orb_true_iff, !andb_true_iff, !orb_true_iff, !andb_true_iff.
  rewrite !Z.ltb_lt, !Z.eqb_eq, Z.leb_le. tauto.
Qed.

Lemma PgDate_leb_total a b : PgDate.leb a b = true \/ PgDate.leb b a = true.
Proof. rewrite !PgDate_leb_spec. lia. Qed.

Lemma PgDate_leb_trans a b c :
  PgDate.leb a b = true -> PgDate.leb b c = true -> PgDate.leb a c = true.
Proof. rewrite !PgDate_leb_spec. lia. Qed.

Lemma latest_first_sorted d :
  StronglySorted (fun p q => starts_by q p) (Store.pay_statements_latest_first d).
Proof.
  unfold Store.pay_statements_latest_first, starts_by.
  apply (order_by_sorted
           (fun a b => PgDate.leb (PayStatement.pay_period_start b)
                                  (PayStatement.pay_period_start a))).
  - intros a b. apply PgDate_leb_total.
  - intros a b c Hab Hbc. exact (PgDate_leb_trans _ _ _ Hbc Hab).
Qed.

(** X15. Once the pay history is fetched, the card of an employee lists
    at most five pay statements, all of them statements of that employee
    in the store, and they are the latest: every statement of the
    employee that the card leaves out starts no later than each one it
    lists. The card is empty exactly when the store holds no statement of
    the employee. *)
Theorem card_lists_the_latest_five
  (st : Reports.State) (w : World) (e : Employee.t) :
  hd false (faults w) = false -> hd false (tl (faults w)) = false ->
  let view := ui (fst (Reports.fetchEmployeesWithPay (mkSys st w))) in
  let listed := Reports.pay_rows view e in
  (List.length listed <= 5)%nat
  /\ (forall p, In p listed -> In p (statements_of e (Store.pay_statements (db w))))
  /\ (forall p q, In p listed ->
                  In q (statements_of e (Store.pay_statements (db w))) ->
                  ~ In q listed -> starts_by q p)
  /\ (listed = [] <-> statements_of e (Store.pay_statements (db w)) = []).
Proof.
  intros Hfirst Hsecond. cbv zeta.
  rewrite fetchEmployeesWithPay_run, Hfirst, Hsecond. cbn [orb fst ui].
  unfold Reports.pay_rows, Reports.employeePay, with_pay_history.
  cbn [Reports.payStatements].
  set (mine := fun pay => PayStatement.emp_id pay =? Employee.emp_id e).
  set (fetched := Store.pay_statements_latest_first (db w)).
  assert (Hperm : Permutation fetched (Store.pay_statements (db w)))
    by apply order_by_perm.
  assert (Hmine : forall q, In q (filter mine fetched)
                            <-> In q (statements_of e (Store.pay_statements (db w)))).
  { intros q. unfold statements_of. fold mine. rewrite !filter_In.
    split; intros [Hq Hm]; split; auto.
    - now apply (Permutation_in _ Hperm).
    - now apply (Permutation_in _ (Permutation_sym Hperm)). }
  split; [|split; [|split]].
  - apply firstn_le_length.
  - intros p Hp. apply Hmine.
    rewrite <- (firstn_skipn 5 (filter mine fetched)). apply in_or_app. now left.
  - intros p q Hp Hq Hnot.
    apply (sorted_firstn (fun p q => starts_by q p) 5 (filter mine fetched)); auto.
    + apply sorted_filter, latest_first_sorted.
    + now apply Hmine.
  - split; intros Hnil.
    + destruct (statements_of e (Store.pay_statements (db w))) as [|q l] eqn:Hall;
        [reflexivity|exfalso].
      assert (Hq : In q (filter mine fetched)) by (apply Hmine; now left).
      destruct (filter mine fetched) as [|x rest]; [contradiction|discriminate].
    + destruct (filter mine fetched) as [|x rest] eqn:Hf; [reflexivity|exfalso].
      assert (Hx : In x (statements_of e (Store.pay_statements (db w)))).
      { apply Hmine. now left. }
      now rewrite Hnil in Hx.
Qed.

Lemma card_lists_the_latest_five_witness :
  let w := mkWorld (Store.mkDatabase [Scenario.employee 1 60000] half_year) [] [] 0 in
  let view :=
    ui (fst (Reports.fetchEmployeesWithPay
               (mkSys (Reports.mkState "employee-pay" [] [] [] [] "2024-08" false) w))) in
  map PayStatement.id (Reports.pay_rows view (Scenario.employee 1 60000)) = [7; 6; 5; 4; 3]
  /\ (List.length (Reports.pay_rows view (Scenario.employee 1 60000)) <= 5)%nat.
Proof.
  split; [reflexivity|].
  exact (proj1 (card_lists_the_latest_five
                  (Reports.mkState "employee-pay" [] [] [] [] "2024-08" false)
                  (mkWorld (Store.mkDatabase [Scenario.employee 1 60000] half_year) [] [] 0)
                  (Scenario.employee 1 60000) eq_refl eq_refl)).
Defined.

(* ===================================================================== *)
(** * The effect of the reports screen *)
(* ===================================================================== *)

(** X16. The effect of the reports screen refreshes the active report
    only: it ends normally, never changes the store, the active report or
    the month, and leaves the data of every report that is not the active
    one as it was; for a report identifier that it does not know it does
    nothing at all. *)
Theorem effect_refreshes_the_active_report_only (st : Reports.State) (w : World) :
  let '(s, outcome) := Reports.effect (mkSys st w) in
  let active := Reports.activeReport st in
  outcome = Normal tt
  /\ db (world s) = db w
  /\ Reports.activeReport (ui s) = active
  /\ Reports.selectedMonth (ui s) = Reports.selectedMonth st
  /\ (active <> "employee-pay" ->
      Reports.employees (ui s) = Reports.employees st
      /\ Reports.payStatements (ui s) = Reports.payStatements st)
  /\ (active <> "pay-by-title" -> Reports.payByJobTitle (ui s) = Reports.payByJobTitle st)
  /\ (active <> "pay-by-division" ->
      Reports.payByDivision (ui s) = Reports.payByDivision st)
  /\ (active <> "employee-pay" -> active <> "pay-by-title" ->
      active <> "pay-by-division" -> s = mkSys st w).
Proof.
  unfold Reports.effect, getState. rewrite bind_run. cbn [ui].
  destruct (String.eqb_spec (Reports.activeReport st) "employee-pay") as [Hpay|Hpay].
  { rewrite fetchEmployeesWithPay_run.
    destruct (hd false (faults w) || hd false (tl (faults w)));
      cbv zeta; repeat split; intros; try reflexivity; contradiction. }
  destruct (String.eqb_spec (Reports.activeReport st) "pay-by-title") as [Htitle|Htitle].
  { destruct (fetchPayByJobTitle_settles st w) as (report & lines & ->).
    cbv zeta. repeat split; intros; try reflexivity; contradiction. }
  destruct (String.eqb_spec (Reports.activeReport st) "pay-by-division") as [Hdiv|Hdiv].
  { destruct (fetchPayByDivision_settles st w) as (report & lines & ->).
    cbv zeta. repeat split; intros; try reflexivity; contradiction. }
  rewrite ret_run. cbv zeta. repeat split.
Qed.

(* ===================================================================== *)
(** * Day numbers and calendar days *)
(* ===================================================================== *)

Lemma year_of_mono a b : 0 <= a <= b -> year_of a <= year_of b.
Proof.
  intros H. unfold year_of. apply Z.div_le_mono; [lia|].
  Z.div_mod_to_equations; lia.
Qed.

Lemma month_of_day mp doy :
  0 <= mp <= 11 -> (153 * mp + 2) / 5 <= doy < (153 * (mp + 1) + 2) / 5 ->
  (5 * doy + 2) / 153 = mp.
Proof.
  intros Hmp H.
  Z.div_mod_to_equations; lia.
Qed.

Lemma year_days_bounds yoe : 0 <= yoe < 400 -> 365 <= year_days yoe <= 366.
Proof.
  intros H. unfold year_days, year_start.
  destruct (Z.eqb_spec yoe 399); [lia|].
  Z.div_mod_to_equations; lia.
Qed.

Lemma year_of_start yoe doy :
  0 <= yoe < 400 -> 0 <= doy < year_days yoe -> year_of (year_start yoe + doy) = yoe.
Proof.
  intros Hy Hd. unfold year_days in Hd. unfold year_of, year_start in *.
  destruct (Z.eqb_spec yoe 399) as [->|Hne].
  - Z.div_mod_to_equations; lia.
  - Z.div_mod_to_equations; lia.
Qed.

Lemma days_from_civil_parts y m d :
  days_from_civil y m d
  = shifted_year y m / 400 * 146097
    + (year_start (year_of_era y m) + day_of_year m d) - 719468.
Proof. reflexivity. Qed.

Lemma civil_of_parts era yoe m d :
  0 <= yoe < 400 -> 1 <= m <= 12 -> 1 <= d ->
  day_of_year m d < (153 * (month_index m + 1) + 2) / 5 ->
  day_of_year m d < year_days yoe ->
  civil_from_days (era * 146097 + (year_start yoe + day_of_year m d) - 719468)
  = ((if m <=? 2 then yoe + era * 400 + 1 else yoe + era * 400), m, d).
Proof.
  intros Hyoe Hm Hd Hmonth Hyear.
  set (doy := day_of_year m d) in *.
  assert (Hdoy : 0 <= doy).
  { unfold doy, day_of_year, month_index. destruct (Z.ltb_spec 2 m); Z.div_mod_to_equations; lia. }
  set (doe := year_start yoe + doy).
  assert (Hdoe : 0 <= doe < 146097).
  { unfold doe. unfold year_days, year_start in *.
    destruct (Z.eqb_spec yoe 399); Z.div_mod_to_equations; lia. }
  unfold civil_from_days. cbv zeta.
  replace (era * 146097 + doe - 719468 + 719468) with (doe + era * 146097) by lia.
  rewrite Z.div_add by lia. rewrite (Z.div_small doe) by lia. cbn [Z.add].
  replace (doe + era * 146097 - era * 146097) with doe by lia.
  assert (Hyear_of : year_of doe = yoe) by (unfold doe; apply year_of_start; lia).
  fold (year_of doe). rewrite Hyear_of.
  replace (doe - (365 * yoe + yoe / 4 - yoe / 100)) with doy
    by (unfold doe, year_start; lia).
  assert (Hmp : 0 <= month_index m <= 11) by (unfold month_index; destruct (Z.ltb_spec 2 m); lia).
  rewrite (month_of_day (month_index m) doy) by (unfold doy, day_of_year in *; lia).
  assert (Hmonth' : (if month_index m <? 10 then month_index m + 3 else month_index m - 9) = m).
  { unfold month_index. destruct (Z.ltb_spec 2 m).
    - destruct (Z.ltb_spec (m - 3) 10); lia.
    - destruct (Z.ltb_spec (m + 9) 10); lia. }
  rewrite Hmonth'. f_equal. unfold doy, day_of_year. lia.
Qed.

Lemma year_of_era_range y m : 0 <= year_of_era y m < 400.
Proof. unfold year_of_era. Z.div_mod_to_equations; lia. Qed.

Lemma february y : days_in_month y 2 = year_days (year_of_era y 2) - 337.
Proof.
  change (days_in_month y 2) with (days_from_civil y 3 1 - days_from_civil y 2 1).
  rewrite !days_from_civil_parts.
  change (day_of_year 3 1) with 0. change (day_of_year 2 1) with 337.
  unfold year_of_era.
  change (shifted_year y 3) with y. change (shifted_year y 2) with (y - 1).
  unfold year_days, year_start.
  destruct (Z.eqb_spec (y - 1 - (y - 1) / 400 * 400) 399) as [H|H].
  - Z.div_mod_to_equations; lia.
  - Z.div_mod_to_equations; lia.
Qed.

Lemma other_months y m :
  1 <= m <= 12 -> m <> 2 ->
  days_in_month y m
  = (153 * (month_index m + 1) + 2) / 5 - (153 * month_index m + 2) / 5.
Proof.
  intros Hm Hne.
  assert (H : m = 1 \/ m = 3 \/ m = 4 \/ m = 5 \/ m = 6 \/ m = 7 \/ m = 8 \/ m = 9
              \/ m = 10 \/ m = 11 \/ m = 12) by lia.
  unfold days_in_month, days_from_civil, month_index.
  repeat (destruct H as [->|H]; [cbn; Z.div_mod_to_equations; lia|]).
  subst m. cbn. Z.div_mod_to_equations; lia.
Qed.

Lemma civil_round_trip y m d :
  1 <= m <= 12 -> 1 <= d <= days_in_month y m ->
  civil_from_days (days_from_civil y m d) = (y, m, d).
Proof.
  intros Hm Hd. rewrite days_from_civil_parts.
  pose proof (year_of_era_range y m) as Hyoe.
  pose proof (year_days_bounds _ Hyoe) as Hlen.
  rewrite civil_of_parts; try lia.
  - assert (Hy : (if m <=? 2
                  then year_of_era y m + shifted_year y m / 400 * 400 + 1
                  else year_of_era y m + shifted_year y m / 400 * 400) = y).
    { unfold year_of_era, shifted_year. destruct (Z.leb_spec m 2); lia. }
    now rewrite Hy.
  - destruct (Z.eq_dec m 2) as [->|Hne].
    + rewrite february in Hd.
      change (day_of_year 2 d) with (337 + d - 1).
      change ((153 * (month_index 2 + 1) + 2) / 5) with 367. lia.
    + rewrite other_months in Hd by lia. unfold day_of_year. lia.
  - destruct (Z.eq_dec m 2) as [->|Hne].
    + rewrite february in Hd. change (day_of_year 2 d) with (337 + d - 1). lia.
    + rewrite other_months in Hd by lia.
      assert (Hlast : (153 * (month_index m + 1) + 2) / 5 <= 337).
      { unfold month_index. destruct (Z.ltb_spec 2 m); Z.div_mod_to_equations; lia. }
      unfold day_of_year. lia.
Qed.

Lemma days_in_month_bounds y m : 1 <= m <= 12 -> 28 <= days_in_month y m <= 31.
Proof.
  intros Hm. destruct (Z.eq_dec m 2) as [->|Hne].
  - rewrite february. pose proof (year_days_bounds _ (year_of_era_range y 2)). lia.
  - rewrite other_months by lia.
    unfold month_index. destruct (Z.ltb_spec 2 m); Z.div_mod_to_equations; lia.
Qed.

(* ===================================================================== *)
(** * Texts of numbers and of dates *)
(* ===================================================================== *)

Local Open Scope string_scope.
Local Open Scope Z_scope.

(** ** Decimal digits of a number *)

Lemma take_digits_uint (u : Decimal.uint) (a k : nat) :
  take_digits 10 (NilEmpty.string_of_uint u) (Z.of_nat a) k
  = (Z.of_nat (Nat.of_uint_acc u a), (k + Decimal.nb_digits u)%nat, "").
Proof.
  revert a k.
  induction u as [|u IH|u IH|u IH|u IH|u IH|u IH|u IH|u IH|u IH|u IH]; intros a k;
    cbn [NilEmpty.string_of_uint Nat.of_uint_acc Decimal.nb_digits];
    [ now rewrite Nat.add_0_r | .. ];
    cbn [take_digits];
    match goal with
    | |- context [digit_value 10 ?c] =>
        let v := eval vm_compute in (digit_value 10 c) in
        change (digit_value 10 c) with v
    end;
    cbv beta iota; rewrite Nat.tail_mul_spec;
    match goal with
    | |- take_digits 10 _ ?z _ = _ =>
        match goal with
        | |- _ = (Z.of_nat (Nat.of_uint_acc _ ?n), _, _) =>
            replace z with (Z.of_nat n) by lia
        end
    end;
    rewrite IH; f_equal; f_equal; lia.
Qed.

Lemma single_digit r :
  (r < 10)%nat -> Decimal.nb_digits (DecimalNat.Unsigned.to_lu r) = 1%nat.
Proof.
  intros H.
  do 10 (destruct r as [|r]; [reflexivity|]). lia.
Qed.

Lemma further_digit q r :
  q <> 0%nat -> (r < 10)%nat ->
  Decimal.nb_digits (DecimalNat.Unsigned.to_lu (r + 10 * q))
  = S (Decimal.nb_digits (DecimalNat.Unsigned.to_lu q)).
Proof.
  intros Hq Hr.
  do 10 (destruct r as [|r];
         [ cbn [Nat.add]; rewrite ?DecimalNat.Unsigned.to_lu_succ, (DecimalNat.Unsigned.to_lu_tenfold q Hq);
           reflexivity |]).
  lia.
Qed.

Lemma digits_count (w n : nat) :
  (0 < w)%nat -> (n < 10 ^ w)%nat -> (Decimal.nb_digits (DecimalNat.Unsigned.to_lu n) <= w)%nat.
Proof.
  revert n. induction w as [|w IH]; intros n Hw Hn; [lia|].
  rewrite (Nat.div_mod_eq n 10), Nat.add_comm.
  assert (Hr : (n mod 10 < 10)%nat) by (apply Nat.mod_upper_bound; lia).
  destruct (Nat.eq_dec (n / 10) 0) as [Hq|Hq].
  - rewrite Hq, Nat.mul_0_r, Nat.add_0_r, single_digit by exact Hr. lia.
  - rewrite further_digit by assumption.
    apply le_n_S. apply IH.
    + destruct w; [|lia]. simpl in Hn.
      exfalso. apply Hq. apply Nat.div_small. lia.
    + apply Nat.Div0.div_lt_upper_bound. rewrite Nat.pow_succ_r' in Hn. lia.
Qed.

Lemma length_zeros k s : String.length (zeros k ++ s) = (k + String.length s)%nat.
Proof. induction k as [|k IH]; simpl; [reflexivity|]. now rewrite IH. Qed.

Lemma take_digits_zeros k s c :
  take_digits 10 (zeros k ++ s) 0 c = take_digits 10 s 0 (k + c)%nat.
Proof.
  revert c. induction k as [|k IH]; intros c; [reflexivity|].
  cbn [zeros append take_digits].
  change (digit_value 10 "0") with (Some 0). cbv beta iota.
  change (10 * 0 + 0) with 0. rewrite IH. f_equal. lia.
Qed.

Lemma length_uint u :
  String.length (NilEmpty.string_of_uint u) = Decimal.nb_digits u.
Proof. induction u; simpl; congruence. Qed.

(** The decimal digits of a number below [10 ^ width], padded to [width]
    characters, read back as the number. *)
Lemma digits_of_Z_spec (width : nat) (n : Z) :
  (0 < width)%nat -> 0 <= n < 10 ^ Z.of_nat width ->
  String.length (digits_of_Z width n) = width
  /\ take_digits 10 (digits_of_Z width n) 0 0 = (n, width, "").
Proof.
  intros Hw Hn. unfold digits_of_Z, pad_left, string_of_nat.
  set (k := Z.to_nat n).
  assert (Hk : (k < 10 ^ width)%nat).
  { unfold k. apply Nat2Z.inj_lt. rewrite Z2Nat.id by lia.
    rewrite Nat2Z.inj_pow. exact (proj2 Hn). }
  assert (Hu : Nat.to_uint k <> Decimal.Nil).
  { intros H. pose proof (DecimalNat.Unsigned.of_to k) as Hof. rewrite H in Hof.
    simpl in Hof. subst k. rewrite <- Hof in H. discriminate. }
  assert (Hs : NilZero.string_of_uint (Nat.to_uint k)
               = NilEmpty.string_of_uint (Nat.to_uint k)).
  { unfold NilZero.string_of_uint. destruct (Nat.to_uint k); [contradiction|..]; reflexivity. }
  rewrite Hs.
  assert (Hlen : (Decimal.nb_digits (Nat.to_uint k) <= width)%nat).
  { rewrite DecimalNat.Unsigned.to_uint_alt, DecimalFacts.nb_digits_rev. now apply digits_count. }
  split.
  - rewrite length_zeros, length_uint. lia.
  - rewrite take_digits_zeros, length_uint.
    change 0 with (Z.of_nat 0) at 1. rewrite take_digits_uint.
    fold (Nat.of_uint (Nat.to_uint k)). rewrite DecimalNat.Unsigned.of_to.
    subst k. rewrite Z2Nat.id by lia. f_equal. f_equal. lia.
Qed.

(** ** Texts of dates *)

Lemma date_fields (Y M D rest : string) :
  String.length Y = 4%nat -> String.length M = 2%nat -> String.length D = 2%nat ->
  let s := Y ++ "-" ++ M ++ "-" ++ D in
  String.length s = 10%nat
  /\ substring 4 1 s = "-" /\ substring 7 1 s = "-"
  /\ substring 0 4 s = Y /\ substring 5 2 s = M /\ substring 8 2 s = D
  /\ substring 0 10 (Y ++ "-" ++ M ++ "-" ++ D ++ rest) = s.
Proof.
  intros HY HM HD.
  destruct Y as [|a [|b [|c [|e [|]]]]]; try discriminate.
  destruct M as [|f [|g [|]]]; try discriminate.
  destruct D as [|h [|i [|]]]; try discriminate.
  cbv zeta. repeat split; try reflexivity. destruct rest; reflexivity.
Qed.

Lemma Date_parse_fields (Y M D : string) (y m d : Z) :
  String.length Y = 4%nat -> take_digits 10 Y 0 0 = (y, 4%nat, "") ->
  String.length M = 2%nat -> take_digits 10 M 0 0 = (m, 2%nat, "") ->
  String.length D = 2%nat -> take_digits 10 D 0 0 = (d, 2%nat, "") ->
  Date_parse (Y ++ "-" ++ M ++ "-" ++ D)
  = if (1 <=? m) && (m <=? 12) && (1 <=? d) && (d <=? days_in_month y m)
    then TimeClip (days_from_civil y m d * msPerDay)
    else None.
Proof.
  intros HY Hy HM Hm HD Hd.
  destruct (date_fields Y M D "" HY HM HD) as (Hlen & H4 & H7 & H0 & H5 & H8 & _).
  unfold Date_parse. rewrite Hlen, H4, H7, H0, H5, H8.
  unfold all_digits. rewrite Hy, Hm, Hd. reflexivity.
Qed.

Lemma date_of_text_fields (Y M D rest : string) (y m d : Z) :
  String.length Y = 4%nat -> take_digits 10 Y 0 0 = (y, 4%nat, "") ->
  String.length M = 2%nat -> take_digits 10 M 0 0 = (m, 2%nat, "") ->
  String.length D = 2%nat -> take_digits 10 D 0 0 = (d, 2%nat, "") ->
  Store.date_of_text (Y ++ "-" ++ M ++ "-" ++ D ++ rest)
  = match Date_parse (Y ++ "-" ++ M ++ "-" ++ D) with
    | Some _ => Some (PgDate.mk y m d)
    | None => None
    end.
Proof.
  intros HY Hy HM Hm HD Hd.
  destruct (date_fields Y M D rest HY HM HD) as (Hlen & H4 & H7 & H0 & H5 & H8 & Hcut).
  unfold Store.date_of_text. rewrite Hcut, H0, H5, H8, Hy, Hm, Hd. reflexivity.
Qed.

Lemma append_assoc (a b c : string) : (a ++ b) ++ c = a ++ b ++ c.
Proof. induction a as [|x a IH]; simpl; [reflexivity|]. now rewrite IH. Qed.

(** ** Day numbers *)

Lemma days_linear y m d : days_from_civil y m d = days_from_civil y m 1 + d - 1.
Proof. unfold days_from_civil. lia. Qed.

Lemma days_range y m d :
  0 <= y <= 9999 -> 1 <= m <= 12 -> 1 <= d <= 31 ->
  -720000 <= days_from_civil y m d <= 2933000.
Proof.
  intros Hy Hm Hd. unfold days_from_civil.
  destruct (Z.leb_spec m 2); destruct (Z.ltb_spec 2 m); try lia;
    Z.div_mod_to_equations; lia.
Qed.

Lemma next_month y m :
  1 <= m <= 12 ->
  days_from_civil (y + m / 12) (m mod 12 + 1) 1
  = days_from_civil y m 1 + days_in_month y m.
Proof.
  intros Hm. unfold days_in_month.
  destruct (Z.eqb_spec m 12) as [->|Hne].
  - change (12 / 12) with 1. change (12 mod 12 + 1) with 1. lia.
  - rewrite Z.div_small, Z.mod_small by lia.
    replace (y + 0) with y by lia. lia.
Qed.

Lemma last_day_number y m :
  1 <= m <= 12 ->
  days_from_civil (y + m / 12) (m mod 12 + 1) 1 + 0 - 1
  = days_from_civil y m (days_in_month y m).
Proof. intros Hm. rewrite next_month by exact Hm. rewrite (days_linear y m (days_in_month y m)). lia. Qed.

Lemma december y : days_in_month y 12 = 31.
Proof. rewrite other_months by lia. reflexivity. Qed.

Lemma previous_day y m :
  1 <= m <= 12 ->
  let p := previous_month_end y m in
  days_from_civil y m 1 - 1 = days_from_civil (PgDate.year p) (PgDate.month p) (PgDate.day p)
  /\ 1 <= PgDate.month p <= 12
  /\ PgDate.day p = days_in_month (PgDate.year p) (PgDate.month p)
  /\ y - 1 <= PgDate.year p <= y.
Proof.
  intros Hm. unfold previous_month_end.
  destruct (Z.eqb_spec m 1) as [->|Hne]; cbn [PgDate.year PgDate.month PgDate.day].
  - pose proof (next_month (y - 1) 12 ltac:(lia)) as H.
    change (12 / 12) with 1 in H. change (12 mod 12 + 1) with 1 in H.
    replace (y - 1 + 1) with y in H by lia.
    rewrite december in *. rewrite (days_linear (y - 1) 12 31). lia.
  - pose proof (next_month y (m - 1) ltac:(lia)) as H.
    rewrite Z.div_small, Z.mod_small in H by lia.
    replace (y + 0) with y in H by lia. replace (m - 1 + 1) with m in H by lia.
    rewrite (days_linear y (m - 1) (days_in_month y (m - 1))). lia.
Qed.

Lemma local_day D zone :
  -1440 < zone < 1440 ->
  (D * msPerDay + zone * msPerMinute) / msPerDay = if zone <? 0 then D - 1 else D.
Proof.
  intros Hz. unfold msPerDay, msPerMinute.
  destruct (Z.ltb_spec zone 0); Z.div_mod_to_equations; lia.
Qed.

Lemma utc_day E zone :
  -1440 < zone < 1440 ->
  (E * msPerDay - zone * msPerMinute) / msPerDay = if 0 <? zone then E - 1 else E.
Proof.
  intros Hz. unfold msPerDay, msPerMinute.
  destruct (Z.ltb_spec 0 zone); Z.div_mod_to_equations; lia.
Qed.

Lemma TimeClip_day E zone :
  -720000 <= E <= 2933000 -> -1440 < zone < 1440 ->
  TimeClip (E * msPerDay - zone * msPerMinute) = Some (E * msPerDay - zone * msPerMinute).
Proof.
  intros HE Hz. unfold TimeClip, msPerDay, msPerMinute.
  destruct (Z.leb_spec (Z.abs (E * 86400000 - zone * 60000)) 8640000000000000);
    [reflexivity|lia].
Qed.

(** ** The texts of the bounds *)

Lemma valid_date_text y m d rest :
  0 <= y <= 9999 -> 1 <= m <= 12 -> 1 <= d <= days_in_month y m ->
  Date_parse (digits_of_Z 4 y ++ "-" ++ digits_of_Z 2 m ++ "-" ++ digits_of_Z 2 d)
  = Some (days_from_civil y m d * msPerDay)
  /\ Store.date_of_text
       (digits_of_Z 4 y ++ "-" ++ digits_of_Z 2 m ++ "-" ++ digits_of_Z 2 d ++ rest)
     = Some (PgDate.mk y m d).
Proof.
  intros Hy Hm Hd.
  pose proof (days_in_month_bounds y m Hm) as Hdim.
  destruct (digits_of_Z_spec 4 y ltac:(lia) ltac:(simpl; lia)) as [HY Hyv].
  destruct (digits_of_Z_spec 2 m ltac:(lia) ltac:(simpl; lia)) as [HM Hmv].
  destruct (digits_of_Z_spec 2 d ltac:(lia) ltac:(simpl; lia)) as [HD Hdv].
  assert (Hparse : Date_parse (digits_of_Z 4 y ++ "-" ++ digits_of_Z 2 m ++ "-"
                               ++ digits_of_Z 2 d)
                   = Some (days_from_civil y m d * msPerDay)).
  { rewrite (Date_parse_fields _ _ _ y m d HY Hyv HM Hmv HD Hdv).
    replace ((1 <=? m) && (m <=? 12) && (1 <=? d) && (d <=? days_in_month y m))
      with true.
    - pose proof (days_range y m d Hy Hm ltac:(lia)) as Hr.
      pose proof (TimeClip_day (days_from_civil y m d) 0 Hr ltac:(lia)) as Hclip.
      replace (days_from_civil y m d * msPerDay - 0 * msPerMinute)
        with (days_from_civil y m d * msPerDay) in Hclip by lia.
      exact Hclip.
    - symmetry. rewrite !andb_true_iff, !Z.leb_le. lia. }
  split; [exact Hparse|].
  rewrite (date_of_text_fields _ _ _ rest y m d HY Hyv HM Hmv HD Hdv).
  now rewrite Hparse.
Qed.

Lemma iso_text t y m d :
  civil_from_days (t / msPerDay) = (y, m, d) -> 0 <= y <= 9999 ->
  exists rest,
    toISOString (Some t)
    = Some (digits_of_Z 4 y ++ "-" ++ digits_of_Z 2 m ++ "-" ++ digits_of_Z 2 d ++ rest).
Proof.
  intros Hc Hy. unfold toISOString. rewrite Hc.
  replace ((0 <=? y) && (y <=? 9999)) with true
    by (symmetry; rewrite andb_true_iff, !Z.leb_le; lia).
  eexists. reflexivity.
Qed.

Lemma startDate_month y m :
  0 <= y <= 9999 -> 1 <= m <= 12 ->
  Reports.startDate (month_text y m) = Some (days_from_civil y m 1 * msPerDay).
Proof.
  intros Hy Hm. unfold Reports.startDate, month_text.
  rewrite append_assoc.
  change (("-" ++ digits_of_Z 2 m) ++ "-01")
    with ("-" ++ (digits_of_Z 2 m ++ "-" ++ digits_of_Z 2 1)).
  apply valid_date_text with (rest := ""); try lia.
  pose proof (days_in_month_bounds y m Hm). lia.
Qed.

Lemma local_month_range zone y m :
  1 <= m <= 12 ->
  y - 1 <= fst (local_month zone y m) <= y /\ 1 <= snd (local_month zone y m) <= 12.
Proof.
  intros Hm. unfold local_month.
  destruct (previous_day y m Hm) as (_ & Hpm & _ & Hpy).
  destruct (zone <? 0); cbn [fst snd]; lia.
Qed.

Lemma getters_of_start zone y m :
  -1440 < zone < 1440 -> 0 <= y <= 9999 -> 1 <= m <= 12 ->
  getFullYear zone (Reports.startDate (month_text y m)) = Some (fst (local_month zone y m))
  /\ getMonth zone (Reports.startDate (month_text y m))
     = Some (snd (local_month zone y m) - 1).
Proof.
  intros Hz Hy Hm. rewrite startDate_month by assumption.
  unfold getFullYear, getMonth, LocalTime. rewrite local_day by exact Hz.
  unfold local_month.
  pose proof (days_in_month_bounds y m Hm) as Hdim.
  destruct (zone <? 0).
  - destruct (previous_day y m Hm) as (Hday & Hpm & Hpd & _).
    rewrite Hday, civil_round_trip; [split; reflexivity|exact Hpm|].
    pose proof (days_in_month_bounds (PgDate.year (previous_month_end y m)) _ Hpm). lia.
  - rewrite civil_round_trip by lia. split; reflexivity.
Qed.

Lemma endDate_month zone y m :
  -1440 < zone < 1440 -> 101 <= y <= 9999 -> 1 <= m <= 12 ->
  let '(y1, m1) := local_month zone y m in
  Reports.endDate zone (month_text y m)
  = Some (days_from_civil y1 m1 (days_in_month y1 m1) * msPerDay - zone * msPerMinute).
Proof.
  intros Hz Hy Hm.
  destruct (getters_of_start zone y m Hz ltac:(lia) Hm) as [Hyear Hmonth].
  destruct (local_month_range zone y m Hm) as [Hy1 Hm1].
  destruct (local_month zone y m) as [y1 m1]. cbn [fst snd] in *.
  unfold Reports.endDate. rewrite Hyear, Hmonth. cbn [option_map].
  unfold Date_of_fields, UTC.
  replace ((0 <=? y1) && (y1 <=? 99)) with false
    by (symmetry; apply andb_false_iff; right; apply Z.leb_gt; lia).
  cbv zeta. replace (m1 - 1 + 1) with m1 by lia.
  rewrite last_day_number by exact Hm1.
  apply TimeClip_day; [|exact Hz].
  pose proof (days_in_month_bounds y1 m1 Hm1).
  apply days_range; lia.
Qed.

Lemma date_of_iso t y m d :
  civil_from_days (t / msPerDay) = (y, m, d) ->
  0 <= y <= 9999 -> 1 <= m <= 12 -> 1 <= d <= days_in_month y m ->
  exists text, toISOString (Some t) = Some text
               /\ Store.date_of_text text = Some (PgDate.mk y m d).
Proof.
  intros Hc Hy Hm Hd. destruct (iso_text t y m d Hc Hy) as [rest Hrest].
  eexists. split; [exact Hrest|].
  exact (proj2 (valid_date_text y m d rest Hy Hm Hd)).
Qed.

Lemma upper_day_of_end zone y m :
  -1440 < zone < 1440 -> 101 <= y <= 9999 -> 1 <= m <= 12 ->
  let '(y1, m1) := local_month zone y m in
  let E := days_from_civil y1 m1 (days_in_month y1 m1) in
  civil_from_days ((E * msPerDay - zone * msPerMinute) / msPerDay)
  = (PgDate.year (upper_day zone y m), PgDate.month (upper_day zone y m),
     PgDate.day (upper_day zone y m))
  /\ 100 <= PgDate.year (upper_day zone y m) <= 9999
  /\ 1 <= PgDate.month (upper_day zone y m) <= 12
  /\ 1 <= PgDate.day (upper_day zone y m)
     <= days_in_month (PgDate.year (upper_day zone y m)) (PgDate.month (upper_day zone y m)).
Proof.
  intros Hz Hy Hm. unfold local_month, upper_day.
  pose proof (days_in_month_bounds y m Hm) as Hdim.
  destruct (Z.ltb_spec zone 0) as [Hwest|Heast].
  - destruct (previous_day y m Hm) as (_ & Hpm & Hpd & Hpy).
    set (p := previous_month_end y m) in *.
    pose proof (days_in_month_bounds (PgDate.year p) _ Hpm) as Hpdim.
    cbv zeta. rewrite utc_day by exact Hz.
    destruct (Z.ltb_spec 0 zone); [lia|].
    rewrite civil_round_trip by lia. rewrite <- Hpd. repeat split; lia.
  - cbv zeta. rewrite utc_day by exact Hz.
    destruct (Z.eqb_spec zone 0) as [->|Hne]; cbn [PgDate.year PgDate.month PgDate.day].
    + cbn [Z.ltb Z.compare]. rewrite civil_round_trip by lia. repeat split; lia.
    + destruct (Z.ltb_spec 0 zone); [|lia].
      replace (days_from_civil y m (days_in_month y m) - 1)
        with (days_from_civil y m (days_in_month y m - 1))
        by (rewrite (days_linear y m (days_in_month y m)),
                    (days_linear y m (days_in_month y m - 1)); lia).
      rewrite civil_round_trip by lia. repeat split; lia.
Qed.

(** The two days that the store reads off the bounds of a month. *)
Lemma bounds_by_zone zone y m :
  -1440 < zone < 1440 -> 101 <= y <= 9999 -> 1 <= m <= 12 ->
  exists from to,
    bounds zone (month_text y m) = Some (from, to)
    /\ Store.date_of_text from = Some (PgDate.mk y m 1)
    /\ Store.date_of_text to = Some (upper_day zone y m).
Proof.
  intros Hz Hy Hm.
  pose proof (days_in_month_bounds y m Hm) as Hdim.
  destruct (date_of_iso (days_from_civil y m 1 * msPerDay) y m 1)
    as (from & Hfrom & Hfirst); try lia.
  { rewrite Z.div_mul by (unfold msPerDay; lia). apply civil_round_trip; lia. }
  pose proof (endDate_month zone y m Hz Hy Hm) as Hend.
  pose proof (upper_day_of_end zone y m Hz Hy Hm) as Hupper.
  destruct (local_month zone y m) as [y1 m1]. cbv zeta in Hupper.
  destruct Hupper as (Hc & Hyear & Hmonth & Hday).
  destruct (date_of_iso _ _ _ _ Hc ltac:(lia) Hmonth Hday) as (to & Hto & Hlast).
  exists from, to. unfold bounds.
  rewrite startDate_month by lia. rewrite Hfrom, Hend, Hto.
  repeat split; [exact Hfirst|].
  rewrite Hlast. now destruct (upper_day zone y m).
Qed.

(* ===================================================================== *)
(** * The month of a report, zone by zone *)
(* ===================================================================== *)

Lemma select_pay_between d from to a b :
  Store.date_of_text from = Some a -> Store.date_of_text to = Some b ->
  Store.select_pay (month_filters from to) d
  = Some (Store.join d (filter (within a b) (Store.pay_statements d))).
Proof.
  intros Hfrom Hto. unfold Store.select_pay, month_filters.
  cbn [Store.compile_pay_all Store.compile_pay]. rewrite Hfrom, Hto.
  cbn [option_map]. f_equal. f_equal. apply filter_ext.
  intros p. unfold within. now rewrite andb_true_r.
Qed.

(** What a report fetch asks of the store for a month, by zone. *)
Lemma month_selection (zone y m : Z) (d : Store.Database) :
  -1440 < zone < 1440 -> 101 <= y <= 9999 -> 1 <= m <= 12 ->
  exists from to,
    bounds zone (month_text y m) = Some (from, to)
    /\ Store.select_pay (month_filters from to) d
       = Some (Store.join d
                 (filter (within (PgDate.mk y m 1) (upper_day zone y m))
                         (Store.pay_statements d))).
Proof.
  intros Hz Hy Hm.
  destruct (bounds_by_zone zone y m Hz Hy Hm) as (from & to & Hb & Hfrom & Hto).
  exists from, to. split; [exact Hb|].
  exact (select_pay_between d from to _ _ Hfrom Hto).
Qed.

(** X17. For every month of the years 101 to 9999 chosen in the month
    field, in a browser whose local time is a fixed number of minutes
    (less than a day) from UTC, when the store answers: both report
    fetches store the report of the pay statements whose period starts on
    or after the first day of the month and ends on or before an upper
    day that depends on the zone. On UTC it is the last day of the month;
    east of Greenwich it is the day before the last, so that statements
    that end on the last day are left out; west of Greenwich it is the
    last day of the month before. *)
Theorem report_month_by_zone (st : Reports.State) (w : World) (y m : Z) :
  -1440 < tz w < 1440 -> 101 <= y <= 9999 -> 1 <= m <= 12 ->
  Reports.selectedMonth st = month_text y m ->
  next_call_served w ->
  let rows :=
    Store.join (db w)
      (filter (within (PgDate.mk y m 1) (upper_day (tz w) y m))
              (Store.pay_statements (db w))) in
  Reports.fetchPayByJobTitle (mkSys st w)
  = (mkSys (with_titles st (Reports.job_title_report rows)) (answered w), Normal tt)
  /\ Reports.fetchPayByDivision (mkSys st w)
     = (mkSys (with_divisions st (Reports.division_report rows)) (answered w), Normal tt).
Proof.
  intros Hz Hy Hm Hmonth Hserved. cbv zeta.
  destruct (month_selection (tz w) y m (db w) Hz Hy Hm) as (from & to & Hb & Hrows).
  rewrite <- Hmonth in Hb.
  split.
  - exact (fetchPayByJobTitle_served st w from to _ Hb Hserved Hrows).
  - exact (fetchPayByDivision_served st w from to _ Hb Hserved Hrows).
Qed.

Lemma report_month_by_zone_witness :
  let st := Reports.mkState "pay-by-title" [] [] [] [] "2024-01" false in
  Reports.fetchPayByJobTitle (mkSys st (Sample.world 60))
  = (mkSys (with_titles st
              (Reports.job_title_report
                 (Store.join Sample.database
                    (filter (within (PgDate.mk 2024 1 1) (PgDate.mk 2024 1 30))
                            Sample.pay_statements))))
           (answered (Sample.world 60)),
     Normal tt).
Proof.
  cbv zeta.
  refine (proj1 (report_month_by_zone
                   (Reports.mkState "pay-by-title" [] [] [] [] "2024-01" false)
                   (Sample.world 60) 2024 1 _ _ _ _ _));
    [cbn [tz Sample.world]; lia | lia | lia | reflexivity | reflexivity].
Defined.

Lemma nothing_within_reversed_bounds (a b : PgDate.t) (l : list PayStatement.t) :
  PgDate.leb a b = false -> Forall well_formed l -> filter (within a b) l = [].
Proof.
  intros Hab Hl. induction Hl as [|p l Hp Hl IH]; [reflexivity|].
  cbn [filter]. rewrite IH.
  destruct (within a b p) eqn:Hin; [exfalso|reflexivity].
  unfold within in Hin. apply andb_true_iff in Hin as [Hstart Hend].
  unfold well_formed in Hp.
  pose proof (PgDate_leb_trans _ _ _ (PgDate_leb_trans _ _ _ Hstart Hp) Hend).
  congruence.
Qed.

Lemma previous_month_end_before y m :
  1 <= m <= 12 -> PgDate.leb (PgDate.mk y m 1) (previous_month_end y m) = false.
Proof.
  intros Hm. apply not_true_is_false. rewrite PgDate_leb_spec.
  unfold previous_month_end.
  destruct (Z.eqb_spec m 1); cbn [PgDate.year PgDate.month PgDate.day]; lia.
Qed.

(** X18. West of Greenwich the monthly reports are always empty: for
    every month of the years 101 to 9999, in a browser whose local time is
    behind UTC by a fixed offset of less than a day, when the store
    answers and no pay period in it ends before it starts, both report
    fetches store an empty report, whatever the store holds. *)
Theorem west_of_greenwich_reports_are_empty
  (st : Reports.State) (w : World) (y m : Z) :
  -1440 < tz w < 0 -> 101 <= y <= 9999 -> 1 <= m <= 12 ->
  Reports.selectedMonth st = month_text y m ->
  next_call_served w ->
  Forall well_formed (Store.pay_statements (db w)) ->
  Reports.payByJobTitle (ui (fst (Reports.fetchPayByJobTitle (mkSys st w)))) = []
  /\ Reports.payByDivision (ui (fst (Reports.fetchPayByDivision (mkSys st w)))) = [].
Proof.
  intros Hz Hy Hm Hmonth Hserved Hall.
  destruct (month_selection (tz w) y m (db w) ltac:(lia) Hy Hm)
    as (from & to & Hb & Hrows).
  rewrite <- Hmonth in Hb.
  assert (Hnone : filter (within (PgDate.mk y m 1) (upper_day (tz w) y m))
                         (Store.pay_statements (db w)) = []).
  { apply nothing_within_reversed_bounds; [|exact Hall].
    unfold upper_day. destruct (Z.ltb_spec (tz w) 0); [|lia].
    now apply previous_month_end_before. }
  rewrite Hnone in Hrows.
  rewrite (fetchPayByJobTitle_served st w from to _ Hb Hserved Hrows).
  rewrite (fetchPayByDivision_served st w from to _ Hb Hserved Hrows).
  split; reflexivity.
Qed.

Lemma west_of_greenwich_reports_are_empty_witness :
  Reports.payByJobTitle
    (ui (fst (Reports.fetchPayByJobTitle
                (mkSys (Reports.mkState "pay-by-title" [] []
                          [PayByJobTitle.mk "Accountant" (of_Z 4000) 2] [] "2024-01" false)
                       (Sample.world (-480))))))
  = [].
Proof.
  refine (proj1 (west_of_greenwich_reports_are_empty
                   (Reports.mkState "pay-by-title" [] []
                      [PayByJobTitle.mk "Accountant" (of_Z 4000) 2] [] "2024-01" false)
                   (Sample.world (-480)) 2024 1 _ _ _ _ _ _));
    [cbn [tz Sample.world]; lia | lia | lia | reflexivity | reflexivity |].
  repeat constructor.
Defined.
